(** * Atom distribution of the domain decomposition (gromacs/domdec/distribute.cpp)

    A shallow embedding of the atom-group assignment, of the two strategies
    that redistribute per-atom vectors, and of the replication of the global
    state, together with the properties the specification states about them.

    Modelling conventions.
    - [int] is [Z].  Signed overflow is undefined in the source, so the
      model covers the executions on which it does not occur.
    - [real] is [Q]: exact rational arithmetic, no rounding.  Comparisons,
      sums and products are those of the source read over the rationals.
      What depends on rounding is therefore not stated below: that a
      wrapping loop ends, that a coordinate an addition produced lies below
      the box length, or that a reference location formed again from
      shifted atoms is the shifted reference location.  The statements
      rest on the tests of the loops and on what a round does; an equality
      between coordinates is one of exact arithmetic.
    - arrays are lists; a read outside the array yields a default and a
      write outside it is dropped (both are undefined in the source).
    - the two [while] loops that wrap a position have no bound in the
      source; they take a fuel argument and answer [None] when it runs out.
    - every process of the group runs the same function; what the transport
      delivers (broadcast, scatter, send and receive) is written out where
      the functions are composed over all ranks. *)

From Stdlib Require Import ZArith QArith Qround Lqa Lia List Bool String.
From stdpp Require Import base tactics option list list_numbers sorting gmap.

Open Scope Z_scope.

(** ** Numbers and small vectors *)

(** [real] is read over the rationals. *)
Abbreviation real := Q (only parsing).

(** The spatial axes; [XX], [YY] and [ZZ] are 0, 1 and 2 in the source. *)
Inductive axis : Type := XX | YY | ZZ.

Definition axis_idx (d : axis) : Z :=
  match d with XX => 0 | YY => 1 | ZZ => 2 end.

Definition axis_eqb (a b : axis) : bool :=
  match a, b with
  | XX, XX | YY, YY | ZZ, ZZ => true
  | _, _ => false
  end.

Definition DIM : Z := 3.

(** [for (int d = DIM - 1; d >= 0; d--)] visits the axes in this order. *)
Definition axes_descending : list axis := [ZZ; YY; XX].

(** [for (int j = d + 1; j < DIM; j++)] visits these axes. *)
Definition axes_above (d : axis) : list axis :=
  match d with XX => [YY; ZZ] | YY => [ZZ] | ZZ => [] end.

(** A C array of [DIM] elements. *)
Record vec3 (A : Type) : Type := V3 { c_xx : A; c_yy : A; c_zz : A }.
Arguments V3 {A} _ _ _.
Arguments c_xx {A} _.
Arguments c_yy {A} _.
Arguments c_zz {A} _.

Definition vget {A} (v : vec3 A) (d : axis) : A :=
  match d with XX => c_xx v | YY => c_yy v | ZZ => c_zz v end.

Definition vset {A} (v : vec3 A) (d : axis) (a : A) : vec3 A :=
  match d with
  | XX => V3 a (c_yy v) (c_zz v)
  | YY => V3 (c_xx v) a (c_zz v)
  | ZZ => V3 (c_xx v) (c_yy v) a
  end.

Notation "v .[ d ]" := (vget v d) (at level 1, left associativity, format "v .[ d ]").

Abbreviation rvec := (vec3 Q) (only parsing).
Abbreviation ivec := (vec3 Z) (only parsing).
Abbreviation matrix := (vec3 (vec3 Q)) (only parsing).

Definition zero_rvec : rvec := V3 0%Q 0%Q 0%Q.

#[global] Instance rvec_inhabited : Inhabited rvec := populate zero_rvec.
#[global] Instance Q_inhabited : Inhabited Q := populate 0%Q.

(** Modelled from the spec: the helpers of gromacs/math/vec.h are not under
    src.  [copy_rvec] copies, [clear_rvec] zeroes, [rvec_inc a b] is
    [a += b] and [rvec_dec a b] is [a -= b], component by component
    ("repeatedly adding or subtracting the box vector"). *)
Definition copy_rvec (a : rvec) : rvec := a.
Definition clear_rvec : rvec := zero_rvec.
Definition rvec_inc (a b : rvec) : rvec :=
  V3 (c_xx a + c_xx b)%Q (c_yy a + c_yy b)%Q (c_zz a + c_zz b)%Q.
Definition rvec_dec (a b : rvec) : rvec :=
  V3 (c_xx a - c_xx b)%Q (c_yy a - c_yy b)%Q (c_zz a - c_zz b)%Q.

(** ** Arrays indexed by [int] *)

Definition arr_get {A} `{Inhabited A} (l : list A) (i : Z) : A :=
  if 0 <=? i then l !!! Z.to_nat i else inhabitant.

Definition arr_alter {A} (f : A -> A) (i : Z) (l : list A) : list A :=
  if 0 <=? i then alter f (Z.to_nat i) l else l.

Definition arr_set {A} (i : Z) (a : A) (l : list A) : list A :=
  arr_alter (fun _ => a) i l.

(** The sum of a list of counts. *)
Definition Zsum (l : list Z) : Z := foldr Z.add 0 l.

(** [for (int k = k0; k < k1; k++) st = body k st]. *)
Definition for_range {T} (k0 k1 : Z) (body : Z -> T -> T) (st : T) : T :=
  foldl (fun s k => body k s) st (seqZ k0 (k1 - k0)).

(** ** The data of the decomposition *)

(** [t_block]: [nr] groups, group [i] holds atoms [index[i] .. index[i+1]-1]. *)
Record t_block : Type := { nr : Z; index : list Z }.

(** One entry of [AtomDistribution::domainGroups]. *)
Record DomainGroups : Type := { atomGroups : list Z; numAtoms : Z }.

#[global] Instance DomainGroups_inhabited : Inhabited DomainGroups :=
  populate {| atomGroups := []; numAtoms := 0 |}.

(** [AtomDistribution], the ledger kept by the master rank. *)
Record AtomDistribution : Type := {
  domainGroups : list DomainGroups;
  ma_atomGroups : list Z;
  intBuffer : list Z;
  rvecBuffer : list rvec
}.

(** The fields of [gmx_domdec_t] that distribute.cpp reads or writes. *)
Record gmx_domdec_t : Type := {
  nnodes : Z;
  rank : Z;
  masterrank : Z;
  nc : ivec;
  npbcdim : Z;
  bScrewPBC : bool;
  ncg_home : Z;
  nat_home : Z;
  index_gl : list Z;
  cgindex : list Z;
  ma : AtomDistribution
}.

(** Modelled from the spec: the macro [DDMASTER] is not under src; the
    master is the rank that holds the global state and the ledger. *)
Definition DDMASTER (dd : gmx_domdec_t) : bool := rank dd =? masterrank dd.

(** Modelled from the spec: the macro [dd_index] is not under src; "the
    three per-axis indices combine, row-major, into one linear domain id". *)
Definition dd_index (n i : ivec) : Z :=
  (i.[XX] * n.[YY] + i.[YY]) * n.[ZZ] + i.[ZZ].

(** [gmx_ddbox_t]: only [tric_dir] is read here. *)
Record gmx_ddbox_t : Type := { tric_dir : ivec }.

(** ** Assignment of atom groups to domains: [getAtomGroupDistribution] *)

Definition set_numAtoms (n : Z) (g : DomainGroups) : DomainGroups :=
  {| atomGroups := atomGroups g; numAtoms := n |}.

Definition add_numAtoms (n : Z) (g : DomainGroups) : DomainGroups :=
  set_numAtoms (numAtoms g + n) g.

(** Lines 292-296: clear the count of every rank. *)
Definition clear_counts (nn : Z) (dg : list DomainGroups) : list DomainGroups :=
  for_range 0 nn (fun r => arr_alter (set_numAtoms 0) r) dg.

(** Lines 312-334: the reference location of the group [k0 .. k1-1].  For
    a group without atoms the source divides by zero and the location is
    not a number; here it is the zero vector, so what is stated of a
    reference location is stated for groups of at least one atom. *)
Definition group_center (pos : list rvec) (k0 k1 : Z) : rvec :=
  let nrcg := k1 - k0 in
  if nrcg =? 1 then copy_rvec (arr_get pos k0)
  else
    let inv_ncg := (1 / inject_Z nrcg)%Q in
    let s := for_range k0 k1 (fun k cg => rvec_inc cg (arr_get pos k)) clear_rvec in
    V3 (c_xx s * inv_ncg)%Q (c_yy s * inv_ncg)%Q (c_zz s * inv_ncg)%Q.

(** The reflection a screw boundary applies with each shift along x. *)
Definition screw_flip (box : matrix) (v : rvec) : rvec :=
  let v1 := vset v YY (box.[YY].[YY] - v.[YY])%Q in
  vset v1 ZZ (box.[ZZ].[ZZ] - v1.[ZZ])%Q.

(** One shift of a vector: the body shared by lines 354-359 and 362-367
    (with [rvec_dec]) and by lines 373-378 and 381-386 (with [rvec_inc]). *)
Definition shift_vec (op : rvec -> rvec -> rvec) (box : matrix) (d : axis)
    (bScrew : bool) (v : rvec) : rvec :=
  let v1 := op v box.[d] in
  if bScrew then screw_flip box v1 else v1.

(** What the wrapping loops update: the coordinate along the axis, the
    reference location and the position array. *)
Record wrap_state : Type := {
  w_pos_d : real;
  w_cg_cm : rvec;
  w_pos : list rvec
}.

(** The body of the loop at lines 351-369. *)
Definition wrap_down_body (box : matrix) (d : axis) (bScrew : bool) (k0 k1 : Z)
    (w : wrap_state) : wrap_state :=
  {| w_pos_d := (w_pos_d w - box.[d].[d])%Q;
     w_cg_cm := shift_vec rvec_dec box d bScrew (w_cg_cm w);
     w_pos := for_range k0 k1
                (fun k => arr_alter (shift_vec rvec_dec box d bScrew) k) (w_pos w) |}.

(** The body of the loop at lines 370-388. *)
Definition wrap_up_body (box : matrix) (d : axis) (bScrew : bool) (k0 k1 : Z)
    (w : wrap_state) : wrap_state :=
  {| w_pos_d := (w_pos_d w + box.[d].[d])%Q;
     w_cg_cm := shift_vec rvec_inc box d bScrew (w_cg_cm w);
     w_pos := for_range k0 k1
                (fun k => arr_alter (shift_vec rvec_inc box d bScrew) k) (w_pos w) |}.

(** [while (pos_d >= box[d][d])].  The subtraction is exact here and
    rounded in the source, so the number of rounds can differ and nothing
    below relies on the loop ending. *)
Fixpoint wrap_down (fuel : nat) (box : matrix) (d : axis) (bScrew : bool)
    (k0 k1 : Z) (w : wrap_state) : option wrap_state :=
  if Qle_bool box.[d].[d] (w_pos_d w) then
    match fuel with
    | O => None
    | S fuel' => wrap_down fuel' box d bScrew k0 k1 (wrap_down_body box d bScrew k0 k1 w)
    end
  else Some w.

(** [while (pos_d < 0)].  The addition is exact here and rounded in the
    source, where it can yield the box length itself; on exit only
    [pos_d >= 0], the negated test, is relied on. *)
Fixpoint wrap_up (fuel : nat) (box : matrix) (d : axis) (bScrew : bool)
    (k0 k1 : Z) (w : wrap_state) : option wrap_state :=
  if negb (Qle_bool 0 (w_pos_d w)) then
    match fuel with
    | O => None
    | S fuel' => wrap_up fuel' box d bScrew k0 k1 (wrap_up_body box d bScrew k0 k1 w)
    end
  else Some w.

(** Lines 343-350: the coordinate along [d], in triclinic coordinates when
    the direction is triclinic and has more than one cell. *)
Definition tric_coord (dd : gmx_domdec_t) (ddbox : gmx_ddbox_t) (tcm : matrix)
    (d : axis) (cg_cm : rvec) : real :=
  if negb (ddbox.(tric_dir).[d] =? 0) && (1 <? dd.(nc).[d]) then
    foldl (fun p j => (p + cg_cm.[j] * tcm.[j].[d])%Q) cg_cm.[d] (axes_above d)
  else cg_cm.[d].

(** Lines 339-389: put the group in the box along [d]. *)
Definition wrap_axis (fuel : nat) (dd : gmx_domdec_t) (ddbox : gmx_ddbox_t)
    (box tcm : matrix) (k0 k1 : Z) (d : axis) (cg_cm : rvec) (pos : list rvec)
    : option wrap_state :=
  if axis_idx d <? dd.(npbcdim) then
    let bScrew := dd.(bScrewPBC) && axis_eqb d XX in
    let w0 := {| w_pos_d := tric_coord dd ddbox tcm d cg_cm;
                 w_cg_cm := cg_cm; w_pos := pos |} in
    w1 ← wrap_down fuel box d bScrew k0 k1 w0;
    wrap_up fuel box d bScrew k0 k1 w1
  else Some {| w_pos_d := cg_cm.[d]; w_cg_cm := cg_cm; w_pos := pos |}.

(** Lines 391-395: [ind[d] = 0; while (ind[d]+1 < nc[d] && pos_d >=
    cellBoundaries[d][ind[d]+1]) ind[d]++].  The index grows by one per
    round and stays below [nc[d]], so [nc[d]] rounds are enough
    ([cell_search_exit] below). *)
Fixpoint cell_search (n : nat) (nc_d : Z) (bnd : list real) (pos_d : real)
    (ind : Z) : Z :=
  match n with
  | O => ind
  | S n' =>
      if (ind + 1 <? nc_d) && Qle_bool (arr_get bnd (ind + 1)) pos_d
      then cell_search n' nc_d bnd pos_d (ind + 1)
      else ind
  end.

Definition cell_index (nc_d : Z) (bnd : list real) (pos_d : real) : Z :=
  cell_search (Z.to_nat nc_d) nc_d bnd pos_d 0.

(** What the loop over the axes carries for one group. *)
Record group_state : Type := {
  g_ind : ivec;
  g_cg_cm : rvec;
  g_pos : list rvec
}.

(** One round of the loop at lines 337-396. *)
Definition assign_axis (fuel : nat) (dd : gmx_domdec_t) (ddbox : gmx_ddbox_t)
    (box tcm : matrix) (cellBoundaries : vec3 (list real)) (k0 k1 : Z)
    (d : axis) (g : group_state) : option group_state :=
  w ← wrap_axis fuel dd ddbox box tcm k0 k1 d (g_cg_cm g) (g_pos g);
  Some {| g_ind := vset (g_ind g) d
                     (cell_index dd.(nc).[d] cellBoundaries.[d] (w_pos_d w));
          g_cg_cm := w_cg_cm w;
          g_pos := w_pos w |}.

(** The loop at lines 337-396 over a list of axes. *)
Fixpoint assign_axes (fuel : nat) (dd : gmx_domdec_t) (ddbox : gmx_ddbox_t)
    (box tcm : matrix) (cellBoundaries : vec3 (list real)) (k0 k1 : Z)
    (ds : list axis) (g : group_state) : option group_state :=
  match ds with
  | [] => Some g
  | d :: ds' =>
      g' ← assign_axis fuel dd ddbox box tcm cellBoundaries k0 k1 d g;
      assign_axes fuel dd ddbox box tcm cellBoundaries k0 k1 ds' g'
  end.

(** Lines 312-396 for the group [icg]: its cell and the positions after it
    was put in the box.  [ind] is uninitialised before the loop; every
    component is written by it. *)
Definition place_group (fuel : nat) (dd : gmx_domdec_t) (ddbox : gmx_ddbox_t)
    (box tcm : matrix) (cellBoundaries : vec3 (list real)) (cgs : t_block)
    (icg : Z) (pos : list rvec) : option group_state :=
  let k0 := arr_get cgs.(index) icg in
  let k1 := arr_get cgs.(index) (icg + 1) in
  assign_axes fuel dd ddbox box tcm cellBoundaries k0 k1 axes_descending
    {| g_ind := V3 0 0 0; g_cg_cm := group_center pos k0 k1; g_pos := pos |}.

(** What [getAtomGroupDistribution] has built so far: the returned
    [indices], the caller's position array and the counts of the ledger. *)
Record distribution : Type := {
  d_indices : list (list Z);
  d_pos : list rvec;
  d_groups : list DomainGroups
}.

(** The body of the loop at lines 310-400 for the group [icg]. *)
Definition distribute_group (fuel : nat) (dd : gmx_domdec_t) (ddbox : gmx_ddbox_t)
    (box tcm : matrix) (cellBoundaries : vec3 (list real)) (cgs : t_block)
    (icg : Z) (st : distribution) : option distribution :=
  g ← place_group fuel dd ddbox box tcm cellBoundaries cgs icg (d_pos st);
  let domainIndex := dd_index dd.(nc) (g_ind g) in
  Some {| d_indices := arr_alter (fun l => l ++ [icg]) domainIndex (d_indices st);
          d_pos := g_pos g;
          d_groups := arr_alter
                        (add_numAtoms (arr_get cgs.(index) (icg + 1)
                                       - arr_get cgs.(index) icg))
                        domainIndex (d_groups st) |}.

(** [for (int icg = ...; icg < cgs->nr; icg++)] over the listed groups. *)
Fixpoint distribute_groups (fuel : nat) (dd : gmx_domdec_t) (ddbox : gmx_ddbox_t)
    (box tcm : matrix) (cellBoundaries : vec3 (list real)) (cgs : t_block)
    (icgs : list Z) (st : distribution) : option distribution :=
  match icgs with
  | [] => Some st
  | icg :: rest =>
      st' ← distribute_group fuel dd ddbox box tcm cellBoundaries cgs icg st;
      distribute_groups fuel dd ddbox box tcm cellBoundaries cgs rest st'
  end.

(** [getAtomGroupDistribution].  [tcm] is what [make_tric_corr_matrix]
    returned and [cellBoundaries] what [set_dd_cell_sizes_slb] returned;
    both belong to the cell geometry and are taken as given.  The summary
    written to [fplog] changes nothing and is left out. *)
Definition getAtomGroupDistribution (fuel : nat) (box : matrix)
    (ddbox : gmx_ddbox_t) (tcm : matrix) (cellBoundaries : vec3 (list real))
    (cgs : t_block) (pos : list rvec) (dd : gmx_domdec_t) : option distribution :=
  distribute_groups fuel dd ddbox box tcm cellBoundaries cgs
    (seqZ 0 cgs.(nr))
    {| d_indices := replicate (Z.to_nat dd.(nnodes)) [];
       d_pos := pos;
       d_groups := clear_counts dd.(nnodes) dd.(ma).(domainGroups) |}.

(** ** Outcomes, constants and collaborators that are not in this file *)

(** How a call ends: it returns, it stops the run with a message
    ([GMX_RELEASE_ASSERT], [gmx_fatal]), a wrapping loop used up the fuel,
    or the rank waits for a transfer that the master never starts. *)
Inductive result (A : Type) : Type :=
| Done (a : A)
| Fatal (msg : string)
| OutOfFuel
| Unmatched.
Arguments Done {A} _.
Arguments Fatal {A} _.
Arguments OutOfFuel {A}.
Arguments Unmatched {A}.

#[global] Instance result_bind : MBind result := fun A B f r =>
  match r with
  | Done a => f a
  | Fatal msg => Fatal msg
  | OutOfFuel => OutOfFuel
  | Unmatched => Unmatched
  end.

Definition of_fuel {A} (o : option A) : result A :=
  match o with Some a => Done a | None => OutOfFuel end.

(** [GMX_RELEASE_ASSERT(cond, msg)]. *)
Definition GMX_RELEASE_ASSERT (cond : bool) (msg : string) : result unit :=
  if cond then Done tt else Fatal msg.

(** Constants and functions that distribute.cpp uses and other files
    define: the enumerators of the state entries, the threshold of the
    strategy choice, [over_alloc_dd], [check_screw_box] (true when the box
    is accepted, a fatal error otherwise) and the size of [real]. *)
Record externals : Type := {
  efptNR : Z;
  estX : Z;
  estV : Z;
  estCGP : Z;
  c_maxNumRanksUseSendRecvForScatterAndGather : Z;
  over_alloc_dd : Z -> Z;
  check_screw_box : matrix -> bool;
  sizeof_real : Z
}.

Definition sizeof_int : Z := 4.
Definition sizeof_double : Z := 8.
Definition sizeof_rvec (ext : externals) : Z := DIM * ext.(sizeof_real).
Definition sizeof_matrix (ext : externals) : Z := DIM * DIM * ext.(sizeof_real).

(** [n] elements overwrite the start of an array: what a transfer of
    [n * sizeof(T)] bytes into a buffer of [T] leaves there. *)
Definition overwrite {A} (n : Z) (src dst : list A) : list A :=
  take (Z.to_nat n) src ++ drop (Z.to_nat n) dst.

(** Modelled from the spec: [dd_scatter] is not under src ("exchange each
    domain's learned group-count and atom-count (small collective) so every
    domain knows its own local sizes").  Rank [r] receives the [r]-th block
    of [n] elements of the buffer of the master. *)
Definition dd_scatter {A} (n : Z) (src : list A) (r : Z) : list A :=
  take (Z.to_nat n) (drop (Z.to_nat (r * n)) src).

(** Modelled from the spec: [dd_scatterv] is not under src ("one
    scatter-with-variable-counts operation" with "per-domain byte counts and
    offsets").  Rank [r] receives [counts[r]] bytes that start
    [displs[r]] bytes into the buffer of the master, [size] bytes per
    element, at the start of its array [dst]; [rcount] is the room, in
    bytes, the rank offers, and a longer message is a fatal error of the
    transport. *)
Definition dd_scatterv {A} (size : Z) (counts displs : list Z) (src : list A)
    (r : Z) (rcount : Z) (dst : list A) : result (list A) :=
  let n := arr_get counts r / size in
  let off := arr_get displs r / size in
  if arr_get counts r <=? rcount
  then Done (overwrite n (drop (Z.to_nat off) src) dst)
  else Fatal "message truncated".

(** Runs [f] on every rank, in rank order; the first failure ends it. *)
Fixpoint on_all_ranks {A B} (f : A -> result B) (l : list A) : result (list B) :=
  match l with
  | [] => Done []
  | a :: l' => b ← f a; bs ← on_all_ranks f l'; Done (b :: bs)
  end.

(** ** [distributeAtomGroups] *)

(** Lines 457-461: the sizes of every rank, interleaved in [intBuffer]. *)
Definition store_sizes (nn : Z) (groupIndices : list (list Z))
    (dg : list DomainGroups) (ib : list Z) : list Z :=
  for_range 0 nn
    (fun rank ib =>
       arr_set (rank * 2 + 1) (numAtoms (arr_get dg rank))
         (arr_set (rank * 2) (Z.of_nat (length (arr_get groupIndices rank))) ib))
    ib.

(** Lines 446-463 on the master: the assignment and the sizes to scatter.
    Returns the group lists, the position array and the ledger. *)
Definition master_assign (ext : externals) (fuel : nat) (dd : gmx_domdec_t)
    (cgs : t_block) (box : matrix) (ddbox : gmx_ddbox_t) (tcm : matrix)
    (cellBoundaries : vec3 (list real)) (pos : list rvec)
    : result (list (list Z) * list rvec * AtomDistribution) :=
  _ ← (if dd.(bScrewPBC)
       then (if ext.(check_screw_box) box then Done tt
             else Fatal "check_screw_box")
       else Done tt);
  st ← of_fuel (getAtomGroupDistribution fuel box ddbox tcm cellBoundaries cgs pos dd);
  Done (d_indices st, d_pos st,
        {| domainGroups := d_groups st;
           ma_atomGroups := dd.(ma).(ma_atomGroups);
           intBuffer := store_sizes dd.(nnodes) (d_indices st) (d_groups st)
                          dd.(ma).(intBuffer);
           rvecBuffer := dd.(ma).(rvecBuffer) |}).

(** What the loop at lines 486-497 carries. *)
Record group_layout : Type := {
  l_ma : AtomDistribution;
  l_groupOffset : Z
}.

(** One round of the loop at lines 486-497. *)
Definition layout_rank (nn : Z) (groupIndices : list (list Z)) (rank : Z)
    (l : group_layout) : group_layout :=
  let a := l_ma l in
  let gi := arr_get groupIndices rank in
  let size := Z.of_nat (length gi) in
  let ib := arr_set (nn + rank) (l_groupOffset l * sizeof_int)
              (arr_set rank (size * sizeof_int) a.(intBuffer)) in
  let ag := a.(ma_atomGroups) ++ gi in
  {| l_ma := {| domainGroups :=
                  arr_alter (fun g => {| atomGroups :=
                                           take (Z.to_nat size)
                                             (drop (Z.to_nat (l_groupOffset l)) ag);
                                         numAtoms := numAtoms g |})
                    rank a.(domainGroups);
                ma_atomGroups := ag;
                intBuffer := ib;
                rvecBuffer := a.(rvecBuffer) |};
     l_groupOffset := l_groupOffset l + size |}.

(** Lines 481-498 on the master: the groups of all ranks in one array,
    with the byte count and the byte offset of every rank. *)
Definition master_layout (dd : gmx_domdec_t) (groupIndices : list (list Z))
    (a : AtomDistribution) : AtomDistribution :=
  l_ma (for_range 0 dd.(nnodes) (layout_rank dd.(nnodes) groupIndices)
          {| l_ma := {| domainGroups := a.(domainGroups);
                        ma_atomGroups := [];
                        intBuffer := a.(intBuffer);
                        rvecBuffer := a.(rvecBuffer) |};
             l_groupOffset := 0 |}).

(** Lines 506-513: the sizes of the home groups. *)
Definition home_cgindex (cgs : t_block) (ncg : Z) (index_gl : list Z)
    (cgindex0 : list Z) : list Z :=
  for_range 0 ncg
    (fun i ci =>
       let cg_gl := arr_get index_gl i in
       arr_set (i + 1)
         (arr_get ci i + arr_get cgs.(index) (cg_gl + 1) - arr_get cgs.(index) cg_gl)
         ci)
    (arr_set 0 0 cgindex0).

(** [srenew(p, n)]: the array has [n] elements afterwards; the old
    content stays, what is new is not initialised (a default here). *)
Definition srenew {A} `{Inhabited A} (l : list A) (n : Z) : list A :=
  take (Z.to_nat n) l ++ replicate (Z.to_nat n - length l) inhabitant.

(** Lines 468-479 and 500-513 on the rank of [dd]: [a1] is the ledger of
    the master when the sizes are scattered and [a2] when the groups are.
    The length of [index_gl] stands for [cg_nalloc]. *)
Definition receive_home (ext : externals) (cgs : t_block)
    (a1 a2 : AtomDistribution) (nn : Z) (dd : gmx_domdec_t)
    : result gmx_domdec_t :=
  let buf2 := dd_scatter 2 a1.(intBuffer) dd.(rank) in
  let ncg := arr_get buf2 0 in
  let nat := arr_get buf2 1 in
  let cg_nalloc := Z.of_nat (length dd.(index_gl)) in
  let grow := (cg_nalloc <? ncg) || (cg_nalloc =? 0) in
  let nalloc := ext.(over_alloc_dd) ncg in
  let igl0 := if grow then srenew dd.(index_gl) nalloc else dd.(index_gl) in
  let cgi0 := if grow then srenew dd.(cgindex) (nalloc + 1) else dd.(cgindex) in
  igl ← dd_scatterv sizeof_int a2.(intBuffer) (drop (Z.to_nat nn) a2.(intBuffer))
          a2.(ma_atomGroups) dd.(rank) (ncg * sizeof_int) igl0;
  Done {| nnodes := dd.(nnodes); rank := dd.(rank); masterrank := dd.(masterrank);
          nc := dd.(nc); npbcdim := dd.(npbcdim); bScrewPBC := dd.(bScrewPBC);
          ncg_home := ncg; nat_home := nat;
          index_gl := igl;
          cgindex := home_cgindex cgs ncg igl cgi0;
          ma := if DDMASTER dd then a2 else dd.(ma) |}.

(** [distributeAtomGroups] on all ranks: [dds] holds the [gmx_domdec_t] of
    every rank, in rank order, and [m] is the rank of the master, the only
    one whose box, positions and ledger are read. *)
Definition distributeAtomGroups (ext : externals) (fuel : nat)
    (dds : list gmx_domdec_t) (m : Z) (cgs : t_block) (box : matrix)
    (ddbox : gmx_ddbox_t) (tcm : matrix) (cellBoundaries : vec3 (list real))
    (pos : list rvec) : result (list gmx_domdec_t * list rvec) :=
  match dds !! Z.to_nat m with
  | None => Fatal "no master"
  | Some dd =>
      '(groupIndices, pos', a1) ←
        master_assign ext fuel dd cgs box ddbox tcm cellBoundaries pos;
      let a2 := master_layout dd groupIndices a1 in
      dds' ← on_all_ranks (receive_home ext cgs a1 a2 dd.(nnodes)) dds;
      Done (dds', pos')
  end.

(** ** Redistribution of a per-atom vector: the two strategies *)

(** The memory of a process: the arrays of vectors it holds, by address.
    [v] and [lv] are addresses, so that a call may be given the same array
    twice. *)
Abbreviation loc := nat (only parsing).
Abbreviation mem := (gmap nat (list (vec3 Q))) (only parsing).

Definition mem_get (h : mem) (p : loc) : list rvec := default [] (h !! p).
Definition mem_read (h : mem) (p : loc) (i : Z) : rvec := arr_get (mem_get h p) i.
Definition mem_write (p : loc) (i : Z) (x : rvec) (h : mem) : mem :=
  alter (arr_set i x) p h.

(** The nested loops at lines 88-94, 107-113 and 141-147: for every group
    of the list, in order, the vectors of its atoms are copied to
    consecutive places of the destination, from [localAtom] on.  [rd] reads
    [v[globalAtom]] and [wr] writes the destination; both act on the memory
    [M] the loop runs in. *)
Definition copy_groups {M} (rd : M -> Z -> rvec) (wr : Z -> rvec -> M -> M)
    (cgs : t_block) (groups : list Z) (m : M) (localAtom : Z) : M * Z :=
  foldl
    (fun st cg =>
       for_range (arr_get cgs.(index) cg) (arr_get cgs.(index) (cg + 1))
         (fun globalAtom st =>
            (wr (snd st) (copy_rvec (rd (fst st) globalAtom)) (fst st), snd st + 1))
         st)
    (m, localAtom) groups.

(** A counted loop whose body may end the run. *)
Definition for_range_result {T} (k0 k1 : Z) (body : Z -> T -> result T) (st : T)
    : result T :=
  foldl (fun r k => s ← r; body k s) (Done st) (seqZ k0 (k1 - k0)).

(** What the loop at lines 75-102 carries: the scratch buffer, its size
    and the messages sent so far (destination and content). *)
Record send_state : Type := {
  s_buf : list (vec3 Q);
  s_nalloc : Z;
  s_sent : list (Z * list (vec3 Q))
}.

(** One round of the loop at lines 75-102.  A write beyond the scratch
    buffer is dropped here and undefined in the source: what is stated of
    this loop asks that the atoms listed for a rank are no more than the
    ledger counts for it, so that they fit the buffer. *)
Definition send_rank (ext : externals) (dd : gmx_domdec_t) (cgs : t_block)
    (v : loc) (h : mem) (rank_ : Z) (s : send_state) : result send_state :=
  if rank_ =? dd.(rank) then Done s
  else
    let dg := arr_get dd.(ma).(domainGroups) rank_ in
    let grow := s_nalloc s <? numAtoms dg in
    let nalloc := if grow then ext.(over_alloc_dd) (numAtoms dg) else s_nalloc s in
    let buf := if grow then srenew (s_buf s) nalloc else s_buf s in
    let '(buf', localAtom) :=
      copy_groups (fun _ i => mem_read h v i) (fun la x b => arr_set la x b)
        cgs (atomGroups dg) buf 0 in
    _ ← GMX_RELEASE_ASSERT (localAtom =? numAtoms dg)
          "The index count and number of indices should match";
    Done {| s_buf := buf'; s_nalloc := nalloc;
            s_sent := s_sent s ++ [(rank_, take (Z.to_nat (numAtoms dg)) buf')] |}.

(** Modelled from the spec: [MPI_Recv] belongs to the transport
    ("point-to-point send/receive ... operating on raw byte buffers with
    explicit byte counts").  The message fills the start of the array;
    [rcount] is the room in bytes and a longer message is a fatal error. *)
Definition MPI_Recv {A} (size : Z) (msg : list A) (rcount : Z) (dst : list A)
    : result (list A) :=
  if Z.of_nat (length msg) * size <=? rcount
  then Done (overwrite (Z.of_nat (length msg)) msg dst)
  else Fatal "message truncated".

(** [dd_distribute_vec_sendrecv] on the rank of [dd], built with MPI.
    [incoming] is the message the master sent to this rank.  Returns the
    messages this rank sent and its memory. *)
Definition dd_distribute_vec_sendrecv (ext : externals) (dd : gmx_domdec_t)
    (cgs : t_block) (v lv : loc) (incoming : list rvec) (h : mem)
    : result (list (Z * list rvec) * mem) :=
  if DDMASTER dd then
    s ← for_range_result 0 dd.(nnodes) (send_rank ext dd cgs v h)
          {| s_buf := []; s_nalloc := 0; s_sent := [] |};
    let dg := arr_get dd.(ma).(domainGroups) dd.(masterrank) in
    let '(h', _) :=
      copy_groups (fun h i => mem_read h v i) (fun la x h => mem_write lv la x h)
        cgs (atomGroups dg) h 0 in
    Done (s_sent s, h')
  else
    l ← MPI_Recv (sizeof_rvec ext) incoming (dd.(nat_home) * sizeof_rvec ext)
          (mem_get h lv);
    Done ([], <[lv := l]> h).

(** Modelled from the spec: [get_commbuffer_counts] is not under src
    ("precomputed per-domain byte counts and offsets" of "one contiguous
    buffer ordered by domain id").  The count of a rank is the size in
    bytes of its atoms and its offset is the sum of the counts before it. *)
Definition get_commbuffer_counts (ext : externals) (a : AtomDistribution)
    : list Z * list Z :=
  let counts := (fun g => numAtoms g * sizeof_rvec ext) <$> a.(domainGroups) in
  (counts, (fun r => Zsum (take r counts)) <$> seq 0 (length counts)).

(** What the master hands to the scatter: counts, offsets and buffer. *)
Record scatter_source : Type := {
  sc_counts : list Z;
  sc_displs : list Z;
  sc_buffer : list (vec3 Q)
}.

(** Lines 130-149 on the master. *)
Definition pack_all (ext : externals) (dd : gmx_domdec_t) (cgs : t_block)
    (v : loc) (h : mem) : scatter_source :=
  let '(sendCounts, displacements) := get_commbuffer_counts ext dd.(ma) in
  let '(buffer, _) :=
    for_range 0 dd.(nnodes)
      (fun rank_ st =>
         copy_groups (fun _ i => mem_read h v i) (fun la x b => arr_set la x b)
           cgs (atomGroups (arr_get dd.(ma).(domainGroups) rank_)) (fst st) (snd st))
      (dd.(ma).(rvecBuffer), 0) in
  {| sc_counts := sendCounts; sc_displs := displacements; sc_buffer := buffer |}.

(** [dd_distribute_vec_scatterv] on the rank of [dd].  [root] is what the
    master hands to the scatter; the master computes it itself.  Returns
    the memory of the rank. *)
Definition dd_distribute_vec_scatterv (ext : externals) (dd : gmx_domdec_t)
    (cgs : t_block) (v lv : loc) (root : scatter_source) (h : mem) : result mem :=
  let src := if DDMASTER dd then pack_all ext dd cgs v h else root in
  l ← dd_scatterv (sizeof_rvec ext) (sc_counts src) (sc_displs src) (sc_buffer src)
        dd.(rank) (dd.(nat_home) * sizeof_rvec ext) (mem_get h lv);
  Done (<[lv := l]> h).

(** The message with destination [r] among those sent. *)
Definition message_for (sent : list (Z * list rvec)) (r : Z) : option (list rvec) :=
  snd <$> List.find (fun msg => fst msg =? r) sent.

(** The point-to-point strategy on all ranks: the master runs first and
    every other rank receives the message addressed to it.  A rank that
    was sent nothing waits for ever. *)
Definition sendrecv_all (ext : externals) (procs : list (gmx_domdec_t * mem))
    (m : Z) (cgs : t_block) (v lv : loc) : result (list mem) :=
  match procs !! Z.to_nat m with
  | None => Fatal "no master"
  | Some (ddm, hm) =>
      '(sent, hm') ← dd_distribute_vec_sendrecv ext ddm cgs v lv [] hm;
      on_all_ranks
        (fun p =>
           if DDMASTER (fst p) then Done hm'
           else match message_for sent (fst p).(rank) with
                | None => Unmatched
                | Some msg =>
                    r ← dd_distribute_vec_sendrecv ext (fst p) cgs v lv msg (snd p);
                    Done (snd r)
                end)
        procs
  end.

(** The collective strategy on all ranks. *)
Definition scatterv_all (ext : externals) (procs : list (gmx_domdec_t * mem))
    (m : Z) (cgs : t_block) (v lv : loc) : result (list mem) :=
  match procs !! Z.to_nat m with
  | None => Fatal "no master"
  | Some (ddm, hm) =>
      let root := pack_all ext ddm cgs v hm in
      on_all_ranks (fun p => dd_distribute_vec_scatterv ext (fst p) cgs v lv root (snd p))
        procs
  end.

(** [dd_distribute_vec]: the strategy is chosen by the number of ranks. *)
Definition use_sendrecv (ext : externals) (nn : Z) : bool :=
  nn <=? ext.(c_maxNumRanksUseSendRecvForScatterAndGather).

Definition dd_distribute_vec_all (ext : externals) (nn : Z)
    (procs : list (gmx_domdec_t * mem)) (m : Z) (cgs : t_block) (v lv : loc)
    : result (list mem) :=
  if use_sendrecv ext nn
  then sendrecv_all ext procs m cgs v lv
  else scatterv_all ext procs m cgs v lv.

(** ** The state and its replication: [dd_distribute_state] *)

(** [df_history_t]: the free-energy history. *)
Record df_history_t : Type := {
  bEquil : Z;
  nlambda : Z;
  wl_delta : Q;
  n_at_lam : list Z;
  wl_histo : list Q;
  sum_weights : list Q;
  sum_dg : list Q;
  sum_minvar : list Q;
  sum_variance : list Q;
  accum_p : list (list Q);
  accum_m : list (list Q);
  accum_p2 : list (list Q);
  accum_m2 : list (list Q);
  Tij : list (list Q);
  Tij_empirical : list (list Q)
}.

(** The entries of [t_state] that distribute.cpp touches.  [dfhist] is a
    pointer in the source: [None] is the null pointer. *)
Record t_state : Type := {
  lambda : list Q;
  fep_state : Z;
  veta : Q;
  vol0 : Q;
  s_box : vec3 (vec3 Q);
  box_rel : vec3 (vec3 Q);
  boxv : vec3 (vec3 Q);
  svir_prev : vec3 (vec3 Q);
  fvir_prev : vec3 (vec3 Q);
  dfhist : option df_history_t;
  ngtc : Z;
  nnhpres : Z;
  nhchainlength : Z;
  nosehoover_xi : list Q;
  nosehoover_vxi : list Q;
  therm_integral : list Q;
  nhpres_xi : list Q;
  nhpres_vxi : list Q;
  baros_integral : Q;
  flags : Z;
  s_x : list (vec3 Q);
  s_v : list (vec3 Q);
  cg_p : list (vec3 Q)
}.

(** What a broadcast carries. *)
Inductive bcast_item : Type :=
| B_lambda | B_fep_state | B_veta | B_vol0
| B_box | B_box_rel | B_boxv | B_svir_prev | B_fvir_prev
| B_nosehoover_xi | B_nosehoover_vxi | B_therm_integral
| B_nhpres_xi | B_nhpres_vxi
| B_bEquil | B_nlambda | B_wl_delta
| B_n_at_lam | B_wl_histo | B_sum_weights | B_sum_dg | B_sum_minvar
| B_sum_variance
| B_accum_p (i : Z) | B_accum_m (i : Z) | B_accum_p2 (i : Z)
| B_accum_m2 (i : Z) | B_Tij (i : Z) | B_Tij_empirical (i : Z).

(** One call of [dd_bcast]: the number of bytes and the data. *)
Record bcast_event : Type := { b_bytes : Z; b_item : bcast_item }.

(** Modelled from the spec: [dd_bcast] is not under src ("broadcast-to-all"
    of "raw byte buffers with explicit byte counts").  After the call the
    first [n] elements at the address are those of the master.  A single
    value is the case [n = 1] and is written [root] below. *)
Definition dd_bcast {A} (n : Z) (root local : list A) : list A :=
  overwrite n root local.

(** Lines 176-178: the three scalars. *)
Definition bcast_dfhist_header (ext : externals) (root d : df_history_t)
    : df_history_t * list bcast_event :=
  ({| bEquil := root.(bEquil); nlambda := root.(nlambda);
      wl_delta := root.(wl_delta);
      n_at_lam := d.(n_at_lam); wl_histo := d.(wl_histo);
      sum_weights := d.(sum_weights); sum_dg := d.(sum_dg);
      sum_minvar := d.(sum_minvar); sum_variance := d.(sum_variance);
      accum_p := d.(accum_p); accum_m := d.(accum_m);
      accum_p2 := d.(accum_p2); accum_m2 := d.(accum_m2);
      Tij := d.(Tij); Tij_empirical := d.(Tij_empirical) |},
   [ {| b_bytes := sizeof_int; b_item := B_bEquil |};
     {| b_bytes := sizeof_int; b_item := B_nlambda |};
     {| b_bytes := ext.(sizeof_real); b_item := B_wl_delta |} ]).

(** Lines 183-188: the arrays of [nlam] elements. *)
Definition bcast_dfhist_vectors (ext : externals) (nlam : Z) (root d : df_history_t)
    : df_history_t * list bcast_event :=
  ({| bEquil := d.(bEquil); nlambda := d.(nlambda); wl_delta := d.(wl_delta);
      n_at_lam := dd_bcast nlam root.(n_at_lam) d.(n_at_lam);
      wl_histo := dd_bcast nlam root.(wl_histo) d.(wl_histo);
      sum_weights := dd_bcast nlam root.(sum_weights) d.(sum_weights);
      sum_dg := dd_bcast nlam root.(sum_dg) d.(sum_dg);
      sum_minvar := dd_bcast nlam root.(sum_minvar) d.(sum_minvar);
      sum_variance := dd_bcast nlam root.(sum_variance) d.(sum_variance);
      accum_p := d.(accum_p); accum_m := d.(accum_m);
      accum_p2 := d.(accum_p2); accum_m2 := d.(accum_m2);
      Tij := d.(Tij); Tij_empirical := d.(Tij_empirical) |},
   [ {| b_bytes := sizeof_int * nlam; b_item := B_n_at_lam |};
     {| b_bytes := ext.(sizeof_real) * nlam; b_item := B_wl_histo |};
     {| b_bytes := ext.(sizeof_real) * nlam; b_item := B_sum_weights |};
     {| b_bytes := ext.(sizeof_real) * nlam; b_item := B_sum_dg |};
     {| b_bytes := ext.(sizeof_real) * nlam; b_item := B_sum_minvar |};
     {| b_bytes := ext.(sizeof_real) * nlam; b_item := B_sum_variance |} ]).

(** The broadcast of row [i] of a matrix of the history. *)
Definition bcast_row (nlam i : Z) (root d : list (list Q)) : list (list Q) :=
  arr_set i (dd_bcast nlam (arr_get root i) (arr_get d i)) d.

(** One round of the loop at lines 190-198. *)
Definition bcast_dfhist_row (ext : externals) (nlam : Z) (root : df_history_t)
    (i : Z) (st : df_history_t * list bcast_event)
    : df_history_t * list bcast_event :=
  let d := fst st in
  ({| bEquil := d.(bEquil); nlambda := d.(nlambda); wl_delta := d.(wl_delta);
      n_at_lam := d.(n_at_lam); wl_histo := d.(wl_histo);
      sum_weights := d.(sum_weights); sum_dg := d.(sum_dg);
      sum_minvar := d.(sum_minvar); sum_variance := d.(sum_variance);
      accum_p := bcast_row nlam i root.(accum_p) d.(accum_p);
      accum_m := bcast_row nlam i root.(accum_m) d.(accum_m);
      accum_p2 := bcast_row nlam i root.(accum_p2) d.(accum_p2);
      accum_m2 := bcast_row nlam i root.(accum_m2) d.(accum_m2);
      Tij := bcast_row nlam i root.(Tij) d.(Tij);
      Tij_empirical := bcast_row nlam i root.(Tij_empirical) d.(Tij_empirical) |},
   snd st ++
   [ {| b_bytes := ext.(sizeof_real) * nlam; b_item := B_accum_p i |};
     {| b_bytes := ext.(sizeof_real) * nlam; b_item := B_accum_m i |};
     {| b_bytes := ext.(sizeof_real) * nlam; b_item := B_accum_p2 i |};
     {| b_bytes := ext.(sizeof_real) * nlam; b_item := B_accum_m2 i |};
     {| b_bytes := ext.(sizeof_real) * nlam; b_item := B_Tij i |};
     {| b_bytes := ext.(sizeof_real) * nlam; b_item := B_Tij_empirical i |} ]).

(** [dd_distribute_dfhist] on one rank.  [dfhist] is the pointer the rank
    passes and [root] the history the master passes, from which every
    broadcast takes its data.  Returns the history of the rank and the
    broadcasts it took part in, in order. *)
Definition dd_distribute_dfhist (ext : externals) (root : option df_history_t)
    (dfhist : option df_history_t)
    : result (option df_history_t * list bcast_event) :=
  match dfhist with
  | None => Done (None, [])
  | Some d =>
      match root with
      | None => Unmatched
      | Some r =>
          let '(d1, t1) := bcast_dfhist_header ext r d in
          if 0 <? d1.(nlambda) then
            let nlam := d1.(nlambda) in
            let '(d2, t2) := bcast_dfhist_vectors ext nlam r d1 in
            let '(d3, t3) :=
              for_range 0 nlam (bcast_dfhist_row ext nlam r) (d2, []) in
            Done (Some d3, t1 ++ t2 ++ t3)
          else Done (Some d1, t1)
      end
  end.

(** Modelled from the spec: [copy_df_history] is not under src; it makes
    the history of the local state a copy of the one of the global state
    ("replicates the full simulation state ... free-energy history").
    Without a local history there is nothing to write to. *)
Definition copy_df_history (dst : option df_history_t) (src : df_history_t)
    : option df_history_t :=
  match dst with None => None | Some _ => Some src end.

(** The loops at lines 228-234 and 237-244 for one array: the entries
    [i*nh+j] for [i < n] and [j < nh]. *)
Definition copy_chain (n nh : Z) (src dst : list Q) : list Q :=
  for_range 0 n
    (fun i => for_range 0 nh
                (fun j d => arr_set (i * nh + j) (arr_get src (i * nh + j)) d))
    dst.

(** [copy_mat]: Modelled from the spec: gromacs/math/vec.h is not under
    src; the matrix is copied. *)
Definition copy_mat (a : matrix) : matrix := a.

(** Lines 206-246, the part of the master: the check of the chain lengths
    and the copy of the global entries into its local state. *)
Definition master_copy (ext : externals) (state state_local : t_state)
    : result t_state :=
  let nh := state_local.(nhchainlength) in
  _ ← GMX_RELEASE_ASSERT (state.(nhchainlength) =? nh)
        "The global and local Nose-Hoover chain lengths should match";
  Done {| lambda := for_range 0 ext.(efptNR)
                      (fun i l => arr_set i (arr_get state.(lambda) i) l)
                      state_local.(lambda);
          fep_state := state.(fep_state);
          veta := state.(veta);
          vol0 := state.(vol0);
          s_box := copy_mat state.(s_box);
          box_rel := copy_mat state.(box_rel);
          boxv := copy_mat state.(boxv);
          svir_prev := copy_mat state.(svir_prev);
          fvir_prev := copy_mat state.(fvir_prev);
          dfhist := match state.(dfhist) with
                    | Some src => copy_df_history state_local.(dfhist) src
                    | None => state_local.(dfhist)
                    end;
          ngtc := state_local.(ngtc);
          nnhpres := state_local.(nnhpres);
          nhchainlength := state_local.(nhchainlength);
          nosehoover_xi := copy_chain state_local.(ngtc) nh
                             state.(nosehoover_xi) state_local.(nosehoover_xi);
          nosehoover_vxi := copy_chain state_local.(ngtc) nh
                              state.(nosehoover_vxi) state_local.(nosehoover_vxi);
          therm_integral := for_range 0 state_local.(ngtc)
                              (fun i l => arr_set i (arr_get state.(therm_integral) i) l)
                              state_local.(therm_integral);
          nhpres_xi := copy_chain state_local.(nnhpres) nh
                         state.(nhpres_xi) state_local.(nhpres_xi);
          nhpres_vxi := copy_chain state_local.(nnhpres) nh
                          state.(nhpres_vxi) state_local.(nhpres_vxi);
          baros_integral := state.(baros_integral);
          flags := state_local.(flags);
          s_x := state_local.(s_x);
          s_v := state_local.(s_v);
          cg_p := state_local.(cg_p) |}.

(** Lines 247-260 on one rank: [root] is the local state of the master. *)
Definition bcast_state (ext : externals) (root state_local : t_state)
    : t_state * list bcast_event :=
  let nh := state_local.(nhchainlength) in
  let ngtc_ := state_local.(ngtc) in
  let nnhpres_ := state_local.(nnhpres) in
  ({| lambda := dd_bcast ext.(efptNR) root.(lambda) state_local.(lambda);
      fep_state := root.(fep_state);
      veta := root.(veta);
      vol0 := root.(vol0);
      s_box := root.(s_box);
      box_rel := root.(box_rel);
      boxv := root.(boxv);
      svir_prev := root.(svir_prev);
      fvir_prev := root.(fvir_prev);
      dfhist := state_local.(dfhist);
      ngtc := ngtc_;
      nnhpres := nnhpres_;
      nhchainlength := nh;
      nosehoover_xi := dd_bcast (ngtc_ * nh) root.(nosehoover_xi)
                         state_local.(nosehoover_xi);
      nosehoover_vxi := dd_bcast (ngtc_ * nh) root.(nosehoover_vxi)
                          state_local.(nosehoover_vxi);
      therm_integral := dd_bcast ngtc_ root.(therm_integral)
                          state_local.(therm_integral);
      nhpres_xi := dd_bcast (nnhpres_ * nh) root.(nhpres_xi) state_local.(nhpres_xi);
      nhpres_vxi := dd_bcast (nnhpres_ * nh) root.(nhpres_vxi)
                      state_local.(nhpres_vxi);
      baros_integral := state_local.(baros_integral);
      flags := state_local.(flags);
      s_x := state_local.(s_x);
      s_v := state_local.(s_v);
      cg_p := state_local.(cg_p) |},
   [ {| b_bytes := ext.(efptNR) * ext.(sizeof_real); b_item := B_lambda |};
     {| b_bytes := sizeof_int; b_item := B_fep_state |};
     {| b_bytes := ext.(sizeof_real); b_item := B_veta |};
     {| b_bytes := ext.(sizeof_real); b_item := B_vol0 |};
     {| b_bytes := sizeof_matrix ext; b_item := B_box |};
     {| b_bytes := sizeof_matrix ext; b_item := B_box_rel |};
     {| b_bytes := sizeof_matrix ext; b_item := B_boxv |};
     {| b_bytes := sizeof_matrix ext; b_item := B_svir_prev |};
     {| b_bytes := sizeof_matrix ext; b_item := B_fvir_prev |};
     {| b_bytes := ngtc_ * nh * sizeof_double; b_item := B_nosehoover_xi |};
     {| b_bytes := ngtc_ * nh * sizeof_double; b_item := B_nosehoover_vxi |};
     {| b_bytes := ngtc_ * sizeof_double; b_item := B_therm_integral |};
     {| b_bytes := nnhpres_ * nh * sizeof_double; b_item := B_nhpres_xi |};
     {| b_bytes := nnhpres_ * nh * sizeof_double; b_item := B_nhpres_vxi |} ]).

Definition set_dfhist (d : option df_history_t) (s : t_state) : t_state :=
  {| lambda := s.(lambda); fep_state := s.(fep_state); veta := s.(veta);
     vol0 := s.(vol0); s_box := s.(s_box); box_rel := s.(box_rel);
     boxv := s.(boxv); svir_prev := s.(svir_prev); fvir_prev := s.(fvir_prev);
     dfhist := d;
     ngtc := s.(ngtc); nnhpres := s.(nnhpres); nhchainlength := s.(nhchainlength);
     nosehoover_xi := s.(nosehoover_xi); nosehoover_vxi := s.(nosehoover_vxi);
     therm_integral := s.(therm_integral); nhpres_xi := s.(nhpres_xi);
     nhpres_vxi := s.(nhpres_vxi); baros_integral := s.(baros_integral);
     flags := s.(flags); s_x := s.(s_x); s_v := s.(s_v); cg_p := s.(cg_p) |}.

Definition set_vectors (x v p : list rvec) (s : t_state) : t_state :=
  {| lambda := s.(lambda); fep_state := s.(fep_state); veta := s.(veta);
     vol0 := s.(vol0); s_box := s.(s_box); box_rel := s.(box_rel);
     boxv := s.(boxv); svir_prev := s.(svir_prev); fvir_prev := s.(fvir_prev);
     dfhist := s.(dfhist);
     ngtc := s.(ngtc); nnhpres := s.(nnhpres); nhchainlength := s.(nhchainlength);
     nosehoover_xi := s.(nosehoover_xi); nosehoover_vxi := s.(nosehoover_vxi);
     therm_integral := s.(therm_integral); nhpres_xi := s.(nhpres_xi);
     nhpres_vxi := s.(nhpres_vxi); baros_integral := s.(baros_integral);
     flags := s.(flags); s_x := x; s_v := v; cg_p := p |}.

(** [state->flags & (1 << est)]. *)
Definition has_flag (s : t_state) (est : Z) : bool :=
  negb (Z.land s.(flags) (Z.shiftl 1 est) =? 0).

(** Modelled from the spec: [dd_resize_state] is not under src ("resize
    local per-atom storage to the learned local atom count").  The arrays
    of the entries in use, and the forces, get [natoms] elements. *)
Definition dd_resize_state (ext : externals) (s : t_state) (f : list rvec)
    (natoms : Z) : t_state * list rvec :=
  (set_vectors
     (if has_flag s ext.(estX) then srenew s.(s_x) natoms else s.(s_x))
     (if has_flag s ext.(estV) then srenew s.(s_v) natoms else s.(s_v))
     (if has_flag s ext.(estCGP) then srenew s.(cg_p) natoms else s.(cg_p))
     s,
   srenew f natoms).

(** Lines 206-265 of [dd_distribute_state] on the rank of [dd]: [state] is
    the global state, read by the master only, and [root] the local state
    the master broadcasts from; the master uses its own.  Returns the
    local state, the forces and the broadcasts, in order. *)
Definition dd_distribute_state_entries (ext : externals) (dd : gmx_domdec_t)
    (state state_local : t_state) (f : list rvec) (root : t_state)
    : result (t_state * list rvec * list bcast_event) :=
  sl1 ← (if DDMASTER dd then master_copy ext state state_local
         else Done state_local);
  let root1 := if DDMASTER dd then sl1 else root in
  let '(sl2, t1) := bcast_state ext root1 sl1 in
  '(df, t2) ← dd_distribute_dfhist ext root1.(dfhist) sl2.(dfhist);
  let '(sl3, f') := dd_resize_state ext (set_dfhist df sl2) f dd.(nat_home) in
  Done (sl3, f', t1 ++ t2).

(** The per-atom entries of the state that are redistributed. *)
Inductive entry : Type := EX | EV | ECGP.

Definition entry_flag (ext : externals) (e : entry) : Z :=
  match e with EX => ext.(estX) | EV => ext.(estV) | ECGP => ext.(estCGP) end.

Definition entry_get (e : entry) (s : t_state) : list rvec :=
  match e with EX => s.(s_x) | EV => s.(s_v) | ECGP => s.(cg_p) end.

Definition entry_set (e : entry) (l : list rvec) (s : t_state) : t_state :=
  match e with
  | EX => set_vectors l s.(s_v) s.(cg_p) s
  | EV => set_vectors s.(s_x) l s.(cg_p) s
  | ECGP => set_vectors s.(s_x) s.(s_v) l s
  end.

(** A process of the group: its decomposition data, its local state and
    its forces. *)
Record process : Type := {
  p_dd : gmx_domdec_t;
  p_state_local : t_state;
  p_f : list (vec3 Q)
}.

Definition set_state_local (s : t_state) (p : process) : process :=
  {| p_dd := p_dd p; p_state_local := s; p_f := p_f p |}.

(** The addresses of the array of the global state and of the array of the
    local state in a call of [dd_distribute_vec]: two objects. *)
Definition gl : loc := 0%nat.
Definition lo : loc := 1%nat.

(** The arrays of a rank in such a call; only the master holds the global
    one. *)
Definition entry_mem (e : entry) (state : t_state) (p : process) : mem :=
  if DDMASTER (p_dd p)
  then <[gl := entry_get e state]> {[ lo := entry_get e (p_state_local p) ]}
  else {[ lo := entry_get e (p_state_local p) ]}.

(** One of the three blocks at lines 267-281, on all ranks.  Every rank
    tests the flags of its own local state; when the ranks do not agree a
    transfer has no counterpart. *)
Definition distribute_entry (ext : externals) (m : Z) (cgs : t_block) (e : entry)
    (w : t_state * list process) : result (t_state * list process) :=
  let '(state, procs) := w in
  let active := fun p => has_flag (p_state_local p) (entry_flag ext e) in
  if forallb active procs then
    match procs !! Z.to_nat m with
    | None => Fatal "no master"
    | Some pm =>
        hs ← dd_distribute_vec_all ext (p_dd pm).(nnodes)
               ((fun p => (p_dd p, entry_mem e state p)) <$> procs) m cgs gl lo;
        Done (entry_set e (mem_get (default ∅ (hs !! Z.to_nat m)) gl) state,
              zip_with (fun p h => set_state_local
                                     (entry_set e (mem_get h lo) (p_state_local p)) p)
                procs hs)
    end
  else if forallb (fun p => negb (active p)) procs then Done w
  else Unmatched.

(** [dd_distribute_state] on all ranks: [state] is the global state of the
    master, [procs] the processes in rank order and [m] the rank of the
    master. *)
Definition dd_distribute_state (ext : externals) (state : t_state)
    (procs : list process) (m : Z) (cgs : t_block)
    : result (t_state * list process) :=
  match procs !! Z.to_nat m with
  | None => Fatal "no master"
  | Some pm =>
      root ← master_copy ext state (p_state_local pm);
      procs1 ← on_all_ranks
                 (fun p =>
                    r ← dd_distribute_state_entries ext (p_dd p) state
                          (p_state_local p) (p_f p) root;
                    Done {| p_dd := p_dd p; p_state_local := fst (fst r);
                            p_f := snd (fst r) |})
                 procs;
      w1 ← distribute_entry ext m cgs EX (state, procs1);
      w2 ← distribute_entry ext m cgs EV w1;
      distribute_entry ext m cgs ECGP w2
  end.

(** [distributeState] on all ranks.  The positions of the global state are
    the array handed to [distributeAtomGroups], which works on it in
    place. *)
Definition distributeState (ext : externals) (fuel : nat) (state_global : t_state)
    (procs : list process) (m : Z) (cgs_gl : t_block) (ddbox : gmx_ddbox_t)
    (tcm : matrix) (cellBoundaries : vec3 (list real))
    : result (t_state * list process) :=
  r ← distributeAtomGroups ext fuel (p_dd <$> procs) m cgs_gl state_global.(s_box)
        ddbox tcm cellBoundaries state_global.(s_x);
  let state1 := entry_set EX (snd r) state_global in
  let procs1 := zip_with (fun p dd => {| p_dd := dd;
                                         p_state_local := p_state_local p;
                                         p_f := p_f p |})
                  procs (fst r) in
  dd_distribute_state ext state1 procs1 m cgs_gl.

(** ** Conditions on the input *)

(** A grid of domains: at least one cell along every axis, one rank per
    cell. *)
Definition valid_grid (dd : gmx_domdec_t) : Prop :=
  (forall d, 1 <= dd.(nc).[d]) /\
  dd.(nnodes) = dd.(nc).[XX] * dd.(nc).[YY] * dd.(nc).[ZZ].

(** The number of atoms of group [icg]: [cgindex[icg + 1] - cgindex[icg]]. *)
Definition group_size (cgs : t_block) (icg : Z) : Z :=
  arr_get cgs.(index) (icg + 1) - arr_get cgs.(index) icg.

(** The processes of a group of [nn] ranks, in rank order, with master [m]. *)
Definition ranks_wf (dds : list gmx_domdec_t) (m nn : Z) : Prop :=
  length dds = Z.to_nat nn /\ 0 <= m /\
  forall (r : nat) dd, dds !! r = Some dd ->
    rank dd = Z.of_nat r /\ masterrank dd = m /\ nnodes dd = nn.

(** The ledger has an entry for every rank and its buffer of integers has
    room for two per rank, as [AtomDistribution] is constructed. *)
Definition ledger_sized (dd : gmx_domdec_t) : Prop :=
  length dd.(ma).(domainGroups) = Z.to_nat dd.(nnodes) /\
  2 * dd.(nnodes) <= Z.of_nat (length dd.(ma).(intBuffer)).

(** The groups [0 .. nr-1] cover the atoms [0 .. natoms-1]. *)
Definition block_covers (cgs : t_block) (natoms : Z) : Prop :=
  0 <= cgs.(nr) /\ arr_get cgs.(index) 0 = 0 /\ arr_get cgs.(index) cgs.(nr) = natoms.

(** With a screw boundary, [check_screw_box] accepts the box. *)
Definition screw_accepted (ext : externals) (dd : gmx_domdec_t) (box : matrix)
    : Prop :=
  dd.(bScrewPBC) = true -> ext.(check_screw_box) box = true.


(** Two vectors with equal components (equal as rationals). *)
Definition rvec_eq (a b : rvec) : Prop :=
  (c_xx a == c_xx b)%Q /\ (c_yy a == c_yy b)%Q /\ (c_zz a == c_zz b)%Q.

(** The translation of [v] by [s] times [b]. *)
Definition rvec_shift (s : Q) (v b : rvec) : rvec :=
  V3 (c_xx v + s * c_xx b)%Q (c_yy v + s * c_yy b)%Q (c_zz v + s * c_zz b)%Q.

(** The atoms [k0 .. k1-1] form a group of the position array: at least
    one atom, all of them in the array. *)
Definition group_in (pos : list rvec) (k0 k1 : Z) : Prop :=
  0 <= k0 /\ k0 < k1 /\ k1 <= Z.of_nat (length pos).

(** The coordinate of a reference location that the assignment looks at
    along an axis: the one that is wrapped on a periodic axis, the plain
    one otherwise. *)
Definition coord (dd : gmx_domdec_t) (ddbox : gmx_ddbox_t) (tcm : matrix)
    (d : axis) (cg_cm : rvec) : Q :=
  if axis_idx d <? dd.(npbcdim) then tric_coord dd ddbox tcm d cg_cm else cg_cm.[d].

(** Every atom of the group is in the array. *)
Definition members_present (pos : list rvec) (k0 k1 : Z) : Prop :=
  0 <= k0 /\ forall j : nat, k0 <= Z.of_nat j < k1 -> is_Some (pos !! j).

(** The broadcasts of row [i] of the matrices of the history, in the
    order of lines 192-197. *)
Definition dfhist_row_events (ext : externals) (nlam i : Z) : list bcast_event :=
  [ {| b_bytes := ext.(sizeof_real) * nlam; b_item := B_accum_p i |};
    {| b_bytes := ext.(sizeof_real) * nlam; b_item := B_accum_m i |};
    {| b_bytes := ext.(sizeof_real) * nlam; b_item := B_accum_p2 i |};
    {| b_bytes := ext.(sizeof_real) * nlam; b_item := B_accum_m2 i |};
    {| b_bytes := ext.(sizeof_real) * nlam; b_item := B_Tij i |};
    {| b_bytes := ext.(sizeof_real) * nlam; b_item := B_Tij_empirical i |} ].

(** The atoms of group [cg], in order. *)
Definition group_atoms (cgs : t_block) (cg : Z) : list Z :=
  seqZ (arr_get cgs.(index) cg) (arr_get cgs.(index) (cg + 1) - arr_get cgs.(index) cg).

(** The atoms of a list of groups, group after group. *)
Definition atoms_of (cgs : t_block) (groups : list Z) : list Z :=
  groups ≫= group_atoms cgs.

(** The atoms of the domain of rank [r] according to the ledger. *)
Definition rank_atoms (cgs : t_block) (a : AtomDistribution) (r : Z) : list Z :=
  atoms_of cgs (atomGroups (arr_get a.(domainGroups) r)).

(** One copy of the loops at lines 88-94, 107-113 and 141-147. *)
Definition copy_step {M} (rd : M -> Z -> rvec) (wr : Z -> rvec -> M -> M)
    (st : M * Z) (globalAtom : Z) : M * Z :=
  (wr (snd st) (copy_rvec (rd (fst st) globalAtom)) (fst st), snd st + 1).

(** The process at index [m] is the master. *)
Definition master_at (procs : list process) (m : Z) : Prop :=
  exists pm, procs !! Z.to_nat m = Some pm /\ DDMASTER (p_dd pm) = true.

(** The groups of the block lie in the position array, one after the
    other, each with at least one atom. *)
Definition block_in (cgs : t_block) (pos : list rvec) : Prop :=
  (forall icg, 0 <= icg < cgs.(nr) ->
     group_in pos (arr_get cgs.(index) icg) (arr_get cgs.(index) (icg + 1))) /\
  (forall i j, 0 <= i -> i < j -> j < cgs.(nr) ->
     arr_get cgs.(index) (i + 1) <= arr_get cgs.(index) j).

(** The reference location of group [icg], formed from the positions
    [pos], lies in the primary range along every periodic axis. *)
Definition settled (dd : gmx_domdec_t) (ddbox : gmx_ddbox_t) (box tcm : matrix)
    (cgs : t_block) (pos : list rvec) (icg : Z) : Prop :=
  forall d, axis_idx d < dd.(npbcdim) ->
    (0 <= coord dd ddbox tcm d
            (group_center pos (arr_get cgs.(index) icg)
               (arr_get cgs.(index) (icg + 1)))
     < box.[d].[d])%Q.

(** The ledger of the master agrees with itself and with the ranks: it
    has an entry per rank, the atom count of every entry is the number of
    atoms of its groups, and every rank holds the count of its entry as
    [nat_home]. *)
Definition ledger_consistent (cgs : t_block) (a : AtomDistribution) (nn : Z)
    (procs : list (gmx_domdec_t * mem)) : Prop :=
  length a.(domainGroups) = Z.to_nat nn /\
  (forall r, 0 <= r < nn ->
     numAtoms (arr_get a.(domainGroups) r)
     = Z.of_nat (length (rank_atoms cgs a r))) /\
  (forall (i : nat) dd h, procs !! i = Some (dd, h) ->
     nat_home dd = numAtoms (arr_get a.(domainGroups) dd.(rank))).

(** What [over_alloc_dd] and the size of [real] are relied on for. *)
Definition externals_ok (ext : externals) : Prop :=
  (forall n, n <= ext.(over_alloc_dd) n) /\ 0 < ext.(sizeof_real).

(** The memory of a rank after the redistribution of a vector: its array
    [lv] starts with the vectors [src] reads for the atoms of its domain, in
    the order of the groups of the ledger. *)
Definition redistributed (cgs : t_block) (a : AtomDistribution) (src : Z -> rvec)
    (lv : loc) (p : gmx_domdec_t * mem) : mem :=
  let atoms := rank_atoms cgs a (fst p).(rank) in
  <[lv := (src <$> atoms) ++ drop (length atoms) (mem_get (snd p) lv)]> (snd p).

(** The messages the master has sent when the loop at lines 75-102 has
    dealt with the ranks below [k]: one to every rank but itself, in rank
    order. *)
Definition expected_sent (cgs : t_block) (a : AtomDistribution) (src : Z -> rvec)
    (m k : Z) : list (Z * list rvec) :=
  (fun r => (r, src <$> rank_atoms cgs a r)) <$> filter (fun r => r <> m) (seqZ 0 k).

(** The atoms of the domains of the ranks below [r], rank after rank. *)
Definition atoms_below (cgs : t_block) (a : AtomDistribution) (r : Z) : list Z :=
  seqZ 0 r ≫= rank_atoms cgs a.

(** What [distributeAtomGroups] leaves on the ranks, in terms of the
    assignment the master computed. *)
Definition homes_of (st : distribution) (m : Z) (dds dds' : list gmx_domdec_t)
    : Prop :=
  Forall2 (fun dd dd' =>
    (rank dd' = rank dd /\ masterrank dd' = masterrank dd) /\
    ncg_home dd' = Z.of_nat (length (arr_get (d_indices st) dd.(rank))) /\
    nat_home dd' = numAtoms (arr_get (d_groups st) dd.(rank)) /\
    (DDMASTER dd = true ->
       numAtoms <$> domainGroups (ma dd') = numAtoms <$> d_groups st))
    dds dds'.

(** ** Further notions for the properties of the code *)

(** The translation of [v] by whole multiples of the three box vectors:
    [n.[d]] times the vector of axis [d]. *)
Definition lattice_shift (box : matrix) (n : ivec) (v : rvec) : rvec :=
  rvec_shift (inject_Z n.[XX])
    (rvec_shift (inject_Z n.[YY])
       (rvec_shift (inject_Z n.[ZZ]) v box.[ZZ]) box.[YY]) box.[XX].






(** ** Example inputs *)

(** A cubic box of side 4, cut in two domains along x. *)
Definition ex_box : matrix := V3 (V3 4 0 0)%Q (V3 0 4 0)%Q (V3 0 0 4)%Q.
Definition ex_tcm : matrix := V3 zero_rvec zero_rvec zero_rvec.
Definition ex_ddbox : gmx_ddbox_t := {| tric_dir := V3 0 0 0 |}.
Definition ex_boundaries : vec3 (list real) := V3 [0; 2; 4]%Q [0; 4]%Q [0; 4]%Q.

Definition ex_ledger : AtomDistribution :=
  {| domainGroups := replicate 2 {| atomGroups := []; numAtoms := 7 |};
     ma_atomGroups := [];
     intBuffer := replicate 4 0;
     rvecBuffer := replicate 4 zero_rvec |}.

(** The decomposition data of rank [r] of the two; rank 0 is the master. *)
Definition ex_dd (r : Z) : gmx_domdec_t :=
  {| nnodes := 2; rank := r; masterrank := 0; nc := V3 2 1 1; npbcdim := 3;
     bScrewPBC := false; ncg_home := 0; nat_home := 0; index_gl := [];
     cgindex := []; ma := ex_ledger |}.

(** Three groups over four atoms: the second group has the atoms 1 and 2. *)
Definition ex_cgs : t_block := {| nr := 3; index := [0; 1; 3; 4] |}.

(** Atom 3 lies one box length beyond the box along x; the atoms 1 and 2
    of the second group lie on either side of the lower face of the box. *)
Definition ex_pos : list rvec :=
  [V3 3 1 1; V3 (-1) 1 3; V3 1 3 1; V3 7 3 3]%Q.

Definition ex_ext : externals :=
  {| efptNR := 7; estX := 0; estV := 1; estCGP := 2;
     c_maxNumRanksUseSendRecvForScatterAndGather := 4;
     over_alloc_dd := fun n => n + 100;
     check_screw_box := fun _ => true;
     sizeof_real := 4 |}.


Definition one_boundaries : vec3 (list real) := V3 [0; 4]%Q [0; 4]%Q [0; 4]%Q.

(** A state without per-atom entries in use: [x] holds the positions,
    [h] is the free-energy history and [nh] the chain length. *)
Definition ex_state (x : list rvec) (h : option df_history_t) (nh fl : Z) : t_state :=
  {| lambda := replicate 7 0%Q; fep_state := 0; veta := 0%Q; vol0 := 0%Q;
     s_box := ex_box; box_rel := ex_box; boxv := ex_box; svir_prev := ex_box;
     fvir_prev := ex_box; dfhist := h; ngtc := 0; nnhpres := 0;
     nhchainlength := nh; nosehoover_xi := []; nosehoover_vxi := [];
     therm_integral := []; nhpres_xi := []; nhpres_vxi := [];
     baros_integral := 0%Q; flags := fl; s_x := x; s_v := []; cg_p := [] |}.

(** A history without lambda states; [e] is the equilibration flag. *)
Definition ex_hist (e : Z) : df_history_t :=
  {| bEquil := e; nlambda := 0; wl_delta := 0%Q; n_at_lam := []; wl_histo := [];
     sum_weights := []; sum_dg := []; sum_minvar := []; sum_variance := [];
     accum_p := []; accum_m := []; accum_p2 := []; accum_m2 := []; Tij := [];
     Tij_empirical := [] |}.

(** A history with two lambda states, all entries [q]. *)
Definition ex_hist2 (q : Q) : df_history_t :=
  {| bEquil := 1; nlambda := 2; wl_delta := q; n_at_lam := [5; 5];
     wl_histo := [q; q]; sum_weights := [q; q]; sum_dg := [q; q];
     sum_minvar := [q; q]; sum_variance := [q; q];
     accum_p := [[q; q]; [q; q]]; accum_m := [[q; q]; [q; q]];
     accum_p2 := [[q; q]; [q; q]]; accum_m2 := [[q; q]; [q; q]];
     Tij := [[q; q]; [q; q]]; Tij_empirical := [[q; q]; [q; q]] |}.

(** The two processes of the example; the local state of rank [r] holds
    the history [h r]. *)
Definition ex_procs (h : Z -> option df_history_t) (nh fl : Z) : list process :=
  [ {| p_dd := ex_dd 0; p_state_local := ex_state [] (h 0) nh fl; p_f := [] |};
    {| p_dd := ex_dd 1; p_state_local := ex_state [] (h 1) nh fl; p_f := [] |} ].

(** The ledger after the assignment of the example: group 1 is in the
    domain of rank 0, the groups 0 and 2 in the one of rank 1. *)
Definition ex_ledger2 : AtomDistribution :=
  {| domainGroups := [ {| atomGroups := [1]; numAtoms := 2 |};
                       {| atomGroups := [0; 2]; numAtoms := 2 |} ];
     ma_atomGroups := [1; 0; 2];
     intBuffer := replicate 4 0;
     rvecBuffer := replicate 4 zero_rvec |}.

Definition ex_dd2 (r : Z) : gmx_domdec_t :=
  {| nnodes := 2; rank := r; masterrank := 0; nc := V3 2 1 1; npbcdim := 3;
     bScrewPBC := false; ncg_home := 0; nat_home := 2; index_gl := [];
     cgindex := []; ma := ex_ledger2 |}.

(** The two ranks with their memories: the master holds the positions at
    [gl], and both hold a local array of two vectors at [lo]. *)
Definition ex_mems : list (gmx_domdec_t * gmap nat (list (vec3 Q))) :=
  [ (ex_dd2 0, <[gl := ex_pos]> {[ lo := replicate 2 zero_rvec ]});
    (ex_dd2 1, {[ lo := replicate 2 zero_rvec ]}) ].

(** A box without length along z. *)
Definition flat_box : matrix := V3 (V3 4 0 0)%Q (V3 0 4 0)%Q (V3 0 0 0)%Q.

(** The positions of the example after the assignment: every group lies
    in the box. *)
Definition in_pos : list rvec :=
  [V3 3 1 1; V3 (-1) 1 3; V3 1 3 1; V3 3 3 3]%Q.

(** A single domain with its ledger. *)
Definition one_ledger : AtomDistribution :=
  {| domainGroups := [ {| atomGroups := []; numAtoms := 0 |} ];
     ma_atomGroups := [];
     intBuffer := replicate 2 0;
     rvecBuffer := replicate 4 zero_rvec |}.

Definition one_dd : gmx_domdec_t :=
  {| nnodes := 1; rank := 0; masterrank := 0; nc := V3 1 1 1; npbcdim := 3;
     bScrewPBC := false; ncg_home := 0; nat_home := 0; index_gl := [];
     cgindex := []; ma := one_ledger |}.



(** ** Arrays and counted loops *)

Section arrays.
Context {A : Type}.
Implicit Types (l : list A) (f : A -> A).

Lemma length_arr_alter f i l : length (arr_alter f i l) = length l.
Proof. unfold arr_alter. destruct (0 <=? i); [apply length_alter | done]. Qed.

Lemma arr_alter_lookup f i l (j : nat) :
  arr_alter f i l !! j = if decide (i = Z.of_nat j) then f <$> l !! j else l !! j.
Proof.
  unfold arr_alter. destruct (Z.leb_spec 0 i) as [Hi|Hi].
  - destruct (decide (i = Z.of_nat j)) as [->|Hne].
    + rewrite Nat2Z.id. apply list_lookup_alter_eq.
    + apply list_lookup_alter_ne. lia.
  - destruct (decide (i = Z.of_nat j)); [lia | done].
Qed.

Lemma for_range_nil {T} k0 k1 (body : Z -> T -> T) st :
  k1 <= k0 -> for_range k0 k1 body st = st.
Proof. intros. unfold for_range. by rewrite seqZ_nil by lia. Qed.

Lemma for_range_snoc {T} k0 k1 (body : Z -> T -> T) st :
  k0 <= k1 ->
  for_range k0 (k1 + 1) body st = body k1 (for_range k0 k1 body st).
Proof.
  intros. unfold for_range.
  replace (k1 + 1 - k0) with ((k1 - k0) + 1) by lia.
  rewrite seqZ_app by lia. rewrite foldl_app.
  replace (k0 + (k1 - k0)) with k1 by lia.
  rewrite (seqZ_cons k1 1), (seqZ_nil (Z.succ k1)) by lia. done.
Qed.

(** Induction over the rounds of a counted loop. *)
Lemma for_range_ind {T} (P : Z -> T -> Prop) k0 k1 (body : Z -> T -> T) st :
  P k0 st ->
  (forall k s, k0 <= k < k1 -> P k s -> P (k + 1) (body k s)) ->
  k0 <= k1 ->
  P k1 (for_range k0 k1 body st).
Proof.
  intros H0 Hstep Hle.
  replace k1 with (k0 + Z.of_nat (Z.to_nat (k1 - k0))) by lia.
  assert (Hn : (Z.to_nat (k1 - k0) <= Z.to_nat (k1 - k0))%nat) by lia.
  revert Hn. generalize (Z.to_nat (k1 - k0)) at 1 3 4 as n.
  induction n as [|n IH]; intros Hn.
  - rewrite Z.add_0_r, for_range_nil by lia. done.
  - replace (k0 + Z.of_nat (S n)) with (k0 + Z.of_nat n + 1) by lia.
    rewrite for_range_snoc by lia. apply Hstep; [lia|]. apply IH. lia.
Qed.

Lemma length_for_range_alter f k0 k1 l :
  length (for_range k0 k1 (fun k => arr_alter f k) l) = length l.
Proof.
  destruct (Z.le_gt_cases k0 k1) as [Hle|Hgt].
  - apply (for_range_ind (fun _ s => length s = length l)); [done| |done].
    intros k s _ Hs. by rewrite length_arr_alter.
  - by rewrite for_range_nil by lia.
Qed.

(** A loop that alters the entries [k0 .. k1-1] alters exactly those. *)
Lemma for_range_alter_lookup f k0 k1 l (j : nat) :
  for_range k0 k1 (fun k => arr_alter f k) l !! j
  = if decide (k0 <= Z.of_nat j < k1) then f <$> l !! j else l !! j.
Proof.
  destruct (Z.le_gt_cases k0 k1) as [Hle|Hgt].
  - pose (P := fun (k : Z) (s : list A) =>
             s !! j = if decide (k0 <= Z.of_nat j < k) then f <$> l !! j else l !! j).
    assert (HP : P k1 (for_range k0 k1 (fun k => arr_alter f k) l)); [|exact HP].
    apply for_range_ind; unfold P; [ | | done].
    + destruct (decide _); [lia | done].
    + intros k s Hk Hs. rewrite arr_alter_lookup, Hs.
      repeat destruct (decide _); try lia; done.
  - rewrite for_range_nil by lia. destruct (decide _); [lia | done].
Qed.
End arrays.

Lemma arr_get_lookup {A} `{Inhabited A} (l : list A) (i : Z) (a : A) :
  0 <= i -> l !! Z.to_nat i = Some a -> arr_get l i = a.
Proof.
  intros Hi Hl. unfold arr_get. destruct (Z.leb_spec 0 i); [|lia].
  by rewrite list_lookup_total_alt, Hl.
Qed.

(** ** The cell search *)

Lemma cell_search_lower n nc_d bnd p ind :
  ind <= cell_search n nc_d bnd p ind.
Proof.
  revert ind. induction n as [|n IH]; intros ind; simpl; [lia|].
  destruct (_ && _); [|lia]. specialize (IH (ind + 1)). lia.
Qed.

Lemma cell_search_upper n nc_d bnd p ind :
  ind < nc_d -> cell_search n nc_d bnd p ind < nc_d.
Proof.
  revert ind. induction n as [|n IH]; intros ind Hlt; simpl; [done|].
  destruct (Z.ltb_spec (ind + 1) nc_d) as [Hlt'|Hge]; simpl; [|done].
  destruct (Qle_bool _ _); [|done]. by apply IH.
Qed.



Lemma cell_index_range nc_d bnd p :
  1 <= nc_d -> 0 <= cell_index nc_d bnd p < nc_d.
Proof.
  intros Hnc. unfold cell_index. split.
  - apply cell_search_lower.
  - apply cell_search_upper. lia.
Qed.

(** ** The grid *)

Lemma dd_index_range (n i : ivec) :
  (forall d, 0 <= i.[d] < n.[d]) ->
  0 <= dd_index n i < n.[XX] * n.[YY] * n.[ZZ].
Proof.
  intros H. pose proof (H XX). pose proof (H YY). pose proof (H ZZ).
  unfold dd_index. destruct n as [nx ny nz], i as [ix iy iz]; simpl in *.
  clear H.
  assert (0 <= ix * ny) by (apply Z.mul_nonneg_nonneg; lia).
  assert (ix * ny + iy <= nx * ny - 1) by nia.
  assert (0 <= (ix * ny + iy) * nz) by (apply Z.mul_nonneg_nonneg; lia).
  split; [lia|].
  assert ((ix * ny + iy) * nz <= (nx * ny - 1) * nz)
    by (apply Z.mul_le_mono_nonneg_r; lia).
  lia.
Qed.



(** The cell written for an axis is the search at the coordinate the
    wrapping left. *)
Lemma assign_axis_inv fuel dd ddbox box tcm cb k0 k1 d g g' :
  assign_axis fuel dd ddbox box tcm cb k0 k1 d g = Some g' ->
  exists w, wrap_axis fuel dd ddbox box tcm k0 k1 d (g_cg_cm g) (g_pos g) = Some w /\
    g_ind g' = vset (g_ind g) d (cell_index dd.(nc).[d] cb.[d] (w_pos_d w)) /\
    g_cg_cm g' = w_cg_cm w /\ g_pos g' = w_pos w.
Proof.
  unfold assign_axis. intros H.
  destruct (wrap_axis _ _ _ _ _ _ _ _ _ _) as [w|] eqn:Ew; simpl in H; [|done].
  injection H as <-. by exists w.
Qed.

Lemma assign_axes_descending_inv fuel dd ddbox box tcm cb k0 k1 g g' :
  assign_axes fuel dd ddbox box tcm cb k0 k1 axes_descending g = Some g' ->
  exists gz gy,
    assign_axis fuel dd ddbox box tcm cb k0 k1 ZZ g = Some gz /\
    assign_axis fuel dd ddbox box tcm cb k0 k1 YY gz = Some gy /\
    assign_axis fuel dd ddbox box tcm cb k0 k1 XX gy = Some g'.
Proof.
  simpl. intros H.
  destruct (assign_axis _ _ _ _ _ _ _ _ ZZ g) as [gz|] eqn:Ez; simpl in H; [|done].
  destruct (assign_axis _ _ _ _ _ _ _ _ YY gz) as [gy|] eqn:Ey; simpl in H; [|done].
  destruct (assign_axis _ _ _ _ _ _ _ _ XX gy) as [gx|] eqn:Ex; simpl in H; [|done].
  injection H as <-. by exists gz, gy.
Qed.

(** Every group lands in a cell of the grid. *)
Lemma place_group_ind_range fuel dd ddbox box tcm cb cgs icg pos g :
  (forall d, 1 <= dd.(nc).[d]) ->
  place_group fuel dd ddbox box tcm cb cgs icg pos = Some g ->
  forall d, 0 <= (g_ind g).[d] < dd.(nc).[d].
Proof.
  intros Hnc H. unfold place_group in H.
  apply assign_axes_descending_inv in H as (gz & gy & Hz & Hy & Hx).
  apply assign_axis_inv in Hz as (wz & _ & Ez & _).
  apply assign_axis_inv in Hy as (wy & _ & Ey & _).
  apply assign_axis_inv in Hx as (wx & _ & Ex & _).
  rewrite Ex, Ey, Ez. simpl.
  intros d. pose proof (Hnc d) as Hd. destruct d; simpl in *; by apply cell_index_range.
Qed.

Lemma place_group_domain fuel dd ddbox box tcm cb cgs icg pos g :
  valid_grid dd ->
  place_group fuel dd ddbox box tcm cb cgs icg pos = Some g ->
  0 <= dd_index dd.(nc) (g_ind g) < dd.(nnodes).
Proof.
  intros [Hnc ->] H. apply dd_index_range.
  eapply place_group_ind_range; eauto.
Qed.

(** ** The tests of the wrapping loops *)

Lemma Qle_bool_false (x y : Q) : Qle_bool x y = false <-> (y < x)%Q.
Proof.
  split.
  - intros E. apply Qnot_le_lt. intros Hle. apply Qle_bool_iff in Hle. congruence.
  - intros Hlt. destruct (Qle_bool x y) eqn:E; [|done].
    apply Qle_bool_iff in E. lra.
Qed.

Lemma inject_Z_succ (n : nat) :
  inject_Z (Z.of_nat (S n)) = (inject_Z (Z.of_nat n) + 1)%Q.
Proof. by rewrite Nat2Z.inj_succ, <- Z.add_1_r, inject_Z_plus. Qed.

Lemma wrap_down_exit fuel box d bScrew k0 k1 w :
  Qle_bool box.[d].[d] (w_pos_d w) = false ->
  wrap_down fuel box d bScrew k0 k1 w = Some w.
Proof. intros E. destruct fuel; cbn [wrap_down]; by rewrite E. Qed.

Lemma wrap_up_exit fuel box d bScrew k0 k1 w :
  Qle_bool 0 (w_pos_d w) = true ->
  wrap_up fuel box d bScrew k0 k1 w = Some w.
Proof. intros E. destruct fuel; cbn [wrap_up]; by rewrite E. Qed.

(** ** Every group goes to one domain *)

Lemma concat_replicate_nil {A} (n : nat) : concat (replicate n (@nil A)) = [].
Proof. induction n; simpl; done. Qed.

Lemma concat_alter_snoc {A} (a : A) (i : nat) (l : list (list A)) :
  (i < length l)%nat ->
  concat (alter (fun x => x ++ [a]) i l) ≡ₚ concat l ++ [a].
Proof.
  revert i. induction l as [|x l IH]; intros i Hi; simpl in *; [lia|].
  destruct i as [|i]; simpl.
  - rewrite <- !app_assoc. apply Permutation_app_head, Permutation_app_comm.
  - change (list_alter ?f i l) with (alter f i l).
    rewrite IH by lia. by rewrite app_assoc.
Qed.

Lemma Zsum_cons (x : Z) (l : list Z) : Zsum (x :: l) = x + Zsum l.
Proof. done. Qed.

Lemma Zsum_app (l k : list Z) : Zsum (l ++ k) = Zsum l + Zsum k.
Proof.
  induction l as [|x l IH]; [done|].
  rewrite <- app_comm_cons, !Zsum_cons, IH. lia.
Qed.

Lemma Zsum_alter_numAtoms (n : Z) (i : nat) (dg : list DomainGroups) :
  (i < length dg)%nat ->
  Zsum (numAtoms <$> alter (add_numAtoms n) i dg) = Zsum (numAtoms <$> dg) + n.
Proof.
  revert i. induction dg as [|g dg IH]; intros i Hi; simpl in Hi; [lia|].
  destruct i as [|i].
  - change (alter (add_numAtoms n) 0%nat (g :: dg)) with (add_numAtoms n g :: dg).
    rewrite !fmap_cons, !Zsum_cons. simpl. lia.
  - change (alter (add_numAtoms n) (S i) (g :: dg))
      with (g :: alter (add_numAtoms n) i dg).
    rewrite !fmap_cons, !Zsum_cons, IH by lia. lia.
Qed.

Lemma Zsum_replicate_0 (n : nat) : Zsum (replicate n 0) = 0.
Proof. induction n; [done|]. unfold Zsum in *. simpl. lia. Qed.

(** After lines 292-296 every count of the ledger is zero. *)
Lemma clear_counts_zero (nn : Z) (dg : list DomainGroups) :
  length dg = Z.to_nat nn ->
  numAtoms <$> clear_counts nn dg = replicate (Z.to_nat nn) 0.
Proof.
  intros Hlen. apply list_eq. intros j.
  rewrite list_lookup_fmap. unfold clear_counts.
  rewrite for_range_alter_lookup.
  destruct (decide (0 <= Z.of_nat j < nn)) as [Hj|Hj].
  - rewrite lookup_replicate_2 by lia.
    destruct (lookup_lt_is_Some_2 dg j) as [g Hg]; [lia|].
    rewrite Hg. done.
  - rewrite (proj1 (lookup_replicate_None _ _ _)) by lia.
    rewrite lookup_ge_None_2 by lia. done.
Qed.

Lemma length_clear_counts (nn : Z) (dg : list DomainGroups) :
  length (clear_counts nn dg) = length dg.
Proof. apply length_for_range_alter. Qed.

Lemma distribute_group_inv fuel dd ddbox box tcm cb cgs icg st st' :
  distribute_group fuel dd ddbox box tcm cb cgs icg st = Some st' ->
  exists g, place_group fuel dd ddbox box tcm cb cgs icg (d_pos st) = Some g /\
    st' = {| d_indices := arr_alter (fun l => l ++ [icg])
                            (dd_index dd.(nc) (g_ind g)) (d_indices st);
             d_pos := g_pos g;
             d_groups := arr_alter (add_numAtoms (group_size cgs icg))
                           (dd_index dd.(nc) (g_ind g)) (d_groups st) |}.
Proof.
  unfold distribute_group. intros H.
  destruct (place_group _ _ _ _ _ _ _ _ _) as [g|] eqn:Eg; simpl in H; [|done].
  injection H as <-. by exists g.
Qed.

(** What the loop over the groups maintains for the lists: their number,
    and that they hold the groups visited, each once. *)
Lemma distribute_groups_indices fuel dd ddbox box tcm cb cgs icgs st st' :
  valid_grid dd ->
  distribute_groups fuel dd ddbox box tcm cb cgs icgs st = Some st' ->
  length (d_indices st) = Z.to_nat dd.(nnodes) ->
  length (d_indices st') = Z.to_nat dd.(nnodes) /\
  concat (d_indices st') ≡ₚ concat (d_indices st) ++ icgs.
Proof.
  intros Hgrid. revert st. induction icgs as [|icg icgs IH]; intros st H Hli.
  - injection H as <-. by rewrite app_nil_r.
  - simpl in H.
    destruct (distribute_group _ _ _ _ _ _ _ _ _) as [st1|] eqn:E1; simpl in H; [|done].
    apply distribute_group_inv in E1 as (g & Hg & ->).
    pose proof (place_group_domain _ _ _ _ _ _ _ _ _ _ Hgrid Hg) as Hdom.
    apply IH in H as (Hli' & Hperm); cbn [d_indices].
    + split; [done|].
      rewrite Hperm. cbn [d_indices]. unfold arr_alter.
      destruct (Z.leb_spec 0 (dd_index (nc dd) (g_ind g))); [|lia].
      rewrite concat_alter_snoc by lia.
      by rewrite <- app_assoc.
    + by rewrite length_arr_alter.
Qed.

(** What the loop over the groups maintains for the counts: their total
    grows by the sizes of the groups visited. *)
Lemma distribute_groups_counts fuel dd ddbox box tcm cb cgs icgs st st' :
  valid_grid dd ->
  distribute_groups fuel dd ddbox box tcm cb cgs icgs st = Some st' ->
  length (d_groups st) = Z.to_nat dd.(nnodes) ->
  length (d_groups st') = Z.to_nat dd.(nnodes) /\
  Zsum (numAtoms <$> d_groups st')
  = Zsum (numAtoms <$> d_groups st) + Zsum (group_size cgs <$> icgs).
Proof.
  intros Hgrid. revert st. induction icgs as [|icg icgs IH]; intros st H Hlg.
  - injection H as <-. change (Zsum (group_size cgs <$> [])) with 0.
    split; [done|lia].
  - simpl in H.
    destruct (distribute_group _ _ _ _ _ _ _ _ _) as [st1|] eqn:E1; simpl in H; [|done].
    apply distribute_group_inv in E1 as (g & Hg & ->).
    pose proof (place_group_domain _ _ _ _ _ _ _ _ _ _ Hgrid Hg) as Hdom.
    apply IH in H as (Hlg' & Hsum); cbn [d_groups].
    + split; [done|].
      rewrite Hsum. cbn [d_groups]. unfold arr_alter.
      destruct (Z.leb_spec 0 (dd_index (nc dd) (g_ind g))); [|lia].
      rewrite Zsum_alter_numAtoms by lia.
      rewrite fmap_cons, Zsum_cons. lia.
    + by rewrite length_arr_alter.
Qed.

(** The group sizes telescope. *)
Lemma Zsum_group_sizes (cgs : t_block) (n : nat) :
  Zsum (group_size cgs <$> seqZ 0 (Z.of_nat n))
  = arr_get cgs.(index) (Z.of_nat n) - arr_get cgs.(index) 0.
Proof.
  induction n as [|n IH].
  - change (Z.of_nat 0) with 0. rewrite seqZ_nil by lia.
    change (Zsum (group_size cgs <$> [])) with 0. lia.
  - rewrite seqZ_S, fmap_app, Zsum_app, IH.
    change (Zsum (group_size cgs <$> [0 + Z.of_nat n]))
      with (group_size cgs (0 + Z.of_nat n) + 0).
    unfold group_size.
    replace (0 + Z.of_nat n + 1) with (Z.of_nat (S n)) by lia.
    replace (0 + Z.of_nat n) with (Z.of_nat n) by lia. lia.
Qed.

(** ** Reads after writes *)

Lemma arr_get_eq {A} `{Inhabited A} (l : list A) (i : Z) :
  0 <= i -> arr_get l i = l !!! Z.to_nat i.
Proof. intros Hi. unfold arr_get. by destruct (Z.leb_spec 0 i); [|lia]. Qed.

Lemma arr_get_arr_set {A} `{Inhabited A} (l : list A) (i j : Z) (a : A) :
  arr_get (arr_set i a l) j
  = if decide (i = j /\ 0 <= i < Z.of_nat (length l)) then a else arr_get l j.
Proof.
  unfold arr_get, arr_set, arr_alter.
  destruct (Z.leb_spec 0 j) as [Hj|Hj].
  - destruct (Z.leb_spec 0 i) as [Hi|Hi].
    + rewrite list_lookup_total_alter.
      destruct (decide (Z.to_nat i = Z.to_nat j /\ (Z.to_nat i < length l)%nat))
        as [[E Hlt]|Hn]; destruct (decide _) as [[E' Hr]|Hn']; try done; lia.
    + destruct (decide _) as [[E' Hr]|Hn']; [lia|done].
  - destruct (decide _) as [[E' Hr]|Hn']; [lia|].
    by destruct (0 <=? i).
Qed.

Lemma length_arr_set {A} (l : list A) (i : Z) (a : A) :
  length (arr_set i a l) = length l.
Proof. apply length_arr_alter. Qed.

Lemma arr_get_take_drop {A} `{Inhabited A} (l : list A) (n off i : Z) :
  0 <= off -> 0 <= i < n ->
  arr_get (take (Z.to_nat n) (drop (Z.to_nat off) l)) i = arr_get l (off + i).
Proof.
  intros Hoff Hi. rewrite !arr_get_eq by lia.
  rewrite !list_lookup_total_alt, lookup_take_lt, lookup_drop by lia.
  by replace (Z.to_nat off + Z.to_nat i)%nat with (Z.to_nat (off + i)) by lia.
Qed.

(** ** Running a step on every rank *)

Lemma on_all_ranks_Done {A B} (f : A -> result B) (g : A -> B) (l : list A) :
  (forall a, a ∈ l -> f a = Done (g a)) ->
  on_all_ranks f l = Done (g <$> l).
Proof.
  induction l as [|a l IH]; intros Hf; [done|].
  cbn [on_all_ranks]. rewrite Hf by left. simpl.
  rewrite IH; [done|]. intros b Hb. apply Hf. by right.
Qed.

Lemma on_all_ranks_inv {A B} (f : A -> result B) (l : list A) (bs : list B) :
  on_all_ranks f l = Done bs -> Forall2 (fun a b => f a = Done b) l bs.
Proof.
  revert bs. induction l as [|a l IH]; intros bs H; simpl in H.
  - injection H as <-. constructor.
  - destruct (f a) as [b| | |] eqn:Ea; simpl in H; try done.
    destruct (on_all_ranks f l) as [bs'| | |] eqn:El; simpl in H; try done.
    injection H as <-. constructor; [done|]. by apply IH.
Qed.

Lemma on_all_ranks_exists {A B} (f : A -> result B) (P : A -> B -> Prop)
    (l : list A) :
  (forall a, a ∈ l -> exists b, f a = Done b /\ P a b) ->
  exists bs, on_all_ranks f l = Done bs /\ Forall2 P l bs.
Proof.
  induction l as [|a l IH]; intros Hf.
  - exists []. split; [done|constructor].
  - destruct (Hf a) as (b & Hb & HP); [left|].
    destruct IH as (bs & Hbs & HPs); [intros a' Ha'; apply Hf; by right|].
    exists (b :: bs). cbn [on_all_ranks]. rewrite Hb. simpl. rewrite Hbs. simpl.
    split; [done|by constructor].
Qed.

(** ** The sizes every rank learns *)

Lemma store_sizes_spec nn gi dg (ib : list Z) :
  2 * nn <= Z.of_nat (length ib) ->
  length (store_sizes nn gi dg ib) = length ib /\
  forall r, 0 <= r < nn ->
    arr_get (store_sizes nn gi dg ib) (r * 2) = Z.of_nat (length (arr_get gi r)) /\
    arr_get (store_sizes nn gi dg ib) (r * 2 + 1) = numAtoms (arr_get dg r).
Proof.
  intros Hlen. unfold store_sizes.
  destruct (Z.le_gt_cases 0 nn) as [Hnn|Hnn];
    [|rewrite for_range_nil by lia; split; [done|lia]].
  pose (P := fun (k : Z) (s : list Z) =>
    length s = length ib /\
    forall r, 0 <= r < k ->
      arr_get s (r * 2) = Z.of_nat (length (arr_get gi r)) /\
      arr_get s (r * 2 + 1) = numAtoms (arr_get dg r)).
  assert (HP : P nn (for_range 0 nn
    (fun rank ib0 =>
       arr_set (rank * 2 + 1) (numAtoms (arr_get dg rank))
         (arr_set (rank * 2) (Z.of_nat (length (arr_get gi rank))) ib0)) ib));
    [|exact HP].
  apply for_range_ind; unfold P; [split; [done|lia]| |done].
  intros k s Hk [Hls Hs]. split; [by rewrite !length_arr_set|].
  intros r Hr. rewrite !arr_get_arr_set, !length_arr_set, Hls.
  destruct (decide (r = k)) as [->|Hne].
  - repeat (destruct (decide _) as [[? ?]|?]); try lia; done.
  - destruct (Hs r ltac:(lia)) as [H0 H1].
    repeat (destruct (decide _) as [[? ?]|?]); try lia; done.
Qed.

Lemma numAtoms_arr_alter (f : DomainGroups -> DomainGroups) (i : Z)
    (dg : list DomainGroups) :
  (forall g, numAtoms (f g) = numAtoms g) ->
  numAtoms <$> arr_alter f i dg = numAtoms <$> dg.
Proof.
  intros Hf. unfold arr_alter. destruct (0 <=? i); [|done].
  apply list_eq. intros j. rewrite !list_lookup_fmap, list_lookup_alter.
  destruct (decide (Z.to_nat i = j)) as [E|]; [|done].
  rewrite E. destruct (dg !! j); simpl; [|done]. by rewrite Hf.
Qed.

(** The layout leaves the counts alone and stores, for every rank, the
    size in bytes of its list of groups. *)
Lemma master_layout_spec dd gi (a : AtomDistribution) :
  2 * dd.(nnodes) <= Z.of_nat (length a.(intBuffer)) ->
  numAtoms <$> domainGroups (master_layout dd gi a) = numAtoms <$> a.(domainGroups) /\
  forall r, 0 <= r < dd.(nnodes) ->
    arr_get (intBuffer (master_layout dd gi a)) r
    = Z.of_nat (length (arr_get gi r)) * sizeof_int.
Proof.
  intros Hlen. unfold master_layout.
  set (l0 := {| l_ma := _; l_groupOffset := 0 |}).
  destruct (Z.le_gt_cases 0 dd.(nnodes)) as [Hnn|Hnn];
    [|rewrite for_range_nil by lia; split; [done|lia]].
  pose (P := fun (k : Z) (l : group_layout) =>
    length (intBuffer (l_ma l)) = length a.(intBuffer) /\
    numAtoms <$> domainGroups (l_ma l) = numAtoms <$> a.(domainGroups) /\
    forall r, 0 <= r < k ->
      arr_get (intBuffer (l_ma l)) r = Z.of_nat (length (arr_get gi r)) * sizeof_int).
  assert (HP : P dd.(nnodes)
                 (for_range 0 dd.(nnodes) (layout_rank dd.(nnodes) gi) l0)).
  { apply for_range_ind; unfold P; [repeat split; [done..|lia]| |done].
    intros k l Hk (Hl & Hn & Hr). unfold layout_rank. cbn [l_ma intBuffer domainGroups].
    repeat split.
    - by rewrite !length_arr_set.
    - rewrite <- Hn. by apply numAtoms_arr_alter.
    - intros r Hrk. rewrite !arr_get_arr_set, !length_arr_set, Hl.
      destruct (decide (r = k)) as [->|Hne].
      + repeat (destruct (decide _) as [[? ?]|?]); try lia; done.
      + rewrite <- (Hr r) by lia.
        repeat (destruct (decide _) as [[? ?]|?]); try lia; done. }
  destruct HP as (_ & Hn & Hr). by split.
Qed.

Lemma master_assign_inv ext fuel dd cgs box ddbox tcm cb pos gi pos' a1 :
  master_assign ext fuel dd cgs box ddbox tcm cb pos = Done (gi, pos', a1) ->
  exists st,
    getAtomGroupDistribution fuel box ddbox tcm cb cgs pos dd = Some st /\
    gi = d_indices st /\ pos' = d_pos st /\
    a1.(domainGroups) = d_groups st /\
    a1.(intBuffer) = store_sizes dd.(nnodes) (d_indices st) (d_groups st)
                       dd.(ma).(intBuffer).
Proof.
  unfold master_assign. intros H.
  destruct (bScrewPBC dd); [destruct (check_screw_box ext box)|]; simpl in H;
    try done;
    (destruct (getAtomGroupDistribution _ _ _ _ _ _ _ _) as [st|] eqn:E;
     simpl in H; [|done]; injection H as <- <- <-; by exists st).
Qed.

(** What a rank holds after [distributeAtomGroups], when its rank is [r]
    and the buffer of the master has room for the sizes of all ranks: the
    number of its groups and the atom count the ledger keeps for it. *)
Lemma receive_home_spec ext cgs (a1 a2 : AtomDistribution) nn
    (gi : list (list Z)) (dg : list DomainGroups) dd :
  0 <= dd.(rank) < nn ->
  2 * nn <= Z.of_nat (length a1.(intBuffer)) ->
  (forall r, 0 <= r < nn ->
     arr_get a1.(intBuffer) (r * 2) = Z.of_nat (length (arr_get gi r)) /\
     arr_get a1.(intBuffer) (r * 2 + 1) = numAtoms (arr_get dg r)) ->
  (forall r, 0 <= r < nn ->
     arr_get a2.(intBuffer) r = Z.of_nat (length (arr_get gi r)) * sizeof_int) ->
  exists dd', receive_home ext cgs a1 a2 nn dd = Done dd' /\
    (rank dd' = rank dd /\ masterrank dd' = masterrank dd) /\
    ncg_home dd' = Z.of_nat (length (arr_get gi dd.(rank))) /\
    nat_home dd' = numAtoms (arr_get dg dd.(rank)) /\
    (DDMASTER dd = true -> ma dd' = a2).
Proof.
  intros Hr Hlen H1 H2. unfold receive_home.
  destruct (H1 _ Hr) as [E0 E1].
  assert (B0 : arr_get (dd_scatter 2 (intBuffer a1) (rank dd)) 0
               = Z.of_nat (length (arr_get gi (rank dd)))).
  { unfold dd_scatter. rewrite arr_get_take_drop by lia.
    by rewrite Z.add_0_r. }
  assert (B1 : arr_get (dd_scatter 2 (intBuffer a1) (rank dd)) 1
               = numAtoms (arr_get dg (rank dd))).
  { unfold dd_scatter. by rewrite arr_get_take_drop by lia. }
  rewrite B0, B1. unfold dd_scatterv. rewrite (H2 _ Hr).
  destruct (Z.leb_spec (Z.of_nat (length (arr_get gi (rank dd))) * sizeof_int)
              (Z.of_nat (length (arr_get gi (rank dd))) * sizeof_int)); [|lia].
  simpl. eexists. split; [done|]. cbn. repeat split; try done.
  by intros ->.
Qed.

(** ** [distributeAtomGroups] on all ranks *)

Lemma master_assign_Done ext fuel dd cgs box ddbox tcm cb pos st :
  screw_accepted ext dd box ->
  getAtomGroupDistribution fuel box ddbox tcm cb cgs pos dd = Some st ->
  master_assign ext fuel dd cgs box ddbox tcm cb pos
  = Done (d_indices st, d_pos st,
          {| domainGroups := d_groups st;
             ma_atomGroups := dd.(ma).(ma_atomGroups);
             intBuffer := store_sizes dd.(nnodes) (d_indices st) (d_groups st)
                            dd.(ma).(intBuffer);
             rvecBuffer := dd.(ma).(rvecBuffer) |}).
Proof.
  intros Hscrew Hst. unfold master_assign, screw_accepted in *.
  destruct (bScrewPBC dd); [rewrite Hscrew by done|]; simpl; by rewrite Hst.
Qed.

Lemma distributeAtomGroups_run ext fuel dds m cgs box ddbox tcm cb pos ddm st :
  dds !! Z.to_nat m = Some ddm ->
  ranks_wf dds m ddm.(nnodes) ->
  ledger_sized ddm ->
  screw_accepted ext ddm box ->
  getAtomGroupDistribution fuel box ddbox tcm cb cgs pos ddm = Some st ->
  exists dds',
    distributeAtomGroups ext fuel dds m cgs box ddbox tcm cb pos
    = Done (dds', d_pos st) /\
    homes_of st m dds dds'.
Proof.
  intros Hm (Hlen & Hm0 & Hranks) [Hdg Hib] Hscrew Hst.
  unfold distributeAtomGroups. rewrite Hm.
  rewrite (master_assign_Done _ _ _ _ _ _ _ _ _ st) by done. simpl.
  set (a1 := {| domainGroups := d_groups st |}).
  set (a2 := master_layout ddm (d_indices st) a1).
  destruct (store_sizes_spec ddm.(nnodes) (d_indices st) (d_groups st)
              ddm.(ma).(intBuffer) Hib) as [Hl1 Hs1].
  destruct (master_layout_spec ddm (d_indices st) a1) as [Hn2 Hs2].
  { cbn [a1 intBuffer]. lia. }
  assert (Hall : forall dd, dd ∈ dds ->
            exists dd', receive_home ext cgs a1 a2 ddm.(nnodes) dd = Done dd' /\
              (rank dd' = rank dd /\ masterrank dd' = masterrank dd) /\
              ncg_home dd' = Z.of_nat (length (arr_get (d_indices st) dd.(rank))) /\
              nat_home dd' = numAtoms (arr_get (d_groups st) dd.(rank)) /\
              (DDMASTER dd = true -> ma dd' = a2)).
  { intros dd [r Hr]%list_elem_of_lookup.
    destruct (Hranks r dd Hr) as (Er & _ & _).
    pose proof (lookup_lt_Some _ _ _ Hr).
    apply receive_home_spec; [lia|cbn [a1 intBuffer]; lia|done|done]. }
  destruct (on_all_ranks_exists (receive_home ext cgs a1 a2 ddm.(nnodes))
              (fun dd dd' =>
                 (rank dd' = rank dd /\ masterrank dd' = masterrank dd) /\
                 ncg_home dd' = Z.of_nat (length (arr_get (d_indices st) dd.(rank))) /\
                 nat_home dd' = numAtoms (arr_get (d_groups st) dd.(rank)) /\
                 (DDMASTER dd = true -> ma dd' = a2)) dds Hall)
    as (dds' & Hrun & Hhomes).
  exists dds'. rewrite Hrun. split; [done|].
  unfold homes_of. eapply Forall2_impl; [exact Hhomes|].
  intros dd dd' (? & ? & ? & Hma). split; [done|]. split; [done|]. split; [done|].
  intros Hmaster. rewrite (Hma Hmaster). exact Hn2.
Qed.

Lemma distributeAtomGroups_inv ext fuel dds m cgs box ddbox tcm cb pos ddm dds' pos' :
  dds !! Z.to_nat m = Some ddm ->
  ranks_wf dds m ddm.(nnodes) ->
  ledger_sized ddm ->
  screw_accepted ext ddm box ->
  distributeAtomGroups ext fuel dds m cgs box ddbox tcm cb pos = Done (dds', pos') ->
  exists st,
    getAtomGroupDistribution fuel box ddbox tcm cb cgs pos ddm = Some st /\
    pos' = d_pos st /\ homes_of st m dds dds'.
Proof.
  intros Hm Hwf Hled Hscrew Hrun.
  assert (exists st, getAtomGroupDistribution fuel box ddbox tcm cb cgs pos ddm
                     = Some st) as [st Hst].
  { unfold distributeAtomGroups in Hrun. rewrite Hm in Hrun.
    destruct (master_assign _ _ _ _ _ _ _ _ _) as [[[gi p1] a1]| | |] eqn:E;
      simpl in Hrun; try done.
    apply master_assign_inv in E as (st & Hst & _). by exists st. }
  destruct (distributeAtomGroups_run ext fuel dds m cgs box ddbox tcm cb pos ddm st)
    as (dds'' & Hrun' & Hhomes); try done.
  rewrite Hrun in Hrun'. injection Hrun' as -> ->. by exists st.
Qed.

Lemma homes_nat_home st m dds dds' nn :
  ranks_wf dds m nn ->
  length (d_groups st) = Z.to_nat nn ->
  homes_of st m dds dds' ->
  nat_home <$> dds' = numAtoms <$> d_groups st.
Proof.
  intros (Hlen & Hm0 & Hranks) Hdg Hhomes. apply list_eq. intros r.
  rewrite !list_lookup_fmap.
  pose proof (Forall2_length _ _ _ Hhomes) as Hlen'.
  destruct (dds' !! r) as [dd'|] eqn:Er.
  - destruct (Forall2_lookup_r _ _ _ _ _ Hhomes Er) as (dd & Hdd & _ & _ & Hnat & _).
    destruct (Hranks r dd Hdd) as (Erank & _).
    pose proof (lookup_lt_Some _ _ _ Hdd).
    destruct (lookup_lt_is_Some_2 (d_groups st) r) as [g Hg]; [lia|].
    rewrite Hg. simpl. rewrite Hnat, Erank.
    rewrite (arr_get_lookup _ _ g); [done|lia|]. by rewrite Nat2Z.id.
  - apply lookup_ge_None_1 in Er.
    rewrite lookup_ge_None_2 by lia. done.
Qed.

(** The counts of the ledger after the assignment add up to the atoms
    the groups hold. *)
Lemma getAtomGroupDistribution_counts fuel box ddbox tcm cb cgs pos dd st :
  valid_grid dd ->
  length dd.(ma).(domainGroups) = Z.to_nat dd.(nnodes) ->
  0 <= cgs.(nr) ->
  getAtomGroupDistribution fuel box ddbox tcm cb cgs pos dd = Some st ->
  length (d_groups st) = Z.to_nat dd.(nnodes) /\
  Zsum (numAtoms <$> d_groups st)
  = arr_get cgs.(index) cgs.(nr) - arr_get cgs.(index) 0.
Proof.
  intros Hgrid Hlen Hnr H. unfold getAtomGroupDistribution in H.
  apply distribute_groups_counts in H as [Hl Hsum]; [|done|].
  - split; [done|]. rewrite Hsum. cbn [d_groups].
    rewrite clear_counts_zero, Zsum_replicate_0 by done.
    rewrite <- (Z2Nat.id cgs.(nr)) at 1 by done.
    rewrite Zsum_group_sizes, Z2Nat.id by done. lia.
  - cbn [d_groups]. by rewrite length_clear_counts.
Qed.

(** ** The cell of a position *)


(** ** What the wrapping loops do *)

Lemma iter_S {A} (f : A -> A) (n : nat) (x : A) :
  Nat.iter (S n) f x = f (Nat.iter n f x).
Proof. done. Qed.

Lemma iter_shift_r {A} (f : A -> A) (n : nat) (x : A) :
  Nat.iter n f (f x) = Nat.iter (S n) f x.
Proof. induction n as [|n IH]; [done|]. simpl in *. by rewrite IH. Qed.

(** The first loop runs its body some number of times, as long as the
    coordinate is at or above the box length. *)
Lemma wrap_down_runs fuel box d bScrew k0 k1 w w' :
  wrap_down fuel box d bScrew k0 k1 w = Some w' ->
  exists n : nat,
    w' = Nat.iter n (wrap_down_body box d bScrew k0 k1) w /\
    (w_pos_d w' < box.[d].[d])%Q /\
    (n <> O -> (0 <= w_pos_d w')%Q).
Proof.
  revert w. induction fuel as [|fuel IH]; intros w H; cbn [wrap_down] in H.
  - destruct (Qle_bool _ _) eqn:E; [done|]. injection H as <-.
    exists O. repeat split; [by apply Qle_bool_false|done].
  - destruct (Qle_bool _ _) eqn:E.
    + apply IH in H as (n & -> & Hlt & Hge). exists (S n).
      rewrite iter_shift_r in Hlt, Hge |- *. apply Qle_bool_iff in E.
      split; [done|]. split; [done|]. intros _.
      destruct n as [|n]; [|by apply Hge].
      cbn [Nat.iter nat_rect w_pos_d wrap_down_body]. lra.
    + injection H as <-. exists O. repeat split; [by apply Qle_bool_false|done].
Qed.

(** The second loop runs its body some number of times, as long as the
    coordinate is negative. *)
Lemma wrap_up_runs fuel box d bScrew k0 k1 w w' :
  wrap_up fuel box d bScrew k0 k1 w = Some w' ->
  exists n : nat,
    w' = Nat.iter n (wrap_up_body box d bScrew k0 k1) w /\
    (0 <= w_pos_d w')%Q /\
    (n <> O -> (w_pos_d w < 0)%Q).
Proof.
  revert w. induction fuel as [|fuel IH]; intros w H; cbn [wrap_up] in H.
  - destruct (Qle_bool _ _) eqn:E; [|done]. injection H as <-.
    exists O. repeat split; [by apply Qle_bool_iff|done].
  - destruct (Qle_bool _ _) eqn:E; cbn [negb] in H.
    + injection H as <-. exists O. repeat split; [by apply Qle_bool_iff|done].
    + apply IH in H as (n & -> & Hge & _). exists (S n).
      rewrite iter_shift_r in Hge |- *. apply Qle_bool_false in E.
      split; [done|]. split; [done|]. by intros _.
Qed.

(** The parts of the state after [n] rounds of a wrapping loop. *)
Lemma wrap_body_iter_parts (op : rvec -> rvec -> rvec) (step : Q -> Q)
    (body : wrap_state -> wrap_state) box d bScrew k0 k1 (n : nat) w :
  (forall w, body w =
     {| w_pos_d := step (w_pos_d w);
        w_cg_cm := shift_vec op box d bScrew (w_cg_cm w);
        w_pos := for_range k0 k1
                   (fun k => arr_alter (shift_vec op box d bScrew) k) (w_pos w) |}) ->
  w_pos_d (Nat.iter n body w) = Nat.iter n step (w_pos_d w) /\
  w_cg_cm (Nat.iter n body w) = Nat.iter n (shift_vec op box d bScrew) (w_cg_cm w) /\
  forall j : nat,
    w_pos (Nat.iter n body w) !! j
    = if decide (k0 <= Z.of_nat j < k1)
      then Nat.iter n (shift_vec op box d bScrew) <$> w_pos w !! j
      else w_pos w !! j.
Proof.
  intros Hbody. induction n as [|n (IHd & IHc & IHp)].
  - repeat split. intros j. simpl. destruct (decide _); [|done].
    by destruct (w_pos w !! j).
  - rewrite !iter_S, Hbody. cbn [w_pos_d w_cg_cm w_pos].
    rewrite IHd, IHc. repeat split.
    intros j. rewrite for_range_alter_lookup, IHp.
    destruct (decide _); [|done]. by destruct (w_pos w !! j).
Qed.

Lemma iter_minus (b : Q) (n : nat) (p : Q) :
  (Nat.iter n (fun q => q - b) p == p - inject_Z (Z.of_nat n) * b)%Q.
Proof.
  induction n as [|n IH].
  - unfold Nat.iter. cbn [nat_rect]. change (inject_Z (Z.of_nat 0)) with 0%Q. lra.
  - rewrite iter_S, IH, inject_Z_succ. lra.
Qed.

Lemma iter_plus (b : Q) (n : nat) (p : Q) :
  (Nat.iter n (fun q => q + b) p == p + inject_Z (Z.of_nat n) * b)%Q.
Proof.
  induction n as [|n IH].
  - unfold Nat.iter. cbn [nat_rect]. change (inject_Z (Z.of_nat 0)) with 0%Q. lra.
  - rewrite iter_S, IH, inject_Z_succ. lra.
Qed.

(** What [wrap_axis] does along a periodic axis: it shifts the reference
    location and the atoms of the group, all alike, by the box vector, a
    number of times down or a number of times up, and leaves the
    coordinate in the primary range. *)
Lemma wrap_axis_periodic fuel dd ddbox box tcm k0 k1 d cg_cm pos w :
  axis_idx d < dd.(npbcdim) ->
  wrap_axis fuel dd ddbox box tcm k0 k1 d cg_cm pos = Some w ->
  (0 <= w_pos_d w)%Q /\
  exists (n : nat) (op : rvec -> rvec -> rvec) (sign : Q),
    (op = rvec_dec /\ sign = (-1)%Q \/ op = rvec_inc /\ sign = 1%Q) /\
    (sign = (-1)%Q -> (w_pos_d w < box.[d].[d])%Q) /\
    (w_pos_d w == tric_coord dd ddbox tcm d cg_cm
                  + sign * inject_Z (Z.of_nat n) * box.[d].[d])%Q /\
    w_cg_cm w
    = Nat.iter n (shift_vec op box d (dd.(bScrewPBC) && axis_eqb d XX)) cg_cm /\
    forall j : nat,
      w_pos w !! j
      = if decide (k0 <= Z.of_nat j < k1)
        then Nat.iter n (shift_vec op box d (dd.(bScrewPBC) && axis_eqb d XX))
               <$> pos !! j
        else pos !! j.
Proof.
  intros Hd H. unfold wrap_axis in H.
  destruct (Z.ltb_spec (axis_idx d) dd.(npbcdim)); [|lia].
  set (bScrew := dd.(bScrewPBC) && axis_eqb d XX) in *.
  set (w0 := {| w_pos_d := tric_coord dd ddbox tcm d cg_cm |}) in *.
  destruct (wrap_down fuel box d bScrew k0 k1 w0) as [w1|] eqn:E1; simpl in H; [|done].
  apply wrap_down_runs in E1 as (n1 & -> & Hlt1 & Hge1).
  apply wrap_up_runs in H as (n2 & -> & Hge2 & Hlt2).
  destruct n2 as [|n2].
  - cbn [Nat.iter nat_rect] in *. split; [done|].
    destruct (wrap_body_iter_parts rvec_dec (fun q => q - box.[d].[d])%Q
                (wrap_down_body box d bScrew k0 k1) box d bScrew k0 k1 n1 w0)
      as (Hd' & Hc' & Hp'); [done|].
    exists n1, rvec_dec, (-1)%Q. split; [by left|]. repeat split; try done.
    rewrite Hd', iter_minus. cbn [w0 w_pos_d]. lra.
  - destruct n1 as [|n1].
    + change (Nat.iter 0 (wrap_down_body box d bScrew k0 k1) w0) with w0 in *.
      split; [done|].
      destruct (wrap_body_iter_parts rvec_inc (fun q => q + box.[d].[d])%Q
                  (wrap_up_body box d bScrew k0 k1) box d bScrew k0 k1 (S n2) w0)
        as (Hd' & Hc' & Hp'); [done|].
      exists (S n2), rvec_inc, 1%Q. split; [by right|]. repeat split; try done.
      rewrite Hd', iter_plus. cbn [w0 w_pos_d]. lra.
    + exfalso. specialize (Hge1 ltac:(done)).
      pose proof (Hlt2 ltac:(done)) as Hneg. lra.
Qed.

(** ** Vectors up to equality of rationals *)


Lemma rvec_eq_trans a b c : rvec_eq a b -> rvec_eq b c -> rvec_eq a c.
Proof.
  intros (H1 & H2 & H3) (H4 & H5 & H6).
  repeat split; [by rewrite H1|by rewrite H2|by rewrite H3].
Qed.

Lemma rvec_shift_proper s a a' b :
  rvec_eq a a' -> rvec_eq (rvec_shift s a b) (rvec_shift s a' b).
Proof.
  intros (H1 & H2 & H3). unfold rvec_shift.
  repeat split; cbn [c_xx c_yy c_zz]; [by rewrite H1|by rewrite H2|by rewrite H3].
Qed.

(** [n] shifts by the box vector make one translation. *)
Lemma iter_shift_vec (op : rvec -> rvec -> rvec) (sign : Q) box d (n : nat) v :
  (op = rvec_dec /\ sign = (-1)%Q \/ op = rvec_inc /\ sign = 1%Q) ->
  rvec_eq (Nat.iter n (shift_vec op box d false) v)
          (rvec_shift (sign * inject_Z (Z.of_nat n)) v box.[d]).
Proof.
  intros Hop. induction n as [|n (H1 & H2 & H3)].
  - unfold Nat.iter, rvec_shift. cbn [nat_rect].
    change (inject_Z (Z.of_nat 0)) with 0%Q.
    repeat split; cbn [c_xx c_yy c_zz]; ring.
  - rewrite iter_S, inject_Z_succ. unfold shift_vec, rvec_shift in *.
    cbn [c_xx c_yy c_zz] in *.
    destruct Hop as [[-> ->]|[-> ->]]; unfold rvec_dec, rvec_inc;
      repeat split; cbn [c_xx c_yy c_zz];
      first [rewrite H1|rewrite H2|rewrite H3]; ring.
Qed.

(** ** The coordinate the assignment looks at *)

(** A coordinate in the primary range is not wrapped. *)
Lemma wrap_axis_in_range fuel dd ddbox box tcm k0 k1 d cg_cm pos :
  (axis_idx d < dd.(npbcdim) ->
   (0 <= coord dd ddbox tcm d cg_cm < box.[d].[d])%Q) ->
  wrap_axis fuel dd ddbox box tcm k0 k1 d cg_cm pos
  = Some {| w_pos_d := coord dd ddbox tcm d cg_cm; w_cg_cm := cg_cm; w_pos := pos |}.
Proof.
  intros Hrange. unfold wrap_axis, coord in *.
  destruct (Z.ltb_spec (axis_idx d) dd.(npbcdim)) as [Hd|Hd]; [|done].
  specialize (Hrange Hd).
  rewrite wrap_down_exit by (cbn [w_pos_d]; apply Qle_bool_false; lra).
  simpl. apply wrap_up_exit. cbn [w_pos_d]. apply Qle_bool_iff. lra.
Qed.

(** A group whose periodic coordinates lie in the primary range is left
    where it is, whatever the fuel. *)
Lemma place_group_fixed fuel dd ddbox box tcm cb cgs icg pos :
  let cg := group_center pos (arr_get cgs.(index) icg)
              (arr_get cgs.(index) (icg + 1)) in
  (forall d, axis_idx d < dd.(npbcdim) ->
     (0 <= coord dd ddbox tcm d cg < box.[d].[d])%Q) ->
  place_group fuel dd ddbox box tcm cb cgs icg pos
  = Some {| g_ind := V3 (cell_index dd.(nc).[XX] cb.[XX] (coord dd ddbox tcm XX cg))
                        (cell_index dd.(nc).[YY] cb.[YY] (coord dd ddbox tcm YY cg))
                        (cell_index dd.(nc).[ZZ] cb.[ZZ] (coord dd ddbox tcm ZZ cg));
            g_cg_cm := cg; g_pos := pos |}.
Proof.
  intros cg Hrange. unfold place_group. fold cg.
  unfold axes_descending, assign_axes, assign_axis. cbn [g_cg_cm g_pos g_ind].
  rewrite (wrap_axis_in_range _ _ _ _ _ _ _ ZZ _ _ (Hrange ZZ)). simpl.
  rewrite (wrap_axis_in_range _ _ _ _ _ _ _ YY _ _ (Hrange YY)). simpl.
  rewrite (wrap_axis_in_range _ _ _ _ _ _ _ XX _ _ (Hrange XX)). simpl.
  done.
Qed.

(** ** The broadcasts of the free-energy history *)

Lemma dfhist_rows_trace ext nlam r d (n : Z) :
  0 <= n ->
  snd (for_range 0 n (bcast_dfhist_row ext nlam r) (d, []))
  = seqZ 0 n ≫= dfhist_row_events ext nlam.
Proof.
  intros Hn.
  pose (P := fun (k : Z) (st : df_history_t * list bcast_event) =>
               snd st = seqZ 0 k ≫= dfhist_row_events ext nlam).
  assert (HP : P n (for_range 0 n (bcast_dfhist_row ext nlam r) (d, [])));
    [|exact HP].
  apply for_range_ind; unfold P; [by rewrite seqZ_nil| |done].
  intros k st Hk Hst. cbn [bcast_dfhist_row snd]. rewrite Hst.
  replace (k + 1) with (Z.of_nat (S (Z.to_nat k))) by lia.
  rewrite seqZ_S, bind_app, Z2Nat.id, Z.add_0_l by lia. f_equal.
Qed.

Lemma dfhist_rows_keep ext nlam r d (n : Z) :
  let d' := fst (for_range 0 n (bcast_dfhist_row ext nlam r) (d, [])) in
  bEquil d' = bEquil d /\ nlambda d' = nlambda d /\ wl_delta d' = wl_delta d /\
  n_at_lam d' = n_at_lam d.
Proof.
  destruct (Z.le_gt_cases 0 n) as [Hn|Hn]; [|by rewrite for_range_nil by lia].
  pose (P := fun (k : Z) (st : df_history_t * list bcast_event) =>
               bEquil (fst st) = bEquil d /\ nlambda (fst st) = nlambda d /\
               wl_delta (fst st) = wl_delta d /\ n_at_lam (fst st) = n_at_lam d).
  assert (HP : P n (for_range 0 n (bcast_dfhist_row ext nlam r) (d, [])));
    [|exact HP].
  apply for_range_ind; unfold P; [done| |done].
  intros k st Hk Hst. by cbn [bcast_dfhist_row fst bEquil nlambda wl_delta n_at_lam].
Qed.

(** ** The copy loops *)

Lemma foldl_bind {A B C} (f : A -> C -> A) (g : B -> list C) (a : A) (l : list B) :
  foldl (fun st b => foldl f st (g b)) a l = foldl f a (l ≫= g).
Proof.
  revert a. induction l as [|b l IH]; intros a; [done|].
  rewrite bind_cons, foldl_app. simpl. apply IH.
Qed.

(** The nested loops copy the atoms of the groups one after the other. *)
Lemma copy_groups_flat {M} (rd : M -> Z -> rvec) (wr : Z -> rvec -> M -> M)
    cgs groups (m : M) la :
  copy_groups rd wr cgs groups m la
  = foldl (copy_step rd wr) (m, la) (atoms_of cgs groups).
Proof.
  unfold copy_groups, atoms_of, for_range.
  exact (foldl_bind (copy_step rd wr) (group_atoms cgs) (m, la) groups).
Qed.

(** A property of the memory that every write keeps holds at the end. *)
Lemma copy_flat_invariant {M} (P : M -> Prop) (rd : M -> Z -> rvec)
    (wr : Z -> rvec -> M -> M) atoms (st : M * Z) :
  (forall i x m, P m -> P (wr i x m)) ->
  P (fst st) -> P (fst (foldl (copy_step rd wr) st atoms)).
Proof.
  intros Hwr. revert st. induction atoms as [|a atoms IH]; intros st Hm; [done|].
  cbn [foldl]. apply IH. by apply Hwr.
Qed.

Lemma copy_flat_count {M} (rd : M -> Z -> rvec) (wr : Z -> rvec -> M -> M)
    atoms (st : M * Z) :
  snd (foldl (copy_step rd wr) st atoms) = snd st + Z.of_nat (length atoms).
Proof.
  revert st. induction atoms as [|a atoms IH]; intros st; cbn [foldl length]; [lia|].
  rewrite IH. cbn [copy_step snd]. lia.
Qed.

(** Two memories that read alike and are written alike stay related. *)
Lemma copy_flat_sim {M N} (R : M -> N -> Prop)
    (rd : M -> Z -> rvec) (wr : Z -> rvec -> M -> M)
    (rd' : N -> Z -> rvec) (wr' : Z -> rvec -> N -> N) atoms
    (st : M * Z) (st' : N * Z) :
  (forall m n i, R m n -> rd m i = rd' n i) ->
  (forall m n i x, R m n -> R (wr i x m) (wr' i x n)) ->
  R (fst st) (fst st') -> snd st = snd st' ->
  R (fst (foldl (copy_step rd wr) st atoms))
    (fst (foldl (copy_step rd' wr') st' atoms)).
Proof.
  intros Hrd Hwr. revert st st'.
  induction atoms as [|a atoms IH]; intros st st' HR Hla; [done|].
  cbn [foldl]. apply IH; cbn [copy_step fst snd]; [|lia].
  rewrite (Hrd _ _ a HR), Hla. by apply Hwr.
Qed.

(** Copying from a source that is not written to fills a stretch of the
    destination with the vectors of the atoms, in order. *)
Lemma copy_flat_list (g : Z -> rvec) atoms (st : list rvec * Z) :
  0 <= snd st ->
  (Z.to_nat (snd st) + length atoms <= length (fst st))%nat ->
  fst (foldl (copy_step (fun _ i => g i) (fun i x b => arr_set i x b)) st atoms)
  = take (Z.to_nat (snd st)) (fst st) ++ (g <$> atoms)
    ++ drop (Z.to_nat (snd st) + length atoms) (fst st).
Proof.
  revert st. induction atoms as [|a atoms IH]; intros [buf la] Hla Hlen;
    cbn [fst snd] in *.
  - simpl. rewrite Nat.add_0_r. by rewrite take_drop.
  - cbn [foldl length] in *.
    rewrite IH; cbn [copy_step fst snd copy_rvec];
      [|lia|rewrite length_arr_set; lia].
    unfold copy_rvec, arr_set, arr_alter. destruct (Z.leb_spec 0 la); [|lia].
    rewrite <- list_insert_alter.
    replace (Z.to_nat (la + 1)) with (S (Z.to_nat la)) by lia.
    rewrite drop_insert_lt by lia.
    rewrite (insert_take_drop buf) by lia.
    assert (Ht : take (S (Z.to_nat la))
                   (take (Z.to_nat la) buf ++ g a :: drop (S (Z.to_nat la)) buf)
                 = take (Z.to_nat la) buf ++ [g a]).
    { rewrite take_app, length_take.
      rewrite take_take.
      replace (S (Z.to_nat la) `min` Z.to_nat la)%nat with (Z.to_nat la) by lia.
      replace (S (Z.to_nat la) - Z.to_nat la `min` length buf)%nat with 1%nat by lia.
      done. }
    rewrite Ht, <- app_assoc, fmap_cons.
    replace (S (Z.to_nat la) + length atoms)%nat
      with (Z.to_nat la + S (length atoms))%nat by lia.
    done.
Qed.

(** ** Copies between arrays of the memory *)

Lemma mem_get_insert_ne (h : mem) (p q : loc) l :
  p <> q -> mem_get (<[p := l]> h) q = mem_get h q.
Proof. intros Hpq. unfold mem_get. by rewrite lookup_insert_ne. Qed.

(** The copy into [lv] leaves every other array of the memory as it is. *)
Lemma copy_into_frame cgs groups (v lv p : loc) (h : mem) la :
  p <> lv ->
  fst (copy_groups (fun h i => mem_read h v i) (fun i x h => mem_write lv i x h)
         cgs groups h la) !! p
  = h !! p.
Proof.
  intros Hp. rewrite copy_groups_flat.
  apply (copy_flat_invariant (fun h' : mem => h' !! p = h !! p)); [|done].
  intros i x m Hm. unfold mem_write. by rewrite lookup_alter_ne.
Qed.

(** When [v] and [lv] are two arrays, the copy into [lv] is the copy into
    a buffer that starts as [lv], stored back. *)
Lemma copy_into_other cgs groups (v lv : loc) (h : mem) (l0 : list rvec) la :
  v <> lv ->
  h !! lv = Some l0 ->
  fst (copy_groups (fun h i => mem_read h v i) (fun i x h => mem_write lv i x h)
         cgs groups h la)
  = <[lv := fst (copy_groups (fun _ i => mem_read h v i) (fun i x b => arr_set i x b)
                   cgs groups l0 la)]> h.
Proof.
  intros Hv Hlv. rewrite !copy_groups_flat.
  apply (copy_flat_sim (fun (h' : mem) (l : list rvec) => h' = <[lv := l]> h)).
  - intros m n i ->. unfold mem_read. by rewrite mem_get_insert_ne.
  - intros m n i x ->. unfold mem_write. by rewrite alter_insert_eq.
  - cbn [fst]. by rewrite insert_id.
  - done.
Qed.

(** ** What the redistribution of a vector leaves untouched *)

Lemma result_bind_Done {A B} (r : result A) (f : A -> result B) (b : B) :
  r ≫= f = Done b -> exists a, r = Done a /\ f a = Done b.
Proof. destruct r as [a| | |]; try done. intros H. by exists a. Qed.


Lemma sendrecv_frame ext dd cgs (v lv p : loc) incoming (h : mem) sent h' :
  p <> lv ->
  dd_distribute_vec_sendrecv ext dd cgs v lv incoming h = Done (sent, h') ->
  h' !! p = h !! p.
Proof.
  intros Hp H. unfold dd_distribute_vec_sendrecv in H.
  destruct (DDMASTER dd).
  - destruct (for_range_result _ _ _ _) as [s| | |]; simpl in H; try done.
    destruct (copy_groups _ _ _ _ _ _) as [h1 la] eqn:E.
    injection H as _ <-.
    pose proof (copy_into_frame cgs
                  (atomGroups (arr_get dd.(ma).(domainGroups) dd.(masterrank)))
                  v lv p h 0 Hp) as Hf.
    by rewrite E in Hf.
  - destruct (MPI_Recv _ _ _ _) as [l| | |]; simpl in H; try done.
    injection H as _ <-. by rewrite lookup_insert_ne.
Qed.

Lemma scatterv_frame ext dd cgs (v lv p : loc) root (h h' : mem) :
  p <> lv ->
  dd_distribute_vec_scatterv ext dd cgs v lv root h = Done h' ->
  h' !! p = h !! p.
Proof.
  intros Hp H. unfold dd_distribute_vec_scatterv in H.
  destruct (dd_scatterv _ _ _ _ _ _ _) as [l| | |]; simpl in H; try done.
  injection H as <-. by rewrite lookup_insert_ne.
Qed.

Lemma on_all_ranks_lookup {A B} (f : A -> result B) (l : list A) (bs : list B)
    (i : nat) (a : A) :
  on_all_ranks f l = Done bs -> l !! i = Some a ->
  exists b, bs !! i = Some b /\ f a = Done b.
Proof.
  intros H Ha. apply on_all_ranks_inv in H.
  destruct (Forall2_lookup_l _ _ _ _ _ H Ha) as (b & Hb & Hf). by exists b.
Qed.

Lemma on_all_ranks_length {A B} (f : A -> result B) (l : list A) (bs : list B) :
  on_all_ranks f l = Done bs -> length bs = length l.
Proof. intros H. apply on_all_ranks_inv in H. symmetry. by eapply Forall2_length. Qed.

(** Whatever the strategy, the memory of a rank keeps every array but
    [lv]. *)
Lemma dd_distribute_vec_all_frame ext nn procs m cgs (v lv p : loc) hs
    (i : nat) dd (h : mem) :
  p <> lv ->
  dd_distribute_vec_all ext nn procs m cgs v lv = Done hs ->
  procs !! i = Some (dd, h) ->
  exists h', hs !! i = Some h' /\
    (DDMASTER dd = false \/ i = Z.to_nat m -> h' !! p = h !! p).
Proof.
  intros Hp H Hi. unfold dd_distribute_vec_all in H.
  destruct (use_sendrecv ext nn).
  - unfold sendrecv_all in H.
    destruct (procs !! Z.to_nat m) as [[ddm hm]|] eqn:Em; [|done].
    destruct (dd_distribute_vec_sendrecv ext ddm cgs v lv [] hm)
      as [[sent hm']| | |] eqn:Es; simpl in H; try done.
    destruct (on_all_ranks_lookup _ _ _ _ _ H Hi) as (h' & Hh' & Hf).
    exists h'. split; [done|]. intros Hcase. cbn [fst snd] in Hf.
    destruct (DDMASTER dd) eqn:Ed.
    + destruct Hcase as [Hf'| -> ]; [done|].
      injection Hf as <-. rewrite Em in Hi. injection Hi as -> ->.
      by eapply sendrecv_frame.
    + destruct (message_for sent (rank dd)) as [msg|]; [|done].
      destruct (dd_distribute_vec_sendrecv ext dd cgs v lv msg h)
        as [[s1 h1]| | |] eqn:E1; simpl in Hf; try done.
      injection Hf as <-. by eapply sendrecv_frame.
  - unfold scatterv_all in H.
    destruct (procs !! Z.to_nat m) as [[ddm hm]|] eqn:Em; [|done].
    destruct (on_all_ranks_lookup _ _ _ _ _ H Hi) as (h' & Hh' & Hf).
    exists h'. split; [done|]. intros _. by eapply scatterv_frame.
Qed.

Lemma entry_set_get e s : entry_set e (entry_get e s) s = s.
Proof. by destruct s, e. Qed.

Lemma gl_ne_lo : gl <> lo.
Proof. done. Qed.

(** A block of lines 267-281 leaves the global state as it is and keeps
    the decomposition data of every process. *)
Lemma distribute_entry_frame ext m cgs e state procs state' procs' :
  master_at procs m ->
  distribute_entry ext m cgs e (state, procs) = Done (state', procs') ->
  state' = state /\ p_dd <$> procs' = p_dd <$> procs.
Proof.
  intros (pm & Hpm & Hmaster) H. unfold distribute_entry in H.
  destruct (forallb _ procs).
  - rewrite Hpm in H.
    destruct (dd_distribute_vec_all _ _ _ _ _ _ _) as [hs| | |] eqn:E;
      simpl in H; try done.
    injection H as <- <-.
    assert (Hlen : length hs = length procs).
    { unfold dd_distribute_vec_all, sendrecv_all, scatterv_all in E.
      rewrite list_lookup_fmap, Hpm in E. cbn [fmap option_fmap option_map] in E.
      destruct (use_sendrecv _ _).
      - destruct (dd_distribute_vec_sendrecv _ _ _ _ _ _ _) as [[? ?]| | |];
          simpl in E; try done.
        apply on_all_ranks_length in E. by rewrite length_fmap in E.
      - apply on_all_ranks_length in E. by rewrite length_fmap in E. }
    split.
    + destruct (dd_distribute_vec_all_frame ext _ _ m cgs gl lo gl hs (Z.to_nat m)
                  (p_dd pm) (entry_mem e state pm) gl_ne_lo E)
        as (h' & Hh' & Hframe).
      { by rewrite list_lookup_fmap, Hpm. }
      rewrite Hh'. unfold mem_get. cbn [from_option id].
      rewrite Hframe by (by right).
      unfold entry_mem. rewrite Hmaster, lookup_insert_eq. cbn [from_option id].
      apply entry_set_get.
    + apply list_eq. intros i. rewrite !list_lookup_fmap, lookup_zip_with.
      destruct (procs !! i) as [p|] eqn:Ep; [|done]. cbn.
      destruct (lookup_lt_is_Some_2 hs i) as [h Hh].
      { rewrite Hlen. by eapply lookup_lt_Some. }
      by rewrite Hh.
  - destruct (forallb _ procs); [|done]. by injection H as <- <-.
Qed.

Lemma master_at_same_dd procs procs' m :
  p_dd <$> procs' = p_dd <$> procs -> master_at procs m -> master_at procs' m.
Proof.
  intros Hdd (pm & Hpm & Hmaster).
  assert (Hl : (p_dd <$> procs') !! Z.to_nat m = Some (p_dd pm)).
  { by rewrite Hdd, list_lookup_fmap, Hpm. }
  rewrite list_lookup_fmap in Hl.
  destruct (procs' !! Z.to_nat m) as [pm'|] eqn:E; [|done].
  injection Hl as Hl. exists pm'. by rewrite Hl.
Qed.

(** [dd_distribute_state] leaves the global state as it is. *)
Lemma dd_distribute_state_frame ext state procs m cgs state' procs' :
  master_at procs m ->
  dd_distribute_state ext state procs m cgs = Done (state', procs') ->
  state' = state /\ p_dd <$> procs' = p_dd <$> procs.
Proof.
  intros Hm H. unfold dd_distribute_state in H.
  destruct (procs !! Z.to_nat m) as [pm|] eqn:Epm; [|done].
  apply result_bind_Done in H as (root & _ & H).
  apply result_bind_Done in H as (procs1 & E1 & H).
  apply result_bind_Done in H as ([s1 p1] & Ex & H).
  apply result_bind_Done in H as ([s2 p2] & Ev & H).
  assert (Hdd1 : p_dd <$> procs1 = p_dd <$> procs).
  { apply on_all_ranks_inv in E1. clear -E1.
    induction E1 as [|p p1 l l1 Hp _ IH]; [done|].
    rewrite !fmap_cons, IH. f_equal.
    apply result_bind_Done in Hp as (r & _ & Hp). by injection Hp as <-. }
  apply distribute_entry_frame in Ex as [-> Hd1]; [|by eapply master_at_same_dd].
  apply distribute_entry_frame in Ev as [-> Hd2];
    [|eapply master_at_same_dd; [|exact Hm]; congruence].
  apply distribute_entry_frame in H as [-> Hd3];
    [|eapply master_at_same_dd; [|exact Hm]; congruence].
  split; [done|]. congruence.
Qed.

(** ** The positions after the assignment *)

Lemma length_eq_lookup {A} (l l' : list A) :
  (forall j, is_Some (l !! j) <-> is_Some (l' !! j)) -> length l = length l'.
Proof.
  intros H. destruct (Nat.lt_trichotomy (length l) (length l')) as [Hlt|[He|Hgt]];
    [|done|].
  - pose proof (proj2 (H (length l)) (lookup_lt_is_Some_2 _ _ Hlt)) as Hs.
    apply lookup_lt_is_Some_1 in Hs. lia.
  - pose proof (proj1 (H (length l')) (lookup_lt_is_Some_2 _ _ Hgt)) as Hs.
    apply lookup_lt_is_Some_1 in Hs. lia.
Qed.

(** [wrap_axis] moves the atoms of the group only. *)
Lemma wrap_axis_outside fuel dd ddbox box tcm k0 k1 d cg_cm pos w :
  wrap_axis fuel dd ddbox box tcm k0 k1 d cg_cm pos = Some w ->
  length (w_pos w) = length pos /\
  forall j : nat, ~ (k0 <= Z.of_nat j < k1) -> w_pos w !! j = pos !! j.
Proof.
  intros H. destruct (Z.lt_ge_cases (axis_idx d) dd.(npbcdim)) as [Hd|Hd].
  - apply wrap_axis_periodic in H as (_ & n & op & sign & _ & _ & _ & _ & Hpos); [|done].
    split.
    + apply length_eq_lookup. intros j. rewrite Hpos.
      destruct (decide _); [|done]. by rewrite fmap_is_Some.
    + intros j Hj. rewrite Hpos. by destruct (decide _).
  - unfold wrap_axis in H. destruct (Z.ltb_spec (axis_idx d) dd.(npbcdim)); [lia|].
    by injection H as <-.
Qed.

Lemma assign_axis_outside fuel dd ddbox box tcm cb k0 k1 d g g' :
  assign_axis fuel dd ddbox box tcm cb k0 k1 d g = Some g' ->
  length (g_pos g') = length (g_pos g) /\
  forall j : nat, ~ (k0 <= Z.of_nat j < k1) -> g_pos g' !! j = g_pos g !! j.
Proof.
  intros H. apply assign_axis_inv in H as (w & Hw & _ & _ & ->).
  by eapply wrap_axis_outside.
Qed.

(** The assignment of a group moves the atoms of that group only. *)
Lemma place_group_outside fuel dd ddbox box tcm cb cgs icg pos g :
  place_group fuel dd ddbox box tcm cb cgs icg pos = Some g ->
  length (g_pos g) = length pos /\
  forall j : nat,
    ~ (arr_get cgs.(index) icg <= Z.of_nat j < arr_get cgs.(index) (icg + 1)) ->
    g_pos g !! j = pos !! j.
Proof.
  intros H. unfold place_group in H.
  apply assign_axes_descending_inv in H as (gz & gy & Hz & Hy & Hx).
  apply assign_axis_outside in Hz as [Lz Oz].
  apply assign_axis_outside in Hy as [Ly Oy].
  apply assign_axis_outside in Hx as [Lx Ox].
  cbn [g_pos] in *. split; [congruence|].
  intros j Hj. by rewrite Ox, Oy, Oz.
Qed.

(** ** [distributeState] on all ranks *)


(** ** The two strategies *)

Lemma length_srenew {A} `{Inhabited A} (l : list A) (n : Z) :
  length (srenew l n) = Z.to_nat n.
Proof. unfold srenew. rewrite length_app, length_take, length_replicate. lia. Qed.

Lemma for_range_result_nil {T} k0 k1 (body : Z -> T -> result T) st :
  k1 <= k0 -> for_range_result k0 k1 body st = Done st.
Proof. intros. unfold for_range_result. by rewrite seqZ_nil by lia. Qed.

Lemma for_range_result_snoc {T} k0 k1 (body : Z -> T -> result T) st :
  k0 <= k1 ->
  for_range_result k0 (k1 + 1) body st
  = for_range_result k0 k1 body st ≫= body k1.
Proof.
  intros. unfold for_range_result.
  replace (k1 + 1 - k0) with ((k1 - k0) + 1) by lia.
  rewrite seqZ_app by lia. rewrite foldl_app.
  replace (k0 + (k1 - k0)) with k1 by lia.
  rewrite (seqZ_cons k1 1), (seqZ_nil (Z.succ k1)) by lia. done.
Qed.

(** Induction over the rounds of a counted loop whose body may fail. *)
Lemma for_range_result_ind {T} (P : Z -> T -> Prop) k0 k1
    (body : Z -> T -> result T) st :
  P k0 st ->
  (forall k s, k0 <= k < k1 -> P k s -> exists s', body k s = Done s' /\ P (k + 1) s') ->
  k0 <= k1 ->
  exists st', for_range_result k0 k1 body st = Done st' /\ P k1 st'.
Proof.
  intros H0 Hstep Hle.
  replace k1 with (k0 + Z.of_nat (Z.to_nat (k1 - k0))) by lia.
  assert (Hn : (Z.to_nat (k1 - k0) <= Z.to_nat (k1 - k0))%nat) by lia.
  revert Hn. generalize (Z.to_nat (k1 - k0)) at 1 3 4 as n.
  induction n as [|n IH]; intros Hn.
  - rewrite Z.add_0_r, for_range_result_nil by lia. by exists st.
  - replace (k0 + Z.of_nat (S n)) with (k0 + Z.of_nat n + 1) by lia.
    rewrite for_range_result_snoc by lia.
    destruct IH as (s & -> & Hs); [lia|].
    destruct (Hstep (k0 + Z.of_nat n) s) as (s' & Hb & Hs'); [lia|done|].
    exists s'. by split.
Qed.

Lemma message_for_fmap (F : Z -> list rvec) (l : list Z) (r : Z) :
  r ∈ l -> message_for ((fun q => (q, F q)) <$> l) r = Some (F r).
Proof.
  unfold message_for. induction l as [|q l IH]; intros Hr.
  - by apply elem_of_nil in Hr.
  - cbn [fmap list_fmap List.find fst].
    destruct (Z.eqb_spec q r) as [->|Hne]; [done|].
    apply IH. apply elem_of_cons in Hr as [->|Hr]; [done|done].
Qed.

(** The copy of the atoms of a list of groups to the start of a buffer
    that has room for them. *)
Lemma copy_groups_to_start (g : Z -> rvec) cgs groups (buf : list rvec) :
  (length (atoms_of cgs groups) <= length buf)%nat ->
  copy_groups (fun _ i => g i) (fun i x b => arr_set i x b) cgs groups buf 0
  = ((g <$> atoms_of cgs groups) ++ drop (length (atoms_of cgs groups)) buf,
     Z.of_nat (length (atoms_of cgs groups))).
Proof.
  intros Hlen. rewrite copy_groups_flat.
  rewrite (surjective_pairing (foldl _ _ _)).
  rewrite copy_flat_count, copy_flat_list by (cbn [fst snd]; lia).
  cbn [fst snd]. by rewrite take_0.
Qed.

(** The loop of the master over the ranks sends every other rank the
    vectors of its atoms. *)
Lemma send_loop ext dd cgs (v : loc) (h : mem) :
  externals_ok ext ->
  0 <= dd.(nnodes) ->
  (forall r, 0 <= r < dd.(nnodes) ->
     numAtoms (arr_get dd.(ma).(domainGroups) r)
     = Z.of_nat (length (rank_atoms cgs dd.(ma) r))) ->
  exists s,
    for_range_result 0 dd.(nnodes) (send_rank ext dd cgs v h)
      {| s_buf := []; s_nalloc := 0; s_sent := [] |} = Done s /\
    s_sent s = expected_sent cgs dd.(ma) (fun i => mem_read h v i) dd.(rank) dd.(nnodes).
Proof.
  intros [Hover Hsize] Hnn Hcons.
  pose (P := fun (k : Z) (s : send_state) =>
    length (s_buf s) = Z.to_nat (s_nalloc s) /\ 0 <= s_nalloc s /\
    s_sent s = expected_sent cgs dd.(ma) (fun i => mem_read h v i) dd.(rank) k).
  destruct (for_range_result_ind P 0 dd.(nnodes) (send_rank ext dd cgs v h)
              {| s_buf := []; s_nalloc := 0; s_sent := [] |})
    as (s & Hs & _ & _ & Hsent); [| |done|by exists s].
  - unfold P, expected_sent. cbn [s_buf s_nalloc s_sent]. by rewrite seqZ_nil.
  - intros k s Hk (Hlen & Hna & Hsent). unfold send_rank.
    assert (Hsplit : expected_sent cgs dd.(ma) (fun i => mem_read h v i) dd.(rank) (k + 1)
              = expected_sent cgs dd.(ma) (fun i => mem_read h v i) dd.(rank) k
                ++ ((fun r => (r, (fun i => mem_read h v i) <$> rank_atoms cgs dd.(ma) r))
                      <$> filter (fun r => r <> dd.(rank)) [k])).
    { unfold expected_sent.
      replace (k + 1) with (Z.of_nat (S (Z.to_nat k))) by lia.
      rewrite seqZ_S, Z2Nat.id, Z.add_0_l, filter_app, fmap_app by lia. done. }
    destruct (Z.eqb_spec k dd.(rank)) as [Ek|Ek].
    + exists s. split; [done|]. unfold P. repeat split; try done.
      rewrite Hsplit, Hsent, filter_cons_False, filter_nil by (intros Hc; by apply Hc).
      by rewrite app_nil_r.
    + set (dg := arr_get dd.(ma).(domainGroups) k).
      set (nalloc := if s_nalloc s <? numAtoms dg
                     then ext.(over_alloc_dd) (numAtoms dg) else s_nalloc s).
      set (buf := if s_nalloc s <? numAtoms dg
                  then srenew (s_buf s) nalloc else s_buf s).
      assert (Hn : numAtoms dg = Z.of_nat (length (atoms_of cgs (atomGroups dg))))
        by (by apply Hcons).
      assert (Hbuf : length buf = Z.to_nat nalloc /\ numAtoms dg <= nalloc).
      { unfold buf, nalloc. destruct (Z.ltb_spec (s_nalloc s) (numAtoms dg)).
        - rewrite length_srenew. split; [done|]. apply Hover.
        - by split. }
      destruct Hbuf as [Hbl Hbn].
      rewrite (copy_groups_to_start _ cgs (atomGroups dg) buf) by lia.
      rewrite <- Hn.
      unfold GMX_RELEASE_ASSERT. rewrite Z.eqb_refl. simpl.
      eexists. split; [reflexivity|]. unfold P. cbn [s_buf s_nalloc s_sent].
      split; [|split].
      * rewrite length_app, length_fmap, length_drop. lia.
      * lia.
      * rewrite Hsplit, Hsent, filter_cons_True, filter_nil by done.
        f_equal. cbn [fmap list_fmap]. f_equal. f_equal.
        change (rank_atoms cgs (ma dd) k) with (atoms_of cgs (atomGroups dg)).
        rewrite take_app_length'; [done|]. rewrite length_fmap. lia.
Qed.

Lemma sendrecv_master_run ext dd cgs (v lv : loc) incoming (h : mem) l0 :
  externals_ok ext ->
  DDMASTER dd = true ->
  0 <= dd.(rank) < dd.(nnodes) ->
  (forall r, 0 <= r < dd.(nnodes) ->
     numAtoms (arr_get dd.(ma).(domainGroups) r)
     = Z.of_nat (length (rank_atoms cgs dd.(ma) r))) ->
  v <> lv ->
  h !! lv = Some l0 ->
  (length (rank_atoms cgs dd.(ma) dd.(rank)) <= length l0)%nat ->
  dd_distribute_vec_sendrecv ext dd cgs v lv incoming h
  = Done (expected_sent cgs dd.(ma) (fun i => mem_read h v i) dd.(rank) dd.(nnodes),
          redistributed cgs dd.(ma) (fun i => mem_read h v i) lv (dd, h)).
Proof.
  intros Hext Hmaster Hr Hcons Hv Hlv Hroom.
  unfold dd_distribute_vec_sendrecv. rewrite Hmaster.
  destruct (send_loop ext dd cgs v h Hext ltac:(lia) Hcons) as (s & -> & Hsent).
  cbn [mbind result_bind]. rewrite Hsent.
  rewrite (surjective_pairing (copy_groups _ _ _ _ _ _)).
  rewrite (copy_into_other _ _ _ _ _ l0) by done.
  assert (Em : dd.(masterrank) = dd.(rank)).
  { unfold DDMASTER in Hmaster. apply Z.eqb_eq in Hmaster. lia. }
  rewrite Em.
  rewrite (copy_groups_to_start _ cgs _ l0) by done.
  unfold redistributed, mem_get. cbn [fst snd]. by rewrite Hlv.
Qed.

Lemma sendrecv_other_run ext dd cgs (v lv : loc) (msg : list rvec) (h : mem) :
  externals_ok ext ->
  DDMASTER dd = false ->
  dd.(nat_home) = Z.of_nat (length msg) ->
  dd_distribute_vec_sendrecv ext dd cgs v lv msg h
  = Done ([], <[lv := msg ++ drop (length msg) (mem_get h lv)]> h).
Proof.
  intros [_ Hsize] Hmaster Hhome.
  unfold dd_distribute_vec_sendrecv, MPI_Recv. rewrite Hmaster, Hhome.
  destruct (Z.leb_spec (Z.of_nat (length msg) * sizeof_rvec ext)
              (Z.of_nat (length msg) * sizeof_rvec ext)); [|lia].
  simpl. unfold overwrite. by rewrite Nat2Z.id, take_ge by lia.
Qed.

(** The copy of the atoms of all ranks, as lines 138-148 do it. *)
Lemma pack_loop (g : Z -> rvec) cgs (a : AtomDistribution) (rs : list Z)
    (st : list rvec * Z) :
  foldl (fun st r =>
           copy_groups (fun _ i => g i) (fun i x b => arr_set i x b) cgs
             (atomGroups (arr_get a.(domainGroups) r)) (fst st) (snd st))
    st rs
  = foldl (copy_step (fun _ i => g i) (fun i x b => arr_set i x b)) st
      (rs ≫= rank_atoms cgs a).
Proof.
  revert st. induction rs as [|r rs IH]; intros st; [done|].
  rewrite bind_cons, foldl_app. cbn [foldl]. rewrite IH. f_equal.
  rewrite copy_groups_flat. by destruct st.
Qed.

Lemma pack_all_buffer ext dd cgs (v : loc) (h : mem) :
  (length (atoms_below cgs dd.(ma) dd.(nnodes)) <= length dd.(ma).(rvecBuffer))%nat ->
  pack_all ext dd cgs v h
  = {| sc_counts := fst (get_commbuffer_counts ext dd.(ma));
       sc_displs := snd (get_commbuffer_counts ext dd.(ma));
       sc_buffer := ((fun i => mem_read h v i) <$> atoms_below cgs dd.(ma) dd.(nnodes))
                    ++ drop (length (atoms_below cgs dd.(ma) dd.(nnodes)))
                         dd.(ma).(rvecBuffer) |}.
Proof.
  intros Hroom. unfold pack_all.
  rewrite (surjective_pairing (get_commbuffer_counts ext dd.(ma))).
  rewrite (surjective_pairing (for_range _ _ _ _)).
  f_equal. unfold for_range.
  rewrite (pack_loop (fun i => mem_read h v i) cgs dd.(ma)).
  rewrite Z.sub_0_r. fold (atoms_below cgs dd.(ma) dd.(nnodes)).
  rewrite copy_flat_list by (cbn [fst snd]; lia).
  cbn [fst snd]. by rewrite take_0.
Qed.

Lemma atoms_below_S cgs a (r : nat) :
  atoms_below cgs a (Z.of_nat (S r))
  = atoms_below cgs a (Z.of_nat r) ++ rank_atoms cgs a (Z.of_nat r).
Proof.
  unfold atoms_below. rewrite seqZ_S, bind_app, Z.add_0_l.
  by rewrite bind_cons, app_nil_r.
Qed.

Lemma Zsum_take_counts cgs (a : AtomDistribution) (size nn : Z) (counts : list Z) :
  (forall q : nat, Z.of_nat q < nn ->
     counts !! q = Some (Z.of_nat (length (rank_atoms cgs a (Z.of_nat q))) * size)) ->
  forall r : nat, Z.of_nat r <= nn ->
    Zsum (take r counts) = Z.of_nat (length (atoms_below cgs a (Z.of_nat r))) * size.
Proof.
  intros Hcount. induction r as [|r IH]; intros Hr.
  - done.
  - rewrite (take_S_r _ _ _ (Hcount r ltac:(lia))), Zsum_app, IH by lia.
    rewrite atoms_below_S, length_app, Nat2Z.inj_add, Z.mul_add_distr_r.
    rewrite Zsum_cons. change (Zsum []) with 0. lia.
Qed.

(** The counts and the offsets of the scatter, in elements. *)
Lemma commbuffer_counts ext cgs (a : AtomDistribution) nn (r : nat) :
  length a.(domainGroups) = Z.to_nat nn ->
  (forall q, 0 <= q < nn ->
     numAtoms (arr_get a.(domainGroups) q) = Z.of_nat (length (rank_atoms cgs a q))) ->
  Z.of_nat r < nn ->
  arr_get (fst (get_commbuffer_counts ext a)) (Z.of_nat r)
  = Z.of_nat (length (rank_atoms cgs a (Z.of_nat r))) * sizeof_rvec ext /\
  arr_get (snd (get_commbuffer_counts ext a)) (Z.of_nat r)
  = Z.of_nat (length (atoms_below cgs a (Z.of_nat r))) * sizeof_rvec ext.
Proof.
  intros Hlen Hcons Hr. unfold get_commbuffer_counts. cbn [fst snd].
  set (counts := (fun g => numAtoms g * sizeof_rvec ext) <$> a.(domainGroups)).
  assert (Hcount : forall q : nat, Z.of_nat q < nn ->
            counts !! q
            = Some (Z.of_nat (length (rank_atoms cgs a (Z.of_nat q))) * sizeof_rvec ext)).
  { intros q Hq. unfold counts. rewrite list_lookup_fmap.
    destruct (lookup_lt_is_Some_2 a.(domainGroups) q) as [g Hg]; [lia|].
    rewrite Hg. cbn. f_equal. f_equal. rewrite <- Hcons by lia.
    f_equal. symmetry. apply arr_get_lookup; [lia|]. by rewrite Nat2Z.id. }
  split.
  - apply arr_get_lookup; [lia|]. rewrite Nat2Z.id. by apply Hcount.
  - apply arr_get_lookup; [lia|]. rewrite Nat2Z.id, list_lookup_fmap.
    rewrite lookup_seq_lt by (unfold counts; rewrite length_fmap; lia).
    cbn. f_equal. apply (Zsum_take_counts cgs a _ nn); [done|lia].
Qed.

Lemma atoms_below_split cgs a (r nn : Z) :
  0 <= r < nn ->
  atoms_below cgs a nn
  = atoms_below cgs a r ++ rank_atoms cgs a r
    ++ (seqZ (r + 1) (nn - r - 1) ≫= rank_atoms cgs a).
Proof.
  intros Hr. unfold atoms_below.
  replace nn with (r + (nn - r)) at 1 by lia.
  rewrite seqZ_app, bind_app by lia. f_equal.
  rewrite Z.add_0_l, seqZ_cons, bind_cons by lia.
  by replace (Z.succ r) with (r + 1) by lia;
     replace (Z.pred (nn - r)) with (nn - r - 1) by lia.
Qed.

Lemma sizeof_rvec_pos ext : 0 < ext.(sizeof_real) -> 0 < sizeof_rvec ext.
Proof. unfold sizeof_rvec, DIM. lia. Qed.

Lemma scatterv_run ext dd cgs (v lv : loc) (src : scatter_source) (h : mem)
    (a : AtomDistribution) (nn : Z) (g : Z -> rvec) (rest : list rvec) :
  externals_ok ext ->
  length a.(domainGroups) = Z.to_nat nn ->
  (forall q, 0 <= q < nn ->
     numAtoms (arr_get a.(domainGroups) q) = Z.of_nat (length (rank_atoms cgs a q))) ->
  0 <= dd.(rank) < nn ->
  dd.(nat_home) = Z.of_nat (length (rank_atoms cgs a dd.(rank))) ->
  src = {| sc_counts := fst (get_commbuffer_counts ext a);
           sc_displs := snd (get_commbuffer_counts ext a);
           sc_buffer := (g <$> atoms_below cgs a nn) ++ rest |} ->
  (DDMASTER dd = true -> pack_all ext dd cgs v h = src) ->
  dd_distribute_vec_scatterv ext dd cgs v lv src h
  = Done (redistributed cgs a g lv (dd, h)).
Proof.
  intros [_ Hsize] Hlen Hcons Hr Hhome Hsrc Hmaster.
  pose proof (sizeof_rvec_pos ext Hsize) as Hpos.
  unfold dd_distribute_vec_scatterv.
  replace (if DDMASTER dd then pack_all ext dd cgs v h else src) with src
    by (destruct (DDMASTER dd); [by rewrite Hmaster|done]).
  rewrite Hsrc. cbn [sc_counts sc_displs sc_buffer]. unfold dd_scatterv.
  destruct (commbuffer_counts ext cgs a nn (Z.to_nat dd.(rank)) Hlen Hcons)
    as [Hc Hd]; [lia|].
  rewrite Z2Nat.id in Hc, Hd by lia. rewrite Hc, Hd, Hhome.
  destruct (Z.leb_spec
              (Z.of_nat (length (rank_atoms cgs a dd.(rank))) * sizeof_rvec ext)
              (Z.of_nat (length (rank_atoms cgs a dd.(rank))) * sizeof_rvec ext));
    [|lia].
  rewrite !Z.div_mul by lia. simpl. unfold redistributed, overwrite.
  cbn [fst snd]. rewrite !Nat2Z.id.
  f_equal. f_equal. f_equal.
  rewrite (atoms_below_split cgs a dd.(rank) nn Hr), !fmap_app, <- !app_assoc.
  rewrite drop_app_length' by (by rewrite length_fmap).
  by rewrite take_app_length' by (by rewrite length_fmap).
Qed.

(** ** The order of the groups within a domain *)

Lemma sorted_snoc_below (l : list Z) (k : Z) :
  StronglySorted Z.lt l -> Forall (fun x => x < k) l ->
  StronglySorted Z.lt (l ++ [k]).
Proof.
  induction l as [|a l IH]; intros Hs Hb; simpl.
  - repeat constructor.
  - inversion Hs as [|? ? Hs' Ha]; subst. inversion Hb as [|? ? Hak Hb']; subst.
    constructor; [by apply IH|].
    apply Forall_app. split; [done|]. by apply Forall_singleton.
Qed.

Lemma ascending_below_weaken (k k' : Z) (L : list (list Z)) :
  k <= k' ->
  Forall (fun l => StronglySorted Z.lt l /\ Forall (fun x => 0 <= x < k) l) L ->
  Forall (fun l => StronglySorted Z.lt l /\ Forall (fun x => 0 <= x < k') l) L.
Proof.
  intros Hk HL. eapply Forall_impl; [exact HL|]. intros l [Hs Hb]. split; [done|].
  eapply Forall_impl; [exact Hb|]. intros x Hx. simpl in Hx. lia.
Qed.

Lemma ascending_below_snoc (k : Z) (i : Z) (L : list (list Z)) :
  0 <= k ->
  Forall (fun l => StronglySorted Z.lt l /\ Forall (fun x => 0 <= x < k) l) L ->
  Forall (fun l => StronglySorted Z.lt l /\ Forall (fun x => 0 <= x < Z.succ k) l)
    (arr_alter (fun l => l ++ [k]) i L).
Proof.
  intros Hk Hinv. unfold arr_alter. destruct (0 <=? i).
  - apply Forall_alter.
    + apply (ascending_below_weaken k); [lia|done].
    + intros l Hl. rewrite Forall_forall in Hinv.
      destruct (Hinv l) as [Hs Hb]; [by eapply list_elem_of_lookup_2|].
      split.
      * apply sorted_snoc_below; [done|].
        eapply Forall_impl; [exact Hb|]. intros x Hx. simpl in Hx. lia.
      * apply Forall_app. split.
        -- eapply Forall_impl; [exact Hb|]. intros x Hx. simpl in Hx. lia.
        -- apply Forall_singleton. lia.
  - apply (ascending_below_weaken k); [lia|done].
Qed.

Lemma distribute_groups_ascending fuel dd ddbox box tcm cb cgs (n : nat) :
  forall k st st',
    distribute_groups fuel dd ddbox box tcm cb cgs (seqZ k (Z.of_nat n)) st = Some st' ->
    Forall (fun l => StronglySorted Z.lt l /\ Forall (fun x => 0 <= x < k) l)
      (d_indices st) ->
    0 <= k ->
    Forall (fun l => StronglySorted Z.lt l /\ Forall (fun x => 0 <= x < k + Z.of_nat n) l)
      (d_indices st').
Proof.
  induction n as [|n IH]; intros k st st' H Hinv Hk.
  - simpl in H. injection H as <-. by rewrite Z.add_0_r.
  - rewrite seqZ_cons in H by lia. cbn [distribute_groups] in H.
    destruct (distribute_group fuel dd ddbox box tcm cb cgs k st) as [st1|] eqn:E;
      [|discriminate H].
    cbn [mbind option_bind] in H.
    replace (Z.pred (Z.of_nat (S n))) with (Z.of_nat n) in H by lia.
    apply IH in H; [| |lia].
    + replace (k + Z.of_nat (S n)) with (Z.succ k + Z.of_nat n) by lia. exact H.
    + apply distribute_group_inv in E as (g & _ & ->). cbn [d_indices].
      by apply ascending_below_snoc.
Qed.

Lemma getAtomGroupDistribution_ascending
    (fuel : nat) (box : matrix) (ddbox : gmx_ddbox_t) (tcm : matrix)
    (cb : vec3 (list real)) (cgs : t_block) (pos : list rvec) (dd : gmx_domdec_t)
    (st : distribution) :
  getAtomGroupDistribution fuel box ddbox tcm cb cgs pos dd = Some st ->
  forall (r : nat) (l : list Z),
    d_indices st !! r = Some l ->
    StronglySorted Z.lt l /\ Forall (fun icg => 0 <= icg < cgs.(nr)) l.
Proof.
  intros H r l Hl. unfold getAtomGroupDistribution in H.
  destruct (Z.le_gt_cases 0 cgs.(nr)) as [Hnr|Hnr].
  - replace cgs.(nr) with (Z.of_nat (Z.to_nat cgs.(nr))) in H at 1 by lia.
    apply distribute_groups_ascending in H.
    + rewrite Forall_forall in H.
      destruct (H l) as [Hs Hb]; [by eapply list_elem_of_lookup_2|].
      split; [done|]. eapply Forall_impl; [exact Hb|].
      intros x Hx. simpl in Hx. lia.
    + cbn [d_indices]. apply Forall_replicate. split; constructor.
    + lia.
  - rewrite seqZ_nil in H by lia. simpl in H. injection H as <-.
    cbn [d_indices] in Hl. apply lookup_replicate in Hl as [-> _].
    split; constructor.
Qed.

(** ** The count of a domain and the groups of its list *)

Lemma tally_start (cgs : t_block) (nn : Z) (dg : list DomainGroups) :
  length dg = Z.to_nat nn ->
  Forall2 (fun l g => numAtoms g = Zsum (group_size cgs <$> l))
    (replicate (Z.to_nat nn) []) (clear_counts nn dg).
Proof.
  intros Hlen. pose proof (clear_counts_zero nn dg Hlen) as Hz.
  apply Forall2_same_length_lookup_2.
  - by rewrite length_replicate, length_clear_counts.
  - intros i l g Hl Hg. apply lookup_replicate in Hl as [-> Hi].
    assert (Hn : (numAtoms <$> clear_counts nn dg) !! i = Some (numAtoms g))
      by (by rewrite list_lookup_fmap, Hg).
    rewrite Hz in Hn. apply lookup_replicate in Hn as [Hn _]. by rewrite Hn.
Qed.

Lemma distribute_groups_tally fuel dd ddbox box tcm cb cgs icgs :
  forall st st',
    distribute_groups fuel dd ddbox box tcm cb cgs icgs st = Some st' ->
    Forall2 (fun l g => numAtoms g = Zsum (group_size cgs <$> l))
      (d_indices st) (d_groups st) ->
    Forall2 (fun l g => numAtoms g = Zsum (group_size cgs <$> l))
      (d_indices st') (d_groups st').
Proof.
  induction icgs as [|icg rest IH]; intros st st' H Hinv.
  - simpl in H. by injection H as <-.
  - cbn [distribute_groups] in H.
    destruct (distribute_group fuel dd ddbox box tcm cb cgs icg st) as [st1|] eqn:E;
      [|discriminate H].
    cbn [mbind option_bind] in H. apply IH in H; [done|].
    apply distribute_group_inv in E as (g & _ & ->). cbn [d_indices d_groups].
    unfold arr_alter. destruct (0 <=? _); [|done].
    apply Forall2_alter; [done|].
    intros l dg _ _ Hl. unfold add_numAtoms, set_numAtoms. cbn [numAtoms].
    rewrite fmap_app, Zsum_app, Hl. simpl. lia.
Qed.

(** ** A box without length along a periodic axis *)

Lemma wrap_down_never fuel box d bScrew k0 k1 :
  forall w,
    (box.[d].[d] <= 0)%Q ->
    Qle_bool box.[d].[d] (w_pos_d w) = true ->
    wrap_down fuel box d bScrew k0 k1 w = None.
Proof.
  induction fuel as [|fuel IH]; intros w Hb Hc; cbn [wrap_down]; rewrite Hc; [done|].
  apply IH; [done|]. cbn [wrap_down_body w_pos_d].
  apply Qle_bool_iff. apply Qle_bool_iff in Hc. lra.
Qed.

Lemma wrap_up_never fuel box d bScrew k0 k1 :
  forall w,
    (box.[d].[d] <= 0)%Q ->
    Qle_bool 0 (w_pos_d w) = false ->
    wrap_up fuel box d bScrew k0 k1 w = None.
Proof.
  induction fuel as [|fuel IH]; intros w Hb Hc; cbn [wrap_up]; rewrite Hc;
    cbn [negb]; [done|].
  apply IH; [done|]. cbn [wrap_up_body w_pos_d].
  apply Qle_bool_false. apply Qle_bool_false in Hc. lra.
Qed.

Lemma wrap_axis_never fuel dd ddbox box tcm k0 k1 d cg_cm pos :
  axis_idx d < dd.(npbcdim) ->
  (box.[d].[d] <= 0)%Q ->
  wrap_axis fuel dd ddbox box tcm k0 k1 d cg_cm pos = None.
Proof.
  intros Hd Hb. unfold wrap_axis.
  destruct (Z.ltb_spec (axis_idx d) dd.(npbcdim)) as [_|?]; [|lia].
  set (w0 := {| w_pos_d := tric_coord dd ddbox tcm d cg_cm;
                w_cg_cm := cg_cm; w_pos := pos |}).
  destruct (Qle_bool box.[d].[d] (w_pos_d w0)) eqn:Hc.
  - by rewrite wrap_down_never.
  - rewrite wrap_down_exit by done. cbn [mbind option_bind].
    apply wrap_up_never; [done|].
    apply Qle_bool_false. apply Qle_bool_false in Hc. lra.
Qed.

Lemma assign_axes_never fuel dd ddbox box tcm cb k0 k1 d ds :
  axis_idx d < dd.(npbcdim) ->
  (box.[d].[d] <= 0)%Q ->
  d ∈ ds ->
  forall g, assign_axes fuel dd ddbox box tcm cb k0 k1 ds g = None.
Proof.
  intros Hd Hb. induction ds as [|e ds IH]; intros Hin g.
  - by apply elem_of_nil in Hin.
  - cbn [assign_axes]. apply elem_of_cons in Hin as [ <- | Hin ].
    + unfold assign_axis. by rewrite wrap_axis_never.
    + destruct (assign_axis fuel dd ddbox box tcm cb k0 k1 e g) as [g'|]; [|done].
      cbn [mbind option_bind]. by apply IH.
Qed.

Lemma getAtomGroupDistribution_never fuel box ddbox tcm cb cgs pos dd d :
  axis_idx d < dd.(npbcdim) ->
  (box.[d].[d] <= 0)%Q ->
  0 < cgs.(nr) ->
  getAtomGroupDistribution fuel box ddbox tcm cb cgs pos dd = None.
Proof.
  intros Hd Hb Hnr. unfold getAtomGroupDistribution.
  rewrite seqZ_cons by lia. cbn [distribute_groups].
  unfold distribute_group at 1. unfold place_group.
  rewrite (assign_axes_never fuel dd ddbox box tcm cb _ _ d); [done..|].
  destruct d; unfold axes_descending; set_solver.
Qed.

(** ** Groups that lie in the box *)

Lemma distribute_groups_fixed fuel dd ddbox box tcm cb cgs icgs :
  forall st,
    (forall icg, icg ∈ icgs -> settled dd ddbox box tcm cgs (d_pos st) icg) ->
    exists st',
      distribute_groups fuel dd ddbox box tcm cb cgs icgs st = Some st' /\
      d_pos st' = d_pos st.
Proof.
  induction icgs as [|icg rest IH]; intros st Hall.
  - by exists st.
  - cbn [distribute_groups]. unfold distribute_group at 1.
    rewrite place_group_fixed by (apply Hall; left).
    cbn [mbind option_bind g_pos g_ind].
    edestruct IH as (st' & Hst' & Hpos); [|exists st'; split; [exact Hst'|]].
    + cbn [d_pos]. intros i Hi. apply Hall. by right.
    + by rewrite Hpos.
Qed.

(** ** The shift of a group is a lattice vector *)

Lemma rvec_shift_scalar (s s' : Q) (v b : rvec) :
  (s == s')%Q -> rvec_eq (rvec_shift s v b) (rvec_shift s' v b).
Proof.
  intros Hs. unfold rvec_shift. repeat split; cbn [c_xx c_yy c_zz];
    by rewrite Hs.
Qed.

Lemma rvec_shift_zero (v b : rvec) : rvec_eq v (rvec_shift (inject_Z 0) v b).
Proof.
  unfold rvec_shift. destruct v. repeat split; cbn [c_xx c_yy c_zz inject_Z]; ring.
Qed.

Lemma wrap_axis_lattice fuel dd ddbox box tcm k0 k1 d cg_cm pos w :
  dd.(bScrewPBC) = false ->
  members_present pos k0 k1 ->
  wrap_axis fuel dd ddbox box tcm k0 k1 d cg_cm pos = Some w ->
  exists z : Z,
    (forall k, k0 <= k < k1 ->
       rvec_eq (arr_get (w_pos w) k)
         (rvec_shift (inject_Z z) (arr_get pos k) box.[d])) /\
    members_present (w_pos w) k0 k1.
Proof.
  intros Hscrew [Hk0 Hmem] H.
  destruct (Z.ltb_spec (axis_idx d) dd.(npbcdim)) as [Hd|Hd].
  - apply wrap_axis_periodic in H as (_ & n & op & sign & Hop & _ & _ & _ & Hpos);
      [|done].
    rewrite Hscrew in Hpos. cbn [andb] in Hpos.
    assert (Hz : exists z : Z, (sign * inject_Z (Z.of_nat n) == inject_Z z)%Q).
    { destruct Hop as [ [_ ->] | [_ ->] ].
      - exists (- Z.of_nat n). rewrite inject_Z_opp. ring.
      - exists (Z.of_nat n). ring. }
    destruct Hz as [z Hz]. exists z. split.
    + intros k Hk.
      destruct (Hmem (Z.to_nat k) ltac:(lia)) as [p Hp].
      pose proof (Hpos (Z.to_nat k)) as Hl.
      destruct (decide (k0 <= Z.of_nat (Z.to_nat k) < k1)); [|lia].
      rewrite Hp in Hl. simpl in Hl.
      assert (Hk' : 0 <= k) by lia.
      rewrite (arr_get_lookup (w_pos w) k _ Hk' Hl).
      rewrite (arr_get_lookup pos k _ Hk' Hp).
      eapply rvec_eq_trans; [by apply (iter_shift_vec op sign)|].
      by apply rvec_shift_scalar.
    + split; [done|]. intros j Hj. rewrite Hpos. destruct (decide _); [|lia].
      destruct (Hmem j Hj) as [p ->]. by eexists.
  - unfold wrap_axis in H. destruct (Z.ltb_spec (axis_idx d) dd.(npbcdim)); [lia|].
    injection H as <-. cbn [w_pos]. exists 0. split; [|by split].
    intros k _. apply rvec_shift_zero.
Qed.

Lemma place_group_lattice fuel dd ddbox box tcm cb cgs icg pos g :
  dd.(bScrewPBC) = false ->
  members_present pos (arr_get cgs.(index) icg) (arr_get cgs.(index) (icg + 1)) ->
  place_group fuel dd ddbox box tcm cb cgs icg pos = Some g ->
  exists n : ivec,
    forall k, arr_get cgs.(index) icg <= k < arr_get cgs.(index) (icg + 1) ->
      rvec_eq (arr_get (g_pos g) k) (lattice_shift box n (arr_get pos k)).
Proof.
  intros Hscrew Hmem H. unfold place_group in H.
  set (k0 := arr_get cgs.(index) icg) in *.
  set (k1 := arr_get cgs.(index) (icg + 1)) in *.
  apply assign_axes_descending_inv in H as (gz & gy & Hz & Hy & Hx).
  apply assign_axis_inv in Hz as (wz & Hwz & _ & _ & Epz).
  apply assign_axis_inv in Hy as (wy & Hwy & _ & _ & Epy).
  apply assign_axis_inv in Hx as (wx & Hwx & _ & _ & Epx).
  cbn [g_pos] in Hwz. rewrite Epz in Hwy. rewrite Epy in Hwx.
  apply wrap_axis_lattice in Hwz as (nz & Hz & Hmz); [|done..].
  apply wrap_axis_lattice in Hwy as (ny & Hy & Hmy); [|done..].
  apply wrap_axis_lattice in Hwx as (nx & Hx & _); [|done..].
  exists (V3 nx ny nz). intros k Hk. rewrite Epx. unfold lattice_shift.
  change ((V3 nx ny nz).[XX]) with nx. change ((V3 nx ny nz).[YY]) with ny.
  change ((V3 nx ny nz).[ZZ]) with nz.
  eapply rvec_eq_trans; [by apply Hx|]. apply rvec_shift_proper.
  eapply rvec_eq_trans; [by apply Hy|]. apply rvec_shift_proper.
  by apply Hz.
Qed.

(** ** A single domain *)

Lemma sorted_seqZ (m : Z) (n : nat) : StronglySorted Z.lt (seqZ m (Z.of_nat n)).
Proof.
  induction n as [|n IH]; [constructor|].
  rewrite seqZ_S. apply sorted_snoc_below; [done|].
  apply Forall_forall. intros x Hx. apply elem_of_seqZ in Hx. lia.
Qed.

Lemma sorted_perm_seqZ (l : list Z) (n : Z) :
  StronglySorted Z.lt l -> l ≡ₚ seqZ 0 n -> l = seqZ 0 n.
Proof.
  intros Hs Hp. apply (StronglySorted_unique_strong Z.lt); [|done| |done].
  - intros x1 x2 _ _ H1 H2. lia.
  - destruct (Z.le_gt_cases 0 n) as [Hn|Hn].
    + replace n with (Z.of_nat (Z.to_nat n)) by lia. apply sorted_seqZ.
    + rewrite seqZ_nil by lia. constructor.
Qed.

(** ** The check of the count in the point-to-point strategy *)

Lemma send_rank_outcome ext dd cgs (v : loc) (h : mem) r s :
  send_rank ext dd cgs v h r s
  = Fatal "The index count and number of indices should match" \/
  exists s', send_rank ext dd cgs v h r s = Done s'.
Proof.
  unfold send_rank. destruct (r =? rank dd); [right; by eexists|].
  destruct (copy_groups _ _ _ _ _ _) as [buf' localAtom].
  unfold GMX_RELEASE_ASSERT. destruct (localAtom =? _); [right|left]; simpl;
    [by eexists|done].
Qed.

Lemma send_rank_mismatch ext dd cgs (v : loc) (h : mem) r s :
  r <> dd.(rank) ->
  numAtoms (arr_get dd.(ma).(domainGroups) r)
  <> Z.of_nat (length (rank_atoms cgs dd.(ma) r)) ->
  send_rank ext dd cgs v h r s
  = Fatal "The index count and number of indices should match".
Proof.
  intros Hr Hne. unfold send_rank.
  destruct (Z.eqb_spec r dd.(rank)) as [?|_]; [done|].
  destruct (copy_groups _ _ _ _ _ _) as [buf' localAtom] eqn:E.
  assert (Hcount : localAtom = Z.of_nat (length (rank_atoms cgs dd.(ma) r))).
  { pose proof (f_equal snd E) as Hs. rewrite copy_groups_flat, copy_flat_count in Hs.
    cbn [snd] in Hs. unfold rank_atoms. lia. }
  unfold GMX_RELEASE_ASSERT.
  destruct (Z.eqb_spec localAtom (numAtoms (arr_get dd.(ma).(domainGroups) r)));
    [congruence|done].
Qed.

Lemma for_range_result_outcome {T} (msg : string) k0 k1
    (body : Z -> T -> result T) st :
  (forall k s, body k s = Fatal msg \/ exists s', body k s = Done s') ->
  for_range_result k0 k1 body st = Fatal msg \/
  exists st', for_range_result k0 k1 body st = Done st'.
Proof.
  intros Hbody. destruct (Z.le_gt_cases k0 k1) as [Hle|Hgt].
  - replace k1 with (k0 + Z.of_nat (Z.to_nat (k1 - k0))) by lia.
    induction (Z.to_nat (k1 - k0)) as [|n IH].
    + right. exists st. apply for_range_result_nil. lia.
    + replace (k0 + Z.of_nat (S n)) with (k0 + Z.of_nat n + 1) by lia.
      rewrite for_range_result_snoc by lia.
      destruct IH as [->|[st' ->]]; [by left|]. cbn [mbind result_bind].
      apply Hbody.
  - right. exists st. apply for_range_result_nil. lia.
Qed.

Lemma for_range_result_fatal {T} (msg : string) k0 k1
    (body : Z -> T -> result T) st r :
  k0 <= r < k1 ->
  (forall k s, body k s = Fatal msg \/ exists s', body k s = Done s') ->
  (forall s, body r s = Fatal msg) ->
  for_range_result k0 k1 body st = Fatal msg.
Proof.
  intros Hr Hbody Hbad.
  replace k1 with (r + 1 + Z.of_nat (Z.to_nat (k1 - r - 1))) by lia.
  induction (Z.to_nat (k1 - r - 1)) as [|n IH].
  - rewrite Z.add_0_r, for_range_result_snoc by lia.
    destruct (for_range_result_outcome msg k0 r body st Hbody) as [->|[st' ->]];
      [done|]. cbn [mbind result_bind]. apply Hbad.
  - replace (r + 1 + Z.of_nat (S n)) with (r + 1 + Z.of_nat n + 1) by lia.
    rewrite for_range_result_snoc by lia. by rewrite IH.
Qed.

(** ** The wrapping of an axis, written out *)






(** ** The positions after the loop over the groups *)




(** * The claims *)

(** C1.  For every grid of domains and every set of atom groups, every
    result [getAtomGroupDistribution] returns puts every group in exactly
    one domain: there is one list per domain, the lists together hold the
    group ids [0 .. nr-1], and no id occurs twice, neither in two lists nor
    twice in one. *)
Theorem C1_every_group_in_exactly_one_domain
    (fuel : nat) (box : matrix) (ddbox : gmx_ddbox_t) (tcm : matrix)
    (cb : vec3 (list real)) (cgs : t_block) (pos : list rvec) (dd : gmx_domdec_t)
    (st : distribution) :
  valid_grid dd ->
  getAtomGroupDistribution fuel box ddbox tcm cb cgs pos dd = Some st ->
  length (d_indices st) = Z.to_nat dd.(nnodes) /\
  concat (d_indices st) ≡ₚ seqZ 0 cgs.(nr) /\
  NoDup (concat (d_indices st)).
Proof.
  intros Hgrid H. unfold getAtomGroupDistribution in H.
  apply distribute_groups_indices in H as [Hlen Hperm]; [|done|].
  - cbn [d_indices] in Hperm. rewrite concat_replicate_nil in Hperm.
    simpl in Hperm. repeat split; [done..|].
    rewrite Hperm. apply NoDup_seqZ.
  - cbn [d_indices]. by rewrite length_replicate.
Qed.

(** C2.  For every grid, every set of groups that covers the atoms
    [0 .. natoms-1] and every group of processes in rank order: after
    [distributeAtomGroups] has returned, the atom counts the ledger keeps
    per domain add up to [natoms], every rank holds the count of its domain
    as [nat_home], and so the [nat_home] of all ranks add up to [natoms]. *)
Theorem C2_atom_counts_add_up_to_global_count
    (ext : externals) (fuel : nat) (dds : list gmx_domdec_t) (m : Z)
    (ddm : gmx_domdec_t) (cgs : t_block) (natoms : Z) (box : matrix)
    (ddbox : gmx_ddbox_t) (tcm : matrix) (cb : vec3 (list real)) (pos : list rvec)
    (dds' : list gmx_domdec_t) (pos' : list rvec) :
  dds !! Z.to_nat m = Some ddm ->
  ranks_wf dds m ddm.(nnodes) ->
  valid_grid ddm ->
  ledger_sized ddm ->
  screw_accepted ext ddm box ->
  block_covers cgs natoms ->
  distributeAtomGroups ext fuel dds m cgs box ddbox tcm cb pos = Done (dds', pos') ->
  exists ddm',
    dds' !! Z.to_nat m = Some ddm' /\
    Zsum (numAtoms <$> domainGroups (ma ddm')) = natoms /\
    nat_home <$> dds' = numAtoms <$> domainGroups (ma ddm') /\
    Zsum (nat_home <$> dds') = natoms.
Proof.
  intros Hm Hwf Hgrid Hled Hscrew (Hnr & H0 & Hn) Hrun.
  destruct (distributeAtomGroups_inv _ _ _ _ _ _ _ _ _ _ _ _ _
              Hm Hwf Hled Hscrew Hrun) as (st & Hst & -> & Hhomes).
  destruct (getAtomGroupDistribution_counts _ _ _ _ _ _ _ _ _
              Hgrid (proj1 Hled) Hnr Hst) as [Hlen Hsum].
  pose proof (homes_nat_home _ _ _ _ _ Hwf Hlen Hhomes) as Hnat.
  destruct (Forall2_lookup_l _ _ _ _ _ Hhomes Hm) as (ddm' & Hm' & _ & _ & _ & Hma).
  destruct Hwf as (_ & Hm0 & Hranks).
  destruct (Hranks _ _ Hm) as (Er & Emr & _).
  assert (Hmaster : DDMASTER ddm = true).
  { unfold DDMASTER. rewrite Er, Emr. apply Z.eqb_eq. lia. }
  specialize (Hma Hmaster).
  exists ddm'. rewrite Hma, Hnat, Hsum, H0, Hn.
  repeat split; try done; lia.
Qed.






(** C8, counterexample.  The global state of the master holds no
    free-energy history, the local states of both ranks hold one, with
    equilibration flag 1 on the master and 0 on rank 1.
    [dd_distribute_state] tests the pointer of the local state, so the
    history is broadcast: afterwards the flag of rank 1 is 1.  Its local
    state changed although the global pointer is absent. *)
Lemma C8_counterexample_absent_global_pointer_still_broadcasts :
  exists s ps p1,
    dd_distribute_state ex_ext (ex_state [] None 0 0)
      (ex_procs (fun r => Some (ex_hist (1 - r))) 0 0) 0 ex_cgs = Done (s, ps) /\
    ps !! 1%nat = Some p1 /\
    dfhist (p_state_local p1) = Some (ex_hist 1) /\
    dfhist (p_state_local p1) <> Some (ex_hist 0).
Proof.
  eexists. eexists. eexists. split; [vm_compute; reflexivity|].
  split; [reflexivity|]. split; [reflexivity|]. discriminate.
Qed.

(** C8, amended.  When the pointer a rank passes to
    [dd_distribute_dfhist], the history of its local state, is absent, the
    call returns at once: no broadcast, nothing changed, whatever the
    master holds.  When it is present (and so is the one of the master),
    the three scalars (equilibration flag, lambda count, step size) are
    broadcast first; when the lambda count received is not positive that
    is all, and otherwise the six arrays follow and then, row by row, the
    six matrices, every transfer of lambda-count elements. *)
Theorem C8_history_broadcast_gated_by_local_pointer
    (ext : externals) (root : option df_history_t) (r d : df_history_t) :
  dd_distribute_dfhist ext root None = Done (None, []) /\
  (exists d' t,
     dd_distribute_dfhist ext (Some r) (Some d) = Done (Some d', t) /\
     bEquil d' = bEquil r /\ nlambda d' = nlambda r /\ wl_delta d' = wl_delta r /\
     let header :=
       [ {| b_bytes := sizeof_int; b_item := B_bEquil |};
         {| b_bytes := sizeof_int; b_item := B_nlambda |};
         {| b_bytes := ext.(sizeof_real); b_item := B_wl_delta |} ] in
     let nlam := nlambda r in
     if 0 <? nlam then
       t = header ++
           [ {| b_bytes := sizeof_int * nlam; b_item := B_n_at_lam |};
             {| b_bytes := ext.(sizeof_real) * nlam; b_item := B_wl_histo |};
             {| b_bytes := ext.(sizeof_real) * nlam; b_item := B_sum_weights |};
             {| b_bytes := ext.(sizeof_real) * nlam; b_item := B_sum_dg |};
             {| b_bytes := ext.(sizeof_real) * nlam; b_item := B_sum_minvar |};
             {| b_bytes := ext.(sizeof_real) * nlam; b_item := B_sum_variance |} ] ++
           (seqZ 0 nlam ≫= dfhist_row_events ext nlam) /\
       n_at_lam d' = dd_bcast nlam (n_at_lam r) (n_at_lam d)
     else
       t = header /\
       d' = fst (bcast_dfhist_header ext r d)).
Proof.
  split; [done|].
  unfold dd_distribute_dfhist. cbn [bcast_dfhist_header nlambda].
  destruct (Z.ltb_spec 0 (nlambda r)) as [Hpos|Hneg].
  - cbn [bcast_dfhist_vectors].
    destruct (for_range 0 (nlambda r) (bcast_dfhist_row ext (nlambda r) r) _)
      as [d3 t3] eqn:E.
    match type of E with
    | for_range _ _ _ (?d2, []) = _ =>
        pose proof (dfhist_rows_trace ext (nlambda r) r d2 (nlambda r) ltac:(lia))
          as Ht;
        pose proof (dfhist_rows_keep ext (nlambda r) r d2 (nlambda r)) as Hk
    end.
    rewrite E in Ht, Hk. cbn [fst snd] in Ht, Hk.
    destruct Hk as (K1 & K2 & K3 & K4).
    exists d3. eexists. split; [reflexivity|].
    rewrite K1, K2, K3, K4, Ht. by cbn [bEquil nlambda wl_delta n_at_lam].
  - eexists. eexists. split; [reflexivity|]. by repeat split.
Qed.

(** C9.  On the master, where the global state is, a chain length of the
    global state that differs from the one of the local state ends
    [dd_distribute_state] with the fatal message of the assertion: no local
    state is returned and nothing is broadcast; this holds for the part of
    one rank and for the round over all ranks.  With equal chain lengths
    the check passes. *)
Theorem C9_chain_length_mismatch_is_fatal
    (ext : externals) (dd : gmx_domdec_t) (state state_local root : t_state)
    (f : list rvec) (procs : list process) (m : Z) (pm : process) (cgs : t_block) :
  DDMASTER dd = true ->
  procs !! Z.to_nat m = Some pm ->
  (state.(nhchainlength) <> state_local.(nhchainlength) ->
   dd_distribute_state_entries ext dd state state_local f root
   = Fatal "The global and local Nose-Hoover chain lengths should match") /\
  (state.(nhchainlength) <> (p_state_local pm).(nhchainlength) ->
   dd_distribute_state ext state procs m cgs
   = Fatal "The global and local Nose-Hoover chain lengths should match") /\
  (state.(nhchainlength) = state_local.(nhchainlength) ->
   exists sl, master_copy ext state state_local = Done sl).
Proof.
  intros Hmaster Hpm. repeat split.
  - intros Hne. unfold dd_distribute_state_entries, master_copy.
    rewrite Hmaster. apply Z.eqb_neq in Hne. by rewrite Hne.
  - intros Hne. unfold dd_distribute_state, master_copy.
    rewrite Hpm. apply Z.eqb_neq in Hne. by rewrite Hne.
  - intros He. unfold master_copy. apply Z.eqb_eq in He. rewrite He.
    by eexists.
Qed.



(** C10.  The two strategies only read the source vector: when [v] and
    [lv] are two arrays, the array [v] of the memory of the rank is after
    [dd_distribute_vec_sendrecv] and after [dd_distribute_vec_scatterv]
    what it was before, and [dd_distribute_state], which redistributes the
    positions, the velocities and the constraint vectors, returns the
    global state it was given.  The positions of the global state are
    changed by the assignment only: in the example [distributeState]
    returns other positions than it was given. *)
Theorem C10_transfer_leaves_the_global_vectors
    (ext : externals) (dd : gmx_domdec_t) (cgs : t_block) (v lv : loc)
    (incoming : list rvec) (root : scatter_source) (h : mem)
    (state : t_state) (procs : list process) (m : Z) :
  v <> lv ->
  master_at procs m ->
  (forall sent h',
     dd_distribute_vec_sendrecv ext dd cgs v lv incoming h = Done (sent, h') ->
     h' !! v = h !! v) /\
  (forall h',
     dd_distribute_vec_scatterv ext dd cgs v lv root h = Done h' ->
     h' !! v = h !! v) /\
  (forall state' procs',
     dd_distribute_state ext state procs m cgs = Done (state', procs') ->
     state' = state) /\
  (exists s ps,
     distributeState ex_ext 1 (ex_state ex_pos None 0 1)
       (ex_procs (fun _ => None) 0 1) 0 ex_cgs ex_ddbox ex_tcm ex_boundaries
     = Done (s, ps) /\
     ~ ((arr_get (s_x s) 3).[XX] == (arr_get ex_pos 3).[XX])%Q).
Proof.
  intros Hv Hm. split; [|split; [|split]].
  - intros sent h' H. by eapply sendrecv_frame.
  - intros h' H. by eapply scatterv_frame.
  - intros state' procs' H. by apply dd_distribute_state_frame in H as [-> _].
  - eexists. eexists. split; [vm_compute; reflexivity|]. by vm_compute.
Qed.

(** C3.  For the same ledger, the same source vector and the same block
    of groups, the point-to-point strategy and the collective strategy
    both return, and leave the same memory on every rank: the array [lv] of
    a rank starts with the vectors of the atoms of its domain, in the order
    of the groups of the ledger, and keeps the rest of what it held.  The
    ledger is consistent, [v] and [lv] are two arrays, the array of the
    master has room for its atoms and the buffer of the ledger for the
    atoms of all ranks. *)
Theorem C3_both_strategies_leave_the_same_local_arrays
    (ext : externals) (procs : list (gmx_domdec_t * mem)) (m : Z)
    (ddm : gmx_domdec_t) (hm : mem) (l0 : list rvec) (cgs : t_block) (v lv : loc) :
  procs !! Z.to_nat m = Some (ddm, hm) ->
  ranks_wf (fst <$> procs) m ddm.(nnodes) ->
  ledger_consistent cgs ddm.(ma) ddm.(nnodes) procs ->
  externals_ok ext ->
  v <> lv ->
  hm !! lv = Some l0 ->
  ddm.(nat_home) <= Z.of_nat (length l0) ->
  (length (atoms_below cgs ddm.(ma) ddm.(nnodes)) <= length ddm.(ma).(rvecBuffer))%nat ->
  sendrecv_all ext procs m cgs v lv
  = Done (redistributed cgs ddm.(ma) (fun i => mem_read hm v i) lv <$> procs) /\
  scatterv_all ext procs m cgs v lv
  = Done (redistributed cgs ddm.(ma) (fun i => mem_read hm v i) lv <$> procs).
Proof.
  intros Hm (Hlen & Hm0 & Hranks) (Hdg & Hcons & Hhome) Hext Hv Hlv Hroom Hbuf.
  assert (Hfst : (fst <$> procs) !! Z.to_nat m = Some ddm)
    by (by rewrite list_lookup_fmap, Hm).
  destruct (Hranks _ _ Hfst) as (Erank & Emaster & _).
  assert (Hrm : 0 <= ddm.(rank) < ddm.(nnodes)).
  { pose proof (lookup_lt_Some _ _ _ Hfst). lia. }
  assert (Hmaster : DDMASTER ddm = true).
  { unfold DDMASTER. apply Z.eqb_eq. lia. }
  assert (Hhm : ddm.(nat_home) = Z.of_nat (length (rank_atoms cgs ddm.(ma) ddm.(rank)))).
  { rewrite (Hhome _ _ _ Hm). by apply Hcons. }
  assert (Hproc : forall p, p ∈ procs ->
            0 <= (fst p).(rank) < ddm.(nnodes) /\
            (fst p).(nat_home)
            = Z.of_nat (length (rank_atoms cgs ddm.(ma) (fst p).(rank))) /\
            (DDMASTER (fst p) = true -> p = (ddm, hm)) /\
            (DDMASTER (fst p) = false -> (fst p).(rank) <> ddm.(rank))).
  { intros [dd h] [i Hi]%list_elem_of_lookup. cbn [fst].
    assert (Hfi : (fst <$> procs) !! i = Some dd) by (by rewrite list_lookup_fmap, Hi).
    destruct (Hranks _ _ Hfi) as (Er & Emr & _).
    pose proof (lookup_lt_Some _ _ _ Hfi) as Hlt.
    assert (Hri : 0 <= rank dd < nnodes ddm) by lia.
    split; [done|]. split; [rewrite (Hhome _ _ _ Hi); by apply Hcons|].
    unfold DDMASTER. split.
    - intros E%Z.eqb_eq. assert (i = Z.to_nat m) as -> by lia. congruence.
    - intros E%Z.eqb_neq. lia. }
  split.
  - unfold sendrecv_all. rewrite Hm.
    rewrite (sendrecv_master_run ext ddm cgs v lv [] hm l0) by (try done; lia).
    cbn [mbind result_bind]. apply on_all_ranks_Done.
    intros p Hp. destruct (Hproc p Hp) as (Hr & Hn & Hmas & Hoth).
    destruct (DDMASTER (fst p)) eqn:Ed.
    + by rewrite (Hmas eq_refl).
    + unfold expected_sent. rewrite message_for_fmap.
      2: { apply list_elem_of_filter. split; [by apply Hoth|]. apply elem_of_seqZ. lia. }
      rewrite sendrecv_other_run by (try done; by rewrite length_fmap).
      cbn [mbind result_bind snd]. unfold redistributed.
      by rewrite length_fmap.
  - unfold scatterv_all. rewrite Hm. apply on_all_ranks_Done.
    intros p Hp. destruct (Hproc p Hp) as (Hr & Hn & Hmas & Hoth).
    rewrite (surjective_pairing p) at 2.
    eapply scatterv_run; try done.
    + by apply pack_all_buffer.
    + intros Ed. by rewrite (Hmas Ed).
Qed.

(** * The theorems at the example inputs *)

(** C1 at the example: two domains along x in a cubic box of side 4, three
    groups over four atoms. *)
Lemma C1_at_the_example :
  exists st,
    valid_grid (ex_dd 0) /\
    getAtomGroupDistribution 1 ex_box ex_ddbox ex_tcm ex_boundaries ex_cgs ex_pos
      (ex_dd 0) = Some st /\
    length (d_indices st) = Z.to_nat (ex_dd 0).(nnodes) /\
    concat (d_indices st) ≡ₚ seqZ 0 ex_cgs.(nr) /\
    NoDup (concat (d_indices st)).
Proof.
  assert (Hg : valid_grid (ex_dd 0)).
  { split; [intros d; destruct d; simpl; lia|reflexivity]. }
  destruct (getAtomGroupDistribution 1 ex_box ex_ddbox ex_tcm ex_boundaries ex_cgs
              ex_pos (ex_dd 0)) as [st|] eqn:H; [|vm_compute in H; discriminate H].
  exists st. split; [exact Hg|]. split; [reflexivity|].
  exact (C1_every_group_in_exactly_one_domain 1 ex_box ex_ddbox ex_tcm ex_boundaries
           ex_cgs ex_pos (ex_dd 0) st Hg H).
Defined.

(** C2 at the example. *)
Lemma C2_at_the_example :
  exists dds' pos',
    [ex_dd 0; ex_dd 1] !! Z.to_nat 0 = Some (ex_dd 0) /\
    ranks_wf [ex_dd 0; ex_dd 1] 0 (ex_dd 0).(nnodes) /\
    valid_grid (ex_dd 0) /\
    ledger_sized (ex_dd 0) /\
    screw_accepted ex_ext (ex_dd 0) ex_box /\
    block_covers ex_cgs 4 /\
    distributeAtomGroups ex_ext 1 [ex_dd 0; ex_dd 1] 0 ex_cgs ex_box ex_ddbox ex_tcm
      ex_boundaries ex_pos = Done (dds', pos') /\
    exists ddm',
      dds' !! Z.to_nat 0 = Some ddm' /\
      Zsum (numAtoms <$> domainGroups (ma ddm')) = 4 /\
      nat_home <$> dds' = numAtoms <$> domainGroups (ma ddm') /\
      Zsum (nat_home <$> dds') = 4.
Proof.
  assert (H1 : [ex_dd 0; ex_dd 1] !! Z.to_nat 0 = Some (ex_dd 0)) by reflexivity.
  assert (H2 : ranks_wf [ex_dd 0; ex_dd 1] 0 (ex_dd 0).(nnodes)).
  { split; [reflexivity|]. split; [lia|].
    intros r dd Hr. destruct r as [|[|r]]; simpl in Hr; [| |discriminate Hr];
      injection Hr as <-; repeat split. }
  assert (H3 : valid_grid (ex_dd 0)).
  { split; [intros d; destruct d; simpl; lia|reflexivity]. }
  assert (H4 : ledger_sized (ex_dd 0)) by (split; [reflexivity|simpl; lia]).
  assert (H5 : screw_accepted ex_ext (ex_dd 0) ex_box) by (intros H; discriminate H).
  assert (H7 : block_covers ex_cgs 4) by (repeat split; simpl; lia).
  destruct (distributeAtomGroups ex_ext 1 [ex_dd 0; ex_dd 1] 0 ex_cgs ex_box ex_ddbox
              ex_tcm ex_boundaries ex_pos) as [[dds' pos']|msg| |] eqn:H;
    [|vm_compute in H; discriminate H..].
  exists dds', pos'. repeat (split; [assumption|]). split; [reflexivity|].
  exact (C2_atom_counts_add_up_to_global_count ex_ext 1 [ex_dd 0; ex_dd 1] 0 (ex_dd 0)
           ex_cgs 4 ex_box ex_ddbox ex_tcm ex_boundaries ex_pos dds' pos'
           H1 H2 H3 H4 H5 H7 H).
Defined.



(** C3 at the example: two ranks, the ledger after the assignment. *)
Lemma C3_at_the_example :
  ex_mems !! Z.to_nat 0
  = Some (ex_dd2 0, <[gl := ex_pos]> {[ lo := replicate 2 zero_rvec ]}) /\
  ranks_wf (fst <$> ex_mems) 0 (ex_dd2 0).(nnodes) /\
  ledger_consistent ex_cgs (ex_dd2 0).(ma) (ex_dd2 0).(nnodes) ex_mems /\
  externals_ok ex_ext /\
  gl <> lo /\
  (<[gl := ex_pos]> {[ lo := replicate 2 zero_rvec ]} : gmap nat (list (vec3 Q))) !! lo
  = Some (replicate 2 zero_rvec) /\
  (ex_dd2 0).(nat_home) <= Z.of_nat (length (replicate 2 zero_rvec)) /\
  (length (atoms_below ex_cgs (ex_dd2 0).(ma) (ex_dd2 0).(nnodes))
   <= length (ex_dd2 0).(ma).(rvecBuffer))%nat /\
  (sendrecv_all ex_ext ex_mems 0 ex_cgs gl lo
   = Done (redistributed ex_cgs (ex_dd2 0).(ma)
             (fun i => mem_read (<[gl := ex_pos]> {[ lo := replicate 2 zero_rvec ]}) gl i)
             lo <$> ex_mems) /\
   scatterv_all ex_ext ex_mems 0 ex_cgs gl lo
   = Done (redistributed ex_cgs (ex_dd2 0).(ma)
             (fun i => mem_read (<[gl := ex_pos]> {[ lo := replicate 2 zero_rvec ]}) gl i)
             lo <$> ex_mems)).
Proof.
  assert (H1 : ex_mems !! Z.to_nat 0
               = Some (ex_dd2 0, <[gl := ex_pos]> {[ lo := replicate 2 zero_rvec ]}))
    by reflexivity.
  assert (H2 : ranks_wf (fst <$> ex_mems) 0 (ex_dd2 0).(nnodes)).
  { split; [reflexivity|]. split; [lia|].
    intros r dd Hr. destruct r as [|[|r]]; simpl in Hr; [| |discriminate Hr];
      injection Hr as <-; repeat split. }
  assert (H3 : ledger_consistent ex_cgs (ex_dd2 0).(ma) (ex_dd2 0).(nnodes) ex_mems).
  { split; [reflexivity|]. split.
    - intros r Hr. assert (Hc : r = 0 \/ r = 1) by (simpl in Hr; lia).
      destruct Hc as [ -> | -> ]; reflexivity.
    - intros i dd h Hi. destruct i as [|[|i]]; simpl in Hi; [| |discriminate Hi];
        injection Hi as <- <-; reflexivity. }
  assert (H4 : externals_ok ex_ext) by (split; [intros n; simpl; lia|simpl; lia]).
  assert (H5 : gl <> lo) by (intros Hc; discriminate Hc).
  assert (H6 : (<[gl := ex_pos]> {[ lo := replicate 2 zero_rvec ]}
                : gmap nat (list (vec3 Q))) !! lo = Some (replicate 2 zero_rvec))
    by reflexivity.
  assert (H7 : (ex_dd2 0).(nat_home) <= Z.of_nat (length (replicate 2 zero_rvec)))
    by (simpl; lia).
  assert (H8 : (length (atoms_below ex_cgs (ex_dd2 0).(ma) (ex_dd2 0).(nnodes))
                <= length (ex_dd2 0).(ma).(rvecBuffer))%nat)
    by (vm_compute; lia).
  repeat (split; [assumption|]).
  exact (C3_both_strategies_leave_the_same_local_arrays ex_ext ex_mems 0 (ex_dd2 0)
           (<[gl := ex_pos]> {[ lo := replicate 2 zero_rvec ]})
           (replicate 2 zero_rvec) ex_cgs gl lo H1 H2 H3 H4 H5 H6 H7 H8).
Defined.



(** C9 at the example: the global chain length is 1, the local one 0. *)
Lemma C9_at_the_example :
  let procs := ex_procs (fun _ => None) 0 0 in
  let pm := {| p_dd := ex_dd 0; p_state_local := ex_state [] None 0 0; p_f := [] |} in
  let state := ex_state ex_pos None 1 0 in
  let state_local := ex_state [] None 0 0 in
  DDMASTER (ex_dd 0) = true /\
  procs !! Z.to_nat 0 = Some pm /\
  ((state.(nhchainlength) <> state_local.(nhchainlength) ->
    dd_distribute_state_entries ex_ext (ex_dd 0) state state_local [] state_local
    = Fatal "The global and local Nose-Hoover chain lengths should match") /\
   (state.(nhchainlength) <> (p_state_local pm).(nhchainlength) ->
    dd_distribute_state ex_ext state procs 0 ex_cgs
    = Fatal "The global and local Nose-Hoover chain lengths should match") /\
   (state.(nhchainlength) = state_local.(nhchainlength) ->
    exists sl, master_copy ex_ext state state_local = Done sl)).
Proof.
  intros procs pm state state_local.
  assert (H1 : DDMASTER (ex_dd 0) = true) by reflexivity.
  assert (H2 : procs !! Z.to_nat 0 = Some pm) by reflexivity.
  split; [exact H1|]. split; [exact H2|].
  exact (C9_chain_length_mismatch_is_fatal ex_ext (ex_dd 0) state state_local
           state_local [] procs 0 pm ex_cgs H1 H2).
Defined.

(** C10 at the example. *)
Lemma C10_at_the_example :
  let procs := ex_procs (fun _ => None) 0 1 in
  let h : gmap nat (list (vec3 Q)) :=
    <[gl := ex_pos]> {[ lo := replicate 2 zero_rvec ]} in
  let root := pack_all ex_ext (ex_dd2 0) ex_cgs gl h in
  let state := ex_state ex_pos None 0 1 in
  gl <> lo /\
  master_at procs 0 /\
  ((forall sent h',
      dd_distribute_vec_sendrecv ex_ext (ex_dd2 0) ex_cgs gl lo [] h = Done (sent, h') ->
      h' !! gl = h !! gl) /\
   (forall h',
      dd_distribute_vec_scatterv ex_ext (ex_dd2 0) ex_cgs gl lo root h = Done h' ->
      h' !! gl = h !! gl) /\
   (forall state' procs',
      dd_distribute_state ex_ext state procs 0 ex_cgs = Done (state', procs') ->
      state' = state) /\
   (exists s ps,
      distributeState ex_ext 1 (ex_state ex_pos None 0 1)
        (ex_procs (fun _ => None) 0 1) 0 ex_cgs ex_ddbox ex_tcm ex_boundaries
      = Done (s, ps) /\
      ~ ((arr_get (s_x s) 3).[XX] == (arr_get ex_pos 3).[XX])%Q)).
Proof.
  intros procs h root state.
  assert (H1 : gl <> lo) by (intros Hc; discriminate Hc).
  assert (H2 : master_at procs 0) by (eexists; split; reflexivity).
  split; [exact H1|]. split; [exact H2|].
  exact (C10_transfer_leaves_the_global_vectors ex_ext (ex_dd2 0) ex_cgs gl lo [] root h
           state procs 0 H1 H2).
Defined.

(** * Further properties of the code *)

(** X1.  In every list [getAtomGroupDistribution] returns, the group ids
    ascend strictly: the groups of a domain are in the order of the global
    block, which is the order of the local atoms. *)
Theorem X1_groups_of_a_domain_ascend
    (fuel : nat) (box : matrix) (ddbox : gmx_ddbox_t) (tcm : matrix)
    (cb : vec3 (list real)) (cgs : t_block) (pos : list rvec) (dd : gmx_domdec_t)
    (st : distribution) :
  getAtomGroupDistribution fuel box ddbox tcm cb cgs pos dd = Some st ->
  forall (r : nat) (l : list Z),
    d_indices st !! r = Some l ->
    StronglySorted Z.lt l /\ Forall (fun icg => 0 <= icg < cgs.(nr)) l.
Proof. apply getAtomGroupDistribution_ascending. Qed.

Lemma X1_at_the_example :
  exists st,
    getAtomGroupDistribution 1 ex_box ex_ddbox ex_tcm ex_boundaries ex_cgs ex_pos
      (ex_dd 0) = Some st /\
    forall (r : nat) (l : list Z),
      d_indices st !! r = Some l ->
      StronglySorted Z.lt l /\ Forall (fun icg => 0 <= icg < ex_cgs.(nr)) l.
Proof.
  destruct (getAtomGroupDistribution 1 ex_box ex_ddbox ex_tcm ex_boundaries ex_cgs
              ex_pos (ex_dd 0)) as [st|] eqn:H; [|vm_compute in H; discriminate H].
  exists st. split; [reflexivity|].
  exact (X1_groups_of_a_domain_ascend 1 ex_box ex_ddbox ex_tcm ex_boundaries ex_cgs
           ex_pos (ex_dd 0) st H).
Defined.

(** X2.  The atom count [getAtomGroupDistribution] leaves in the ledger
    for a domain is the number of atoms of the groups of its list: the sum
    of [cgindex[icg + 1] - cgindex[icg]] over the groups of the list.  The
    ledger has an entry per rank. *)
Theorem X2_count_of_a_domain_is_the_size_of_its_groups
    (fuel : nat) (box : matrix) (ddbox : gmx_ddbox_t) (tcm : matrix)
    (cb : vec3 (list real)) (cgs : t_block) (pos : list rvec) (dd : gmx_domdec_t)
    (st : distribution) :
  length dd.(ma).(domainGroups) = Z.to_nat dd.(nnodes) ->
  getAtomGroupDistribution fuel box ddbox tcm cb cgs pos dd = Some st ->
  length (d_groups st) = length (d_indices st) /\
  forall (r : nat) (l : list Z),
    d_indices st !! r = Some l ->
    exists g, d_groups st !! r = Some g /\
      numAtoms g = Zsum (group_size cgs <$> l).
Proof.
  intros Hlen H. unfold getAtomGroupDistribution in H.
  apply distribute_groups_tally in H; [|by apply tally_start].
  split; [symmetry; by eapply Forall2_length|].
  intros r l Hl.
  destruct (Forall2_lookup_l _ _ _ _ _ H Hl) as (g & Hg & Hn). by exists g.
Qed.

Lemma X2_at_the_example :
  exists st,
    length (ex_dd 0).(ma).(domainGroups) = Z.to_nat (ex_dd 0).(nnodes) /\
    getAtomGroupDistribution 1 ex_box ex_ddbox ex_tcm ex_boundaries ex_cgs ex_pos
      (ex_dd 0) = Some st /\
    length (d_groups st) = length (d_indices st) /\
    forall (r : nat) (l : list Z),
      d_indices st !! r = Some l ->
      exists g, d_groups st !! r = Some g /\
        numAtoms g = Zsum (group_size ex_cgs <$> l).
Proof.
  assert (H1 : length (ex_dd 0).(ma).(domainGroups) = Z.to_nat (ex_dd 0).(nnodes))
    by reflexivity.
  destruct (getAtomGroupDistribution 1 ex_box ex_ddbox ex_tcm ex_boundaries ex_cgs
              ex_pos (ex_dd 0)) as [st|] eqn:H; [|vm_compute in H; discriminate H].
  exists st. split; [exact H1|]. split; [reflexivity|].
  exact (X2_count_of_a_domain_is_the_size_of_its_groups 1 ex_box ex_ddbox ex_tcm
           ex_boundaries ex_cgs ex_pos (ex_dd 0) st H1 H).
Defined.

(** X3.  Whatever the boundaries and the positions are, the domain id
    under which a group is filed is the rank of a domain of the grid: the
    writes to [indices[domainIndex]] and to the ledger stay within the
    arrays. *)
Theorem X3_domain_id_is_a_rank
    (fuel : nat) (dd : gmx_domdec_t) (ddbox : gmx_ddbox_t) (box tcm : matrix)
    (cb : vec3 (list real)) (cgs : t_block) (icg : Z) (pos : list rvec)
    (g : group_state) :
  valid_grid dd ->
  place_group fuel dd ddbox box tcm cb cgs icg pos = Some g ->
  0 <= dd_index dd.(nc) (g_ind g) < dd.(nnodes).
Proof. apply place_group_domain. Qed.

Lemma X3_at_the_example :
  exists g,
    valid_grid (ex_dd 0) /\
    place_group 1 (ex_dd 0) ex_ddbox ex_box ex_tcm ex_boundaries ex_cgs 2 ex_pos
    = Some g /\
    0 <= dd_index (ex_dd 0).(nc) (g_ind g) < (ex_dd 0).(nnodes).
Proof.
  assert (Hg : valid_grid (ex_dd 0)).
  { split; [intros d; destruct d; simpl; lia|reflexivity]. }
  destruct (place_group 1 (ex_dd 0) ex_ddbox ex_box ex_tcm ex_boundaries ex_cgs 2 ex_pos)
    as [g|] eqn:H; [|vm_compute in H; discriminate H].
  exists g. split; [exact Hg|]. split; [reflexivity|].
  exact (X3_domain_id_is_a_rank 1 (ex_dd 0) ex_ddbox ex_box ex_tcm ex_boundaries
           ex_cgs 2 ex_pos g Hg H).
Defined.

(** X4.  When the box has no positive length along a periodic axis and
    there are groups to place, each of at least one atom and within the
    position array, the wrapping loops never end: no amount of fuel makes
    [getAtomGroupDistribution] return, and [distributeAtomGroups] never
    completes. *)
Theorem X4_no_return_without_box_length
    (ext : externals) (box : matrix) (ddbox : gmx_ddbox_t) (tcm : matrix)
    (cb : vec3 (list real)) (cgs : t_block) (pos : list rvec) (dd : gmx_domdec_t)
    (d : axis) :
  axis_idx d < dd.(npbcdim) ->
  (box.[d].[d] <= 0)%Q ->
  0 < cgs.(nr) ->
  block_in cgs pos ->
  (forall fuel, getAtomGroupDistribution fuel box ddbox tcm cb cgs pos dd = None) /\
  (forall fuel dds m out,
     dds !! Z.to_nat m = Some dd ->
     distributeAtomGroups ext fuel dds m cgs box ddbox tcm cb pos <> Done out).
Proof.
  intros Hd Hb Hnr _.
  assert (Hnever : forall fuel,
            getAtomGroupDistribution fuel box ddbox tcm cb cgs pos dd = None)
    by (intros fuel; by eapply getAtomGroupDistribution_never).
  split; [done|].
  intros fuel dds m out Hm. unfold distributeAtomGroups. rewrite Hm.
  unfold master_assign. rewrite Hnever.
  destruct (bScrewPBC dd); [destruct (check_screw_box ext box)|]; discriminate.
Qed.

Lemma X4_at_the_example :
  axis_idx ZZ < (ex_dd 0).(npbcdim) /\
  (flat_box.[ZZ].[ZZ] <= 0)%Q /\
  0 < ex_cgs.(nr) /\
  block_in ex_cgs ex_pos /\
  (forall fuel,
     getAtomGroupDistribution fuel flat_box ex_ddbox ex_tcm ex_boundaries ex_cgs
       ex_pos (ex_dd 0) = None) /\
  (forall fuel dds m out,
     dds !! Z.to_nat m = Some (ex_dd 0) ->
     distributeAtomGroups ex_ext fuel dds m ex_cgs flat_box ex_ddbox ex_tcm
       ex_boundaries ex_pos <> Done out).
Proof.
  assert (H1 : axis_idx ZZ < (ex_dd 0).(npbcdim)) by (simpl; lia).
  assert (H2 : (flat_box.[ZZ].[ZZ] <= 0)%Q) by (vm_compute; intros Hc; discriminate Hc).
  assert (H3 : 0 < ex_cgs.(nr)) by (simpl; lia).
  assert (H4 : block_in ex_cgs ex_pos).
  { split.
    - intros icg Hicg.
      assert (Hc : icg = 0 \/ icg = 1 \/ icg = 2) by (simpl in Hicg; lia).
      destruct Hc as [ -> | [ -> | -> ] ]; unfold group_in, arr_get; simpl; lia.
    - intros i j Hi Hij Hj.
      assert (Hc : i = 0 /\ j = 1 \/ i = 0 /\ j = 2 \/ i = 1 /\ j = 2)
        by (simpl in Hj; lia).
      destruct Hc as [ [-> ->] | [ [-> ->] | [-> ->] ] ]; unfold arr_get; simpl; lia. }
  split; [exact H1|]. split; [exact H2|]. split; [exact H3|]. split; [exact H4|].
  exact (X4_no_return_without_box_length ex_ext flat_box ex_ddbox ex_tcm ex_boundaries
           ex_cgs ex_pos (ex_dd 0) ZZ H1 H2 H3 H4).
Defined.

(** X5.  Without a screw boundary, the assignment moves the atoms of a
    group by one and the same lattice vector, a sum of whole multiples of
    the three box vectors; the array keeps its length and no atom outside
    the group is touched. *)
Theorem X5_group_moves_by_a_lattice_vector
    (fuel : nat) (dd : gmx_domdec_t) (ddbox : gmx_ddbox_t) (box tcm : matrix)
    (cb : vec3 (list real)) (cgs : t_block) (icg : Z) (pos : list rvec)
    (g : group_state) :
  dd.(bScrewPBC) = false ->
  members_present pos (arr_get cgs.(index) icg) (arr_get cgs.(index) (icg + 1)) ->
  place_group fuel dd ddbox box tcm cb cgs icg pos = Some g ->
  length (g_pos g) = length pos /\
  (exists n : ivec,
     forall k, arr_get cgs.(index) icg <= k < arr_get cgs.(index) (icg + 1) ->
       rvec_eq (arr_get (g_pos g) k) (lattice_shift box n (arr_get pos k))) /\
  (forall j : nat,
     ~ (arr_get cgs.(index) icg <= Z.of_nat j < arr_get cgs.(index) (icg + 1)) ->
     g_pos g !! j = pos !! j).
Proof.
  intros Hscrew Hmem H.
  destruct (place_group_outside _ _ _ _ _ _ _ _ _ _ H) as [Hlen Hout].
  split; [done|]. split; [|done]. by eapply place_group_lattice.
Qed.

Lemma X5_at_the_example :
  exists g,
    (ex_dd 0).(bScrewPBC) = false /\
    members_present ex_pos (arr_get ex_cgs.(index) 2) (arr_get ex_cgs.(index) (2 + 1)) /\
    place_group 1 (ex_dd 0) ex_ddbox ex_box ex_tcm ex_boundaries ex_cgs 2 ex_pos
    = Some g /\
    length (g_pos g) = length ex_pos /\
    (exists n : ivec,
       forall k, arr_get ex_cgs.(index) 2 <= k < arr_get ex_cgs.(index) (2 + 1) ->
         rvec_eq (arr_get (g_pos g) k) (lattice_shift ex_box n (arr_get ex_pos k))) /\
    (forall j : nat,
       ~ (arr_get ex_cgs.(index) 2 <= Z.of_nat j < arr_get ex_cgs.(index) (2 + 1)) ->
       g_pos g !! j = ex_pos !! j).
Proof.
  assert (H1 : (ex_dd 0).(bScrewPBC) = false) by reflexivity.
  assert (H2 : members_present ex_pos (arr_get ex_cgs.(index) 2)
                 (arr_get ex_cgs.(index) (2 + 1))).
  { split; [unfold arr_get; simpl; lia|].
    intros j Hj. unfold arr_get in Hj. simpl in Hj.
    assert (j = 3%nat) as -> by lia. by eexists. }
  destruct (place_group 1 (ex_dd 0) ex_ddbox ex_box ex_tcm ex_boundaries ex_cgs 2 ex_pos)
    as [g|] eqn:H; [|vm_compute in H; discriminate H].
  exists g. split; [exact H1|]. split; [exact H2|]. split; [reflexivity|].
  exact (X5_group_moves_by_a_lattice_vector 1 (ex_dd 0) ex_ddbox ex_box ex_tcm
           ex_boundaries ex_cgs 2 ex_pos g H1 H2 H).
Defined.

(** X6.  When the reference location of every group already lies in the
    primary range along every periodic axis, [getAtomGroupDistribution]
    returns without a round of the wrapping loops (any fuel will do, none
    is used) and leaves the position array as it was. *)
Theorem X6_groups_in_the_box_are_not_moved
    (box : matrix) (ddbox : gmx_ddbox_t) (tcm : matrix) (cb : vec3 (list real))
    (cgs : t_block) (pos : list rvec) (dd : gmx_domdec_t) :
  (forall icg, 0 <= icg < cgs.(nr) -> settled dd ddbox box tcm cgs pos icg) ->
  forall fuel, exists st,
    getAtomGroupDistribution fuel box ddbox tcm cb cgs pos dd = Some st /\
    d_pos st = pos.
Proof.
  intros Hall fuel. unfold getAtomGroupDistribution.
  apply distribute_groups_fixed. cbn [d_pos].
  intros icg Hi. apply Hall. apply elem_of_seqZ in Hi. lia.
Qed.

Lemma X6_at_the_example :
  (forall icg, 0 <= icg < ex_cgs.(nr) ->
     settled (ex_dd 0) ex_ddbox ex_box ex_tcm ex_cgs in_pos icg) /\
  forall fuel, exists st,
    getAtomGroupDistribution fuel ex_box ex_ddbox ex_tcm ex_boundaries ex_cgs in_pos
      (ex_dd 0) = Some st /\
    d_pos st = in_pos.
Proof.
  assert (H1 : forall icg, 0 <= icg < ex_cgs.(nr) ->
                 settled (ex_dd 0) ex_ddbox ex_box ex_tcm ex_cgs in_pos icg).
  { intros icg Hicg.
    assert (Hc : icg = 0 \/ icg = 1 \/ icg = 2) by (simpl in Hicg; lia).
    destruct Hc as [ -> | [ -> | -> ] ]; intros d _; destruct d; vm_compute;
      (split; [intros Hc; discriminate Hc|reflexivity]). }
  split; [exact H1|].
  exact (X6_groups_in_the_box_are_not_moved ex_box ex_ddbox ex_tcm ex_boundaries
           ex_cgs in_pos (ex_dd 0) H1).
Defined.

(** X7.  On a single domain [getAtomGroupDistribution] files every group
    under rank 0, in the order of the block, and counts all atoms of the
    block for it. *)
Theorem X7_single_domain_keeps_every_group
    (fuel : nat) (box : matrix) (ddbox : gmx_ddbox_t) (tcm : matrix)
    (cb : vec3 (list real)) (cgs : t_block) (pos : list rvec) (dd : gmx_domdec_t)
    (st : distribution) :
  valid_grid dd ->
  dd.(nnodes) = 1 ->
  length dd.(ma).(domainGroups) = 1%nat ->
  0 <= cgs.(nr) ->
  getAtomGroupDistribution fuel box ddbox tcm cb cgs pos dd = Some st ->
  d_indices st = [seqZ 0 cgs.(nr)] /\
  numAtoms <$> d_groups st = [arr_get cgs.(index) cgs.(nr) - arr_get cgs.(index) 0].
Proof.
  intros Hgrid Hnn Hdg Hnr H.
  assert (Hlen : length dd.(ma).(domainGroups) = Z.to_nat dd.(nnodes))
    by (rewrite Hnn, Hdg; reflexivity).
  destruct (getAtomGroupDistribution_counts _ _ _ _ _ _ _ _ _ Hgrid Hlen Hnr H)
    as [Hgl Hsum].
  pose proof H as H'. unfold getAtomGroupDistribution in H'.
  apply distribute_groups_indices in H' as [Hil Hperm]; [|done|].
  2: { cbn [d_indices]. by rewrite length_replicate. }
  cbn [d_indices] in Hperm. rewrite concat_replicate_nil in Hperm. simpl in Hperm.
  rewrite Hnn in Hil, Hgl. split.
  - destruct (d_indices st) as [|l [|? ?]] eqn:E; try discriminate Hil.
    simpl in Hperm. rewrite app_nil_r in Hperm. f_equal.
    apply sorted_perm_seqZ; [|done].
    apply (getAtomGroupDistribution_ascending fuel box ddbox tcm cb cgs pos dd st H 0%nat l). by rewrite E.
  - destruct (d_groups st) as [|g1 [|? ?]]; try discriminate Hgl.
    simpl in *. f_equal. lia.
Qed.

Lemma X7_at_the_example :
  exists st,
    valid_grid one_dd /\
    one_dd.(nnodes) = 1 /\
    length one_dd.(ma).(domainGroups) = 1%nat /\
    0 <= ex_cgs.(nr) /\
    getAtomGroupDistribution 1 ex_box ex_ddbox ex_tcm one_boundaries ex_cgs ex_pos
      one_dd = Some st /\
    d_indices st = [seqZ 0 ex_cgs.(nr)] /\
    numAtoms <$> d_groups st
    = [arr_get ex_cgs.(index) ex_cgs.(nr) - arr_get ex_cgs.(index) 0].
Proof.
  assert (H1 : valid_grid one_dd).
  { split; [intros d; destruct d; simpl; lia|reflexivity]. }
  assert (H2 : one_dd.(nnodes) = 1) by reflexivity.
  assert (H3 : length one_dd.(ma).(domainGroups) = 1%nat) by reflexivity.
  assert (H4 : 0 <= ex_cgs.(nr)) by (simpl; lia).
  destruct (getAtomGroupDistribution 1 ex_box ex_ddbox ex_tcm one_boundaries ex_cgs
              ex_pos one_dd) as [st|] eqn:H; [|vm_compute in H; discriminate H].
  exists st. split; [exact H1|]. split; [exact H2|]. split; [exact H3|].
  split; [exact H4|]. split; [reflexivity|].
  exact (X7_single_domain_keeps_every_group 1 ex_box ex_ddbox ex_tcm one_boundaries
           ex_cgs ex_pos one_dd st H1 H2 H3 H4 H).
Defined.

(** X8.  In the point-to-point strategy the master sends one message to
    every other rank, in rank order, and none to itself; the message for a
    rank holds the vectors of the atoms of the groups the ledger lists for
    it, in that order, as many as the ledger counts.  The counts of the
    ledger are those of its lists and [lv] has room for the atoms of the
    master. *)
Theorem X8_master_sends_one_message_per_other_rank
    (ext : externals) (dd : gmx_domdec_t) (cgs : t_block) (v lv : loc)
    (incoming : list rvec) (h : mem) (l0 : list rvec) :
  externals_ok ext ->
  DDMASTER dd = true ->
  0 <= dd.(rank) < dd.(nnodes) ->
  (forall r, 0 <= r < dd.(nnodes) ->
     numAtoms (arr_get dd.(ma).(domainGroups) r)
     = Z.of_nat (length (rank_atoms cgs dd.(ma) r))) ->
  v <> lv ->
  h !! lv = Some l0 ->
  (length (rank_atoms cgs dd.(ma) dd.(rank)) <= length l0)%nat ->
  exists sent h',
    dd_distribute_vec_sendrecv ext dd cgs v lv incoming h = Done (sent, h') /\
    fst <$> sent = filter (fun r => r <> dd.(rank)) (seqZ 0 dd.(nnodes)) /\
    forall r msg, (r, msg) ∈ sent ->
      msg = (fun i => mem_read h v i) <$> rank_atoms cgs dd.(ma) r /\
      Z.of_nat (length msg) = numAtoms (arr_get dd.(ma).(domainGroups) r).
Proof.
  intros Hext Hmaster Hrank Hcons Hv Hlv Hroom.
  rewrite (sendrecv_master_run ext dd cgs v lv incoming h l0) by done.
  eexists. eexists. split; [reflexivity|]. unfold expected_sent. split.
  - rewrite <- list_fmap_compose. apply list_fmap_id.
  - intros r msg Hin. apply list_elem_of_fmap in Hin as (q & Heq & Hq).
    injection Heq as -> ->. split; [done|].
    apply list_elem_of_filter in Hq as [_ Hq]. apply elem_of_seqZ in Hq.
    rewrite length_fmap. symmetry. apply Hcons. lia.
Qed.

Lemma X8_at_the_example :
  let h : gmap nat (list (vec3 Q)) :=
    <[gl := ex_pos]> {[ lo := replicate 2 zero_rvec ]} in
  externals_ok ex_ext /\
  DDMASTER (ex_dd2 0) = true /\
  0 <= (ex_dd2 0).(rank) < (ex_dd2 0).(nnodes) /\
  (forall r, 0 <= r < (ex_dd2 0).(nnodes) ->
     numAtoms (arr_get (ex_dd2 0).(ma).(domainGroups) r)
     = Z.of_nat (length (rank_atoms ex_cgs (ex_dd2 0).(ma) r))) /\
  gl <> lo /\
  h !! lo = Some (replicate 2 zero_rvec) /\
  (length (rank_atoms ex_cgs (ex_dd2 0).(ma) (ex_dd2 0).(rank))
   <= length (replicate 2 zero_rvec))%nat /\
  exists sent h',
    dd_distribute_vec_sendrecv ex_ext (ex_dd2 0) ex_cgs gl lo [] h = Done (sent, h') /\
    fst <$> sent = filter (fun r => r <> (ex_dd2 0).(rank)) (seqZ 0 (ex_dd2 0).(nnodes)) /\
    forall r msg, (r, msg) ∈ sent ->
      msg = (fun i => mem_read h gl i) <$> rank_atoms ex_cgs (ex_dd2 0).(ma) r /\
      Z.of_nat (length msg) = numAtoms (arr_get (ex_dd2 0).(ma).(domainGroups) r).
Proof.
  intros h.
  assert (H1 : externals_ok ex_ext) by (split; [intros n; simpl; lia|simpl; lia]).
  assert (H2 : DDMASTER (ex_dd2 0) = true) by reflexivity.
  assert (H3 : 0 <= (ex_dd2 0).(rank) < (ex_dd2 0).(nnodes)) by (simpl; lia).
  assert (H4 : forall r, 0 <= r < (ex_dd2 0).(nnodes) ->
                 numAtoms (arr_get (ex_dd2 0).(ma).(domainGroups) r)
                 = Z.of_nat (length (rank_atoms ex_cgs (ex_dd2 0).(ma) r))).
  { intros r Hr. assert (Hc : r = 0 \/ r = 1) by (simpl in Hr; lia).
    destruct Hc as [ -> | -> ]; reflexivity. }
  assert (H5 : gl <> lo) by (intros Hc; discriminate Hc).
  assert (H6 : h !! lo = Some (replicate 2 zero_rvec)) by reflexivity.
  assert (H7 : (length (rank_atoms ex_cgs (ex_dd2 0).(ma) (ex_dd2 0).(rank))
                <= length (replicate 2 zero_rvec))%nat) by (vm_compute; lia).
  split; [exact H1|]. split; [exact H2|]. split; [exact H3|]. split; [exact H4|].
  split; [exact H5|]. split; [exact H6|]. split; [exact H7|].
  exact (X8_master_sends_one_message_per_other_rank ex_ext (ex_dd2 0) ex_cgs gl lo []
           h (replicate 2 zero_rvec) H1 H2 H3 H4 H5 H6 H7).
Defined.

(** X9.  When the atom count the ledger keeps for another rank is not the
    number of atoms of the groups it lists for that rank, the master ends
    the point-to-point strategy with the fatal message of the assertion at
    line 95; nothing is written to [lv].  The atoms listed for a rank are
    no more than the ledger counts for it and [over_alloc_dd] does not
    shrink a count, so that every copy of line 92 lies within the scratch
    buffer. *)
Theorem X9_count_mismatch_ends_the_point_to_point_strategy
    (ext : externals) (dd : gmx_domdec_t) (cgs : t_block) (v lv : loc)
    (incoming : list rvec) (h : mem) (r : Z) :
  externals_ok ext ->
  DDMASTER dd = true ->
  (forall q, 0 <= q < dd.(nnodes) -> q <> dd.(rank) ->
     Z.of_nat (length (rank_atoms cgs dd.(ma) q))
     <= numAtoms (arr_get dd.(ma).(domainGroups) q)) ->
  0 <= r < dd.(nnodes) ->
  r <> dd.(rank) ->
  numAtoms (arr_get dd.(ma).(domainGroups) r)
  <> Z.of_nat (length (rank_atoms cgs dd.(ma) r)) ->
  dd_distribute_vec_sendrecv ext dd cgs v lv incoming h
  = Fatal "The index count and number of indices should match".
Proof.
  intros _ Hmaster _ Hr Hne Hbad. unfold dd_distribute_vec_sendrecv. rewrite Hmaster.
  rewrite (for_range_result_fatal
             "The index count and number of indices should match"
             0 dd.(nnodes) (send_rank ext dd cgs v h) _ r); [done|done| |].
  - intros k s. apply send_rank_outcome.
  - intros s. by apply send_rank_mismatch.
Qed.

Lemma X9_at_the_example :
  externals_ok ex_ext /\
  DDMASTER (ex_dd 0) = true /\
  (forall q, 0 <= q < (ex_dd 0).(nnodes) -> q <> (ex_dd 0).(rank) ->
     Z.of_nat (length (rank_atoms ex_cgs (ex_dd 0).(ma) q))
     <= numAtoms (arr_get (ex_dd 0).(ma).(domainGroups) q)) /\
  0 <= 1 < (ex_dd 0).(nnodes) /\
  1 <> (ex_dd 0).(rank) /\
  numAtoms (arr_get (ex_dd 0).(ma).(domainGroups) 1)
  <> Z.of_nat (length (rank_atoms ex_cgs (ex_dd 0).(ma) 1)) /\
  dd_distribute_vec_sendrecv ex_ext (ex_dd 0) ex_cgs gl lo []
    (<[gl := ex_pos]> {[ lo := replicate 2 zero_rvec ]})
  = Fatal "The index count and number of indices should match".
Proof.
  assert (H0 : externals_ok ex_ext) by (split; [intros n; simpl; lia|simpl; lia]).
  assert (H1 : DDMASTER (ex_dd 0) = true) by reflexivity.
  assert (Hfit : forall q, 0 <= q < (ex_dd 0).(nnodes) -> q <> (ex_dd 0).(rank) ->
            Z.of_nat (length (rank_atoms ex_cgs (ex_dd 0).(ma) q))
            <= numAtoms (arr_get (ex_dd 0).(ma).(domainGroups) q)).
  { intros q Hq Hne. assert (q = 1) as -> by (simpl in Hq, Hne; lia).
    vm_compute. intros Hc. discriminate Hc. }
  assert (H2 : 0 <= 1 < (ex_dd 0).(nnodes)) by (simpl; lia).
  assert (H3 : 1 <> (ex_dd 0).(rank)) by (simpl; lia).
  assert (H4 : numAtoms (arr_get (ex_dd 0).(ma).(domainGroups) 1)
               <> Z.of_nat (length (rank_atoms ex_cgs (ex_dd 0).(ma) 1)))
    by (vm_compute; intros Hc; discriminate Hc).
  split; [exact H0|]. split; [exact H1|]. split; [exact Hfit|].
  split; [exact H2|]. split; [exact H3|]. split; [exact H4|].
  exact (X9_count_mismatch_ends_the_point_to_point_strategy ex_ext (ex_dd 0) ex_cgs
           gl lo [] (<[gl := ex_pos]> {[ lo := replicate 2 zero_rvec ]}) 1
           H0 H1 Hfit H2 H3 H4).
Defined.
